(** * AMBOT actuator node (CmdCtrl_Main): command ingestion, failsafe,
      motor and servo ramps, scanner LEDs.

    Shallow embedding of [CmdCtrl_Main.ino], [MotorDriver.h/.cpp],
    [ServoController.h], [LedSystems.h], [GlobalVariables.cpp] and
    [SystemCodes.h], followed by the properties of the control loop.

    Target is a Teensy 4.1 (32-bit ARM): [int] and [long] are 32 bits wide,
    [char] is an unsigned byte and [float] is IEEE-754 binary32. *)

From Stdlib Require Import ZArith List Bool Ascii String Lia.
From Stdlib Require Import Floats.SpecFloat.
Import ListNotations.
Open Scope Z_scope.

(* ================================================================== *)
(** * Machine integers and characters *)
(* ================================================================== *)

Definition INT_MIN : Z := -2147483648.
Definition INT_MAX : Z := 2147483647.

(** Two's-complement wrap-around of a 32-bit signed [int]. *)
Definition wrap32 (z : Z) : Z := (z + 2147483648) mod 4294967296 - 2147483648.

(** Difference of two [unsigned long] clock readings. *)
Definition usub32 (a b : Z) : Z := (a - b) mod 4294967296.

(** Arduino's [min], [max] and [constrain] at type [int]. *)
Definition imin (a b : Z) : Z := if a <? b then a else b.
Definition imax (a b : Z) : Z := if a >? b then a else b.
Definition iconstrain (amt low high : Z) : Z :=
  if amt <? low then low else if amt >? high then high else amt.

(** Numeric value of a [char]. *)
Definition code (c : ascii) : Z := Z.of_N (N_of_ascii c).

Definition NUL : ascii := "000"%char.
Definition LF : ascii := "010"%char.
Definition CR : ascii := "013"%char.

(** [l[i] := v]; an index outside the array leaves it as it is. *)
Fixpoint upd {A : Type} (i : nat) (v : A) (l : list A) : list A :=
  match l, i with
  | [], _ => []
  | _ :: r, O => v :: r
  | x :: r, S j => x :: upd j v r
  end.

(** [n] applications of [f]. *)
Fixpoint iter {A : Type} (n : nat) (f : A -> A) (x : A) : A :=
  match n with
  | O => x
  | S k => iter k f (f x)
  end.

(* ================================================================== *)
(** * binary32 floats *)
(* ================================================================== *)

Module F32.

Definition prec : Z := 24.
Definition emax : Z := 128.

Definition t : Type := spec_float.

Definition add : t -> t -> t := SFadd prec emax.
Definition sub : t -> t -> t := SFsub prec emax.
Definition mul : t -> t -> t := SFmul prec emax.
Definition opp : t -> t := SFopp.
Definition ltb : t -> t -> bool := SFltb.
Definition gtb (x y : t) : bool := SFltb y x.
Definition leb : t -> t -> bool := SFleb.

(** Conversion of an integer constant to [float]. *)
Definition of_Z (z : Z) : t := binary_normalize prec emax z 0 false.

Definition zero : t := S754_zero false.

Definition is_nan (x : t) : bool :=
  match x with S754_nan => true | _ => false end.

(** Structural equality of representations. *)
Definition eqb (x y : t) : bool :=
  match x, y with
  | S754_zero a, S754_zero b => Bool.eqb a b
  | S754_infinity a, S754_infinity b => Bool.eqb a b
  | S754_nan, S754_nan => true
  | S754_finite a m e, S754_finite b n f =>
      Bool.eqb a b && Pos.eqb m n && Z.eqb e f
  | _, _ => false
  end.

(** [min] and [max] as [a < b ? a : b] and [a > b ? a : b]. *)
Definition fmin (a b : t) : t := if ltb a b then a else b.
Definition fmax (a b : t) : t := if gtb a b then a else b.

(** [constrain(amt, low, high)] with [int] bounds converted to [float]. *)
Definition fconstrain (amt : t) (low high : Z) : t :=
  if ltb amt (of_Z low) then of_Z low
  else if gtb amt (of_Z high) then of_Z high
  else amt.

(** [abs(x)] is the macro [(x) > 0 ? (x) : -(x)]. *)
Definition fabs (x : t) : t := if gtb x (of_Z 0) then x else opp x.

(** Exact widening of a [float] to [double] (binary64). *)
Definition to_double (x : t) : spec_float :=
  match x with
  | S754_finite s m e => binary_normalize 53 1024 (cond_Zopp s (Zpos m)) e false
  | _ => x
  end.

(** The [double] literal [0.01]. *)
Definition d0_01 : spec_float := S754_finite false 5764607523034235 (-59).

End F32.

(* ================================================================== *)
(** * MotorDriver.h / MotorDriver.cpp *)
(* ================================================================== *)

Module Motor.

(** The pin numbers RPWM, LPWM, REN, LEN only select the output lines
    and are left out; [analogWrite] is a peripheral write that changes
    no field. *)
Record t : Type := mk {
  targetPWM : Z;
  currentPWM : Z;
  pwmStep : Z
}.

(** [Motor::Motor(..., int step = 5)] *)
Definition ctor (step : Z) : t :=
  {| targetPWM := 0; currentPWM := 0; pwmStep := step |}.

Definition default_step : Z := 5.

(** [Motor::setTarget] *)
Definition setTarget (pwm : Z) (m : t) : t :=
  {| targetPWM := iconstrain pwm (-255) 255;
     currentPWM := currentPWM m;
     pwmStep := pwmStep m |}.

(** [Motor::update]: the ramp; the two [analogWrite] calls that follow
    read [currentPWM] only. *)
Definition update (m : t) : t :=
  {| targetPWM := targetPWM m;
     currentPWM :=
       if currentPWM m <? targetPWM m
       then imin (wrap32 (currentPWM m + pwmStep m)) (targetPWM m)
       else if currentPWM m >? targetPWM m
       then imax (wrap32 (currentPWM m - pwmStep m)) (targetPWM m)
       else currentPWM m;
     pwmStep := pwmStep m |}.

(** [Motor::emergencyStop] *)
Definition emergencyStop (m : t) : t :=
  {| targetPWM := 0; currentPWM := 0; pwmStep := pwmStep m |}.

(** [Motor::begin]: pin setup, then [emergencyStop()]. *)
Definition begin (m : t) : t := emergencyStop m.

Definition getCurrentPWM (m : t) : Z := currentPWM m.

(** The two calls a client can interleave on a motor. *)
Inductive op : Type :=
| SetTarget (pwm : Z)
| Update.

Definition apply (m : t) (o : op) : t :=
  match o with
  | SetTarget pwm => setTarget pwm m
  | Update => update m
  end.

Definition run (ops : list op) (m : t) : t := fold_left apply ops m.

End Motor.

(* ================================================================== *)
(** * ServoController.h *)
(* ================================================================== *)

Module ServoController.

Definition numServos : Z := 6.

(** The PWM driver object is a peripheral handle and is left out. *)
Record t : Type := mk {
  servoMin : Z;
  servoMax : Z;
  angles : list F32.t;
  speeds : list F32.t;
  sensitivity : list F32.t;
  maxSpeed : F32.t;
  accel : F32.t;
  decel : F32.t
}.

(** The literal [0.05] stored in a [float]: 0x3D4CCCCD. *)
Definition f0_05 : F32.t := S754_finite false 13421773 (-28).

(** [ServoController::ServoController()] with the member initialisers. *)
Definition ctor : t :=
  {| servoMin := 150;
     servoMax := 600;
     angles := repeat (F32.of_Z 90) (Z.to_nat numServos);
     speeds := repeat (F32.of_Z 0) (Z.to_nat numServos);
     sensitivity := repeat (F32.of_Z 1) (Z.to_nat numServos);
     maxSpeed := F32.of_Z 2;
     accel := f0_05;
     decel := f0_05 |}.

(** [emergencyStop]: every speed becomes 0, angles are kept. *)
Definition emergencyStop (sc : t) : t :=
  {| servoMin := servoMin sc;
     servoMax := servoMax sc;
     angles := angles sc;
     speeds := map (fun _ => F32.of_Z 0) (speeds sc);
     sensitivity := sensitivity sc;
     maxSpeed := maxSpeed sc;
     accel := accel sc;
     decel := decel sc |}.

(** [isActive]: some [abs(speeds[i]) > 0.01], compared in [double]. *)
Definition isActive (sc : t) : bool :=
  existsb (fun s => SFltb F32.d0_01 (F32.to_double (F32.fabs s))) (speeds sc).

(** The speed written by the "Ramp logic" lines of [update]. *)
Definition ramp (speed targetSpeed up down : F32.t) : F32.t :=
  if F32.ltb speed targetSpeed
  then F32.fmin (F32.add speed up) targetSpeed
  else if F32.gtb speed targetSpeed
  then F32.fmax (F32.sub speed down) targetSpeed
  else speed.

(** [targetSpeed] as [update] derives it from the command character. *)
Definition targetSpeed (sc : t) (i : nat) (cmd : ascii) : F32.t :=
  if Ascii.eqb cmd "L"
  then F32.mul (F32.opp (maxSpeed sc)) (nth i (sensitivity sc) F32.zero)
  else if Ascii.eqb cmd "R"
  then F32.mul (maxSpeed sc) (nth i (sensitivity sc) F32.zero)
  else F32.of_Z 0.

(** One iteration of the [for] loop of [update], for joint [i]. The
    pulse write that ends the iteration reads the clamped angle and
    changes no field. *)
Definition update_joint (commands : list ascii) (sc : t) (i : nat) : t :=
  let tgt := targetSpeed sc i (nth i commands NUL) in
  let sp := ramp (nth i (speeds sc) F32.zero) tgt (accel sc) (decel sc) in
  let an := F32.fconstrain (F32.add (nth i (angles sc) F32.zero) sp) 0 180 in
  {| servoMin := servoMin sc;
     servoMax := servoMax sc;
     angles := upd i an (angles sc);
     speeds := upd i sp (speeds sc);
     sensitivity := sensitivity sc;
     maxSpeed := maxSpeed sc;
     accel := accel sc;
     decel := decel sc |}.

(** [update(char commands[])] *)
Definition update (commands : list ascii) (sc : t) : t :=
  fold_left (update_joint commands) (seq 0 (Z.to_nat numServos)) sc.

End ServoController.

(* ================================================================== *)
(** * LedSystems.h *)
(* ================================================================== *)

Module LedController.

Definition PIN_SCANNER : list Z := [10; 11].
Definition PIN_FAST_BLINK : Z := 24.
Definition PIN_SEQUENCE : Z := 9.
Definition PIN_HEARTBEAT : Z := 13.

Definition SCAN_SPEED : Z := 100.
Definition PIN24_SPEED : Z := 50.
Definition HEARTBEAT_SPEED : Z := 500.

Record t : Type := mk {
  lastScanTime : Z;
  scannerIdx : Z;
  scannerDir : Z;
  scannerStep : Z;
  lastBeaconTime : Z;
  beaconStep : Z;
  s24 : bool; t24 : Z;
  s13 : bool; t13 : Z;
  sSingle : bool; tSingle : Z
}.

(** The in-class member initialisers. *)
Definition init : t :=
  {| lastScanTime := 0; scannerIdx := 0; scannerDir := 1; scannerStep := 0;
     lastBeaconTime := 0; beaconStep := 0;
     s24 := false; t24 := 0; s13 := false; t13 := 0;
     sSingle := false; tSingle := 0 |}.

(** A [digitalWrite(pin, level)]. *)
Definition write : Type := (Z * bool)%type.

(** [PIN_SCANNER[i]]: [None] when [i] is outside the 2-element array. *)
Definition pin_scanner (i : Z) : option Z :=
  if (0 <=? i) && (i <? 2) then nth_error PIN_SCANNER (Z.to_nat i) else None.

(** [runSimpleBlinker] on a (state, lastTime) pair passed by reference. *)
Definition runSimpleBlinker (pin speed now : Z) (state : bool) (lastTime : Z)
  : bool * Z * list write :=
  if speed <=? usub32 now lastTime
  then (negb state, now, [(pin, negb state)])
  else (state, lastTime, []).

Definition set_scan (lst idx dir step : Z) (l : t) : t :=
  {| lastScanTime := lst; scannerIdx := idx; scannerDir := dir;
     scannerStep := step;
     lastBeaconTime := lastBeaconTime l; beaconStep := beaconStep l;
     s24 := s24 l; t24 := t24 l; s13 := s13 l; t13 := t13 l;
     sSingle := sSingle l; tSingle := tSingle l |}.

Definition set_single (s : bool) (ts : Z) (l : t) : t :=
  {| lastScanTime := lastScanTime l; scannerIdx := scannerIdx l;
     scannerDir := scannerDir l; scannerStep := scannerStep l;
     lastBeaconTime := lastBeaconTime l; beaconStep := beaconStep l;
     s24 := s24 l; t24 := t24 l; s13 := s13 l; t13 := t13 l;
     sSingle := s; tSingle := ts |}.

Definition set_beacon (lbt step : Z) (l : t) : t :=
  {| lastScanTime := lastScanTime l; scannerIdx := scannerIdx l;
     scannerDir := scannerDir l; scannerStep := scannerStep l;
     lastBeaconTime := lbt; beaconStep := step;
     s24 := s24 l; t24 := t24 l; s13 := s13 l; t13 := t13 l;
     sSingle := sSingle l; tSingle := tSingle l |}.

Definition set_13 (s : bool) (ts : Z) (l : t) : t :=
  {| lastScanTime := lastScanTime l; scannerIdx := scannerIdx l;
     scannerDir := scannerDir l; scannerStep := scannerStep l;
     lastBeaconTime := lastBeaconTime l; beaconStep := beaconStep l;
     s24 := s24 l; t24 := t24 l; s13 := s; t13 := ts;
     sSingle := sSingle l; tSingle := tSingle l |}.

Definition set_24 (s : bool) (ts : Z) (l : t) : t :=
  {| lastScanTime := lastScanTime l; scannerIdx := scannerIdx l;
     scannerDir := scannerDir l; scannerStep := scannerStep l;
     lastBeaconTime := lastBeaconTime l; beaconStep := beaconStep l;
     s24 := s; t24 := ts; s13 := s13 l; t13 := t13 l;
     sSingle := sSingle l; tSingle := tSingle l |}.

(** [runBeaconLogic] *)
Definition runBeaconLogic (now : Z) (isConnected : bool) (l : t)
  : t * list write :=
  if negb isConnected
  then (set_beacon (lastBeaconTime l) 1 l, [(PIN_SEQUENCE, true)])
  else if 100 <=? usub32 now (lastBeaconTime l)
  then let b := if beaconStep l =? 0 then 1 else 0 in
       (set_beacon now b l, [(PIN_SEQUENCE, negb (b =? 0))])
  else (l, []).

(** [runScannerLogic]; [None] stands for an access outside
    [PIN_SCANNER]. The accesses with the constant indices 0 and 1 are
    written as the pins 10 and 11 they name. *)
Definition runScannerLogic (now : Z) (leftActive rightActive : bool) (l : t)
  : option (t * list write) :=
  if negb leftActive && negb rightActive
  then Some (l, [(10, false); (11, false)])
  else if leftActive && rightActive
  then
    if usub32 now (lastScanTime l) <? SCAN_SPEED then Some (l, [])
    else
      let l := set_scan now (scannerIdx l) (scannerDir l) (scannerStep l) l in
      if (scannerStep l =? 0) || (scannerStep l =? 2)
      then match pin_scanner (scannerIdx l) with
           | None => None
           | Some p =>
               Some (set_scan now (scannerIdx l) (scannerDir l)
                       (wrap32 (scannerStep l + 1)) l, [(p, true)])
           end
      else if scannerStep l =? 1
      then match pin_scanner (scannerIdx l) with
           | None => None
           | Some p =>
               Some (set_scan now (scannerIdx l) (scannerDir l)
                       (wrap32 (scannerStep l + 1)) l, [(p, false)])
           end
      else if scannerStep l =? 3
      then match pin_scanner (scannerIdx l) with
           | None => None
           | Some p =>
               let next := wrap32 (scannerIdx l + scannerDir l) in
               let '(idx, dir) :=
                 if next >=? 2 then (0, -1)
                 else if next <? 0 then (1, 1)
                 else (next, scannerDir l) in
               match pin_scanner idx with
               | None => None
               | Some q =>
                   Some (set_scan now idx dir 0 l, [(p, false); (q, true)])
               end
           end
      else Some (set_scan now (scannerIdx l) (scannerDir l)
                   (wrap32 (scannerStep l + 1)) l, [])
  else if leftActive
  then let '(s, ts, w) :=
         runSimpleBlinker 10 SCAN_SPEED now (sSingle l) (tSingle l) in
       Some (set_single s ts l, (11, false) :: w)
  else let '(s, ts, w) :=
         runSimpleBlinker 11 SCAN_SPEED now (sSingle l) (tSingle l) in
       Some (set_single s ts l, (10, false) :: w).

(** [update]: heartbeat, fast blink, scanner, beacon, all from one
    clock reading. *)
Definition update (currentMillis : Z)
    (leftMotorActive rightMotorActive servoActive commsActive : bool) (l : t)
  : option (t * list write) :=
  let '(s, ts, w1) :=
    runSimpleBlinker PIN_HEARTBEAT HEARTBEAT_SPEED currentMillis (s13 l) (t13 l) in
  let l := set_13 s ts l in
  let '(l, w2) :=
    if commsActive
    then let '(s, ts, w) :=
           runSimpleBlinker PIN_FAST_BLINK PIN24_SPEED currentMillis (s24 l) (t24 l) in
         (set_24 s ts l, w)
    else (l, [(PIN_FAST_BLINK, false)]) in
  match runScannerLogic currentMillis leftMotorActive rightMotorActive l with
  | None => None
  | Some (l, w3) =>
      let '(l, w4) := runBeaconLogic currentMillis servoActive l in
      Some (l, w1 ++ w2 ++ w3 ++ w4)
  end.

(** One call of [update] as a client sees it. *)
Record call : Type := mk_call {
  c_now : Z;
  c_left : bool;
  c_right : bool;
  c_servo : bool;
  c_comms : bool
}.

(** A sequence of [update] calls; [None] once an access leaves
    [PIN_SCANNER]. *)
Fixpoint run (cs : list call) (l : t) : option t :=
  match cs with
  | [] => Some l
  | c :: r =>
      match update (c_now c) (c_left c) (c_right c) (c_servo c) (c_comms c) l with
      | None => None
      | Some (l', _) => run r l'
      end
  end.

End LedController.

(* ================================================================== *)
(** * SystemCodes.h *)
(* ================================================================== *)

Inductive SystemCode : Type :=
| SYS_BOOT_START
| SYS_BOOT_COMPLETE
| ACT_INIT_START
| ACT_MOTORS_READY
| ACT_SERVOS_READY
| SAFE_FAILSAFE_TRIGGER
| SAFE_FAILSAFE_CLEAR
| ERR_I2C_HANG
| ERR_WATCHDOG_RESET.

Definition SystemCode_value (c : SystemCode) : Z :=
  match c with
  | SYS_BOOT_START => 1000
  | SYS_BOOT_COMPLETE => 1001
  | ACT_INIT_START => 2000
  | ACT_MOTORS_READY => 2001
  | ACT_SERVOS_READY => 2002
  | SAFE_FAILSAFE_TRIGGER => 4005
  | SAFE_FAILSAFE_CLEAR => 4006
  | ERR_I2C_HANG => 5005
  | ERR_WATCHDOG_RESET => 5007
  end.

Definition SystemCode_eqb (a b : SystemCode) : bool :=
  SystemCode_value a =? SystemCode_value b.

(** Number of times [c] was handed to [transmitCode]. *)
Definition count_code (c : SystemCode) (l : list SystemCode) : nat :=
  List.length (filter (SystemCode_eqb c) l).

(* ================================================================== *)
(** * GlobalVariables.cpp *)
(* ================================================================== *)

Definition MAX_CMD_LEN : Z := 32.
Definition FAILSAFE_TIMEOUT : Z := 500.
Definition MOTOR_INTERVAL : Z := 10.
Definition SERVO_INTERVAL : Z := 20.

(** The globals of the sketch. [events] is the sequence of codes handed
    to [transmitCode], oldest first: the SD card behind it is an external
    sink. *)
Record Globals : Type := mkGlobals {
  serialCommunicationFlag : bool;
  isLeftMotorActive : bool;
  isRightMotorActive : bool;
  failsafeTriggered : bool;
  lastCommandTime : Z;
  lastMotorTime : Z;
  lastServoTime : Z;
  usbBuffer : list ascii;
  usbIndex : Z;
  radioBuffer : list ascii;
  radioIndex : Z;
  servoCommands : list ascii;
  ledSys : LedController.t;
  leftMotor : Motor.t;
  rightMotor : Motor.t;
  controller : ServoController.t;
  events : list SystemCode
}.

(** The static initialisers. The buffers are zero-initialised globals. *)
Definition initial_globals : Globals :=
  {| serialCommunicationFlag := false;
     isLeftMotorActive := false;
     isRightMotorActive := false;
     failsafeTriggered := false;
     lastCommandTime := 0;
     lastMotorTime := 0;
     lastServoTime := 0;
     usbBuffer := repeat NUL 32;
     usbIndex := 0;
     radioBuffer := repeat NUL 32;
     radioIndex := 0;
     servoCommands := repeat NUL 6;
     ledSys := LedController.init;
     leftMotor := Motor.ctor Motor.default_step;
     rightMotor := Motor.ctor Motor.default_step;
     controller := ServoController.ctor;
     events := [] |}.

Definition set_failsafe (trig : bool) (last : Z) (ev : list SystemCode)
    (g : Globals) : Globals :=
  {| serialCommunicationFlag := serialCommunicationFlag g;
     isLeftMotorActive := isLeftMotorActive g;
     isRightMotorActive := isRightMotorActive g;
     failsafeTriggered := trig;
     lastCommandTime := last;
     lastMotorTime := lastMotorTime g;
     lastServoTime := lastServoTime g;
     usbBuffer := usbBuffer g;
     usbIndex := usbIndex g;
     radioBuffer := radioBuffer g;
     radioIndex := radioIndex g;
     servoCommands := servoCommands g;
     ledSys := ledSys g;
     leftMotor := leftMotor g;
     rightMotor := rightMotor g;
     controller := controller g;
     events := ev |}.

Definition set_servoCommands (sc : list ascii) (g : Globals) : Globals :=
  {| serialCommunicationFlag := serialCommunicationFlag g;
     isLeftMotorActive := isLeftMotorActive g;
     isRightMotorActive := isRightMotorActive g;
     failsafeTriggered := failsafeTriggered g;
     lastCommandTime := lastCommandTime g;
     lastMotorTime := lastMotorTime g;
     lastServoTime := lastServoTime g;
     usbBuffer := usbBuffer g;
     usbIndex := usbIndex g;
     radioBuffer := radioBuffer g;
     radioIndex := radioIndex g;
     servoCommands := sc;
     ledSys := ledSys g;
     leftMotor := leftMotor g;
     rightMotor := rightMotor g;
     controller := controller g;
     events := events g |}.

Definition set_motors (l r : Motor.t) (la ra : bool) (g : Globals) : Globals :=
  {| serialCommunicationFlag := serialCommunicationFlag g;
     isLeftMotorActive := la;
     isRightMotorActive := ra;
     failsafeTriggered := failsafeTriggered g;
     lastCommandTime := lastCommandTime g;
     lastMotorTime := lastMotorTime g;
     lastServoTime := lastServoTime g;
     usbBuffer := usbBuffer g;
     usbIndex := usbIndex g;
     radioBuffer := radioBuffer g;
     radioIndex := radioIndex g;
     servoCommands := servoCommands g;
     ledSys := ledSys g;
     leftMotor := l;
     rightMotor := r;
     controller := controller g;
     events := events g |}.

Definition set_controller (c : ServoController.t) (g : Globals) : Globals :=
  {| serialCommunicationFlag := serialCommunicationFlag g;
     isLeftMotorActive := isLeftMotorActive g;
     isRightMotorActive := isRightMotorActive g;
     failsafeTriggered := failsafeTriggered g;
     lastCommandTime := lastCommandTime g;
     lastMotorTime := lastMotorTime g;
     lastServoTime := lastServoTime g;
     usbBuffer := usbBuffer g;
     usbIndex := usbIndex g;
     radioBuffer := radioBuffer g;
     radioIndex := radioIndex g;
     servoCommands := servoCommands g;
     ledSys := ledSys g;
     leftMotor := leftMotor g;
     rightMotor := rightMotor g;
     controller := c;
     events := events g |}.

Definition set_timers (lm ls : Z) (g : Globals) : Globals :=
  {| serialCommunicationFlag := serialCommunicationFlag g;
     isLeftMotorActive := isLeftMotorActive g;
     isRightMotorActive := isRightMotorActive g;
     failsafeTriggered := failsafeTriggered g;
     lastCommandTime := lastCommandTime g;
     lastMotorTime := lm;
     lastServoTime := ls;
     usbBuffer := usbBuffer g;
     usbIndex := usbIndex g;
     radioBuffer := radioBuffer g;
     radioIndex := radioIndex g;
     servoCommands := servoCommands g;
     ledSys := ledSys g;
     leftMotor := leftMotor g;
     rightMotor := rightMotor g;
     controller := controller g;
     events := events g |}.

Definition set_usb (b : list ascii) (i : Z) (g : Globals) : Globals :=
  {| serialCommunicationFlag := serialCommunicationFlag g;
     isLeftMotorActive := isLeftMotorActive g;
     isRightMotorActive := isRightMotorActive g;
     failsafeTriggered := failsafeTriggered g;
     lastCommandTime := lastCommandTime g;
     lastMotorTime := lastMotorTime g;
     lastServoTime := lastServoTime g;
     usbBuffer := b;
     usbIndex := i;
     radioBuffer := radioBuffer g;
     radioIndex := radioIndex g;
     servoCommands := servoCommands g;
     ledSys := ledSys g;
     leftMotor := leftMotor g;
     rightMotor := rightMotor g;
     controller := controller g;
     events := events g |}.

Definition set_radio (b : list ascii) (i : Z) (g : Globals) : Globals :=
  {| serialCommunicationFlag := serialCommunicationFlag g;
     isLeftMotorActive := isLeftMotorActive g;
     isRightMotorActive := isRightMotorActive g;
     failsafeTriggered := failsafeTriggered g;
     lastCommandTime := lastCommandTime g;
     lastMotorTime := lastMotorTime g;
     lastServoTime := lastServoTime g;
     usbBuffer := usbBuffer g;
     usbIndex := usbIndex g;
     radioBuffer := b;
     radioIndex := i;
     servoCommands := servoCommands g;
     ledSys := ledSys g;
     leftMotor := leftMotor g;
     rightMotor := rightMotor g;
     controller := controller g;
     events := events g |}.

Definition set_led_comms (l : LedController.t) (comms : bool) (g : Globals)
  : Globals :=
  {| serialCommunicationFlag := comms;
     isLeftMotorActive := isLeftMotorActive g;
     isRightMotorActive := isRightMotorActive g;
     failsafeTriggered := failsafeTriggered g;
     lastCommandTime := lastCommandTime g;
     lastMotorTime := lastMotorTime g;
     lastServoTime := lastServoTime g;
     usbBuffer := usbBuffer g;
     usbIndex := usbIndex g;
     radioBuffer := radioBuffer g;
     radioIndex := radioIndex g;
     servoCommands := servoCommands g;
     ledSys := l;
     leftMotor := leftMotor g;
     rightMotor := rightMotor g;
     controller := controller g;
     events := events g |}.

(** [transmitCode(code)]: one more event for the sink. *)
Definition transmitCode (c : SystemCode) (g : Globals) : Globals :=
  set_failsafe (failsafeTriggered g) (lastCommandTime g) (events g ++ [c]) g.

(* ================================================================== *)
(** * The C library calls of [processCommand] *)
(* ================================================================== *)

(** The C string held in a buffer: the bytes before the first NUL. *)
Fixpoint cstr (l : list ascii) : list ascii :=
  match l with
  | [] => []
  | c :: r => if Ascii.eqb c NUL then [] else c :: cstr r
  end.

Definition is_space (c : ascii) : bool :=
  (code c =? 32) || ((9 <=? code c) && (code c <=? 13)).

Definition is_digit (c : ascii) : bool :=
  (48 <=? code c) && (code c <=? 57).

Fixpoint skip_spaces (s : list ascii) : list ascii :=
  match s with
  | c :: r => if is_space c then skip_spaces r else s
  | [] => []
  end.

Fixpoint digits_value (acc : Z) (s : list ascii) : Z :=
  match s with
  | c :: r => if is_digit c then digits_value (10 * acc + (code c - 48)) r else acc
  | [] => acc
  end.

(** [atoi]: leading white space, an optional sign, then decimal digits up
    to the first other character; no digits give 0. The C standard leaves
    a value outside [int] undefined; the newlib implementation of the
    target returns [(int) strtol(s, NULL, 10)], which saturates. *)
Definition atoi (s : list ascii) : Z :=
  match skip_spaces s with
  | c :: r =>
      if Ascii.eqb c "-" then Z.max INT_MIN (- digits_value 0 r)
      else if Ascii.eqb c "+" then Z.min INT_MAX (digits_value 0 r)
      else Z.min INT_MAX (digits_value 0 (c :: r))
  | [] => 0
  end.

Fixpoint skip_delim (s : list ascii) : list ascii :=
  match s with
  | c :: r => if Ascii.eqb c "," then skip_delim r else s
  | [] => []
  end.

(** The token at the head of [s] and what follows its delimiter. *)
Fixpoint token_end (s : list ascii) : list ascii * list ascii :=
  match s with
  | [] => ([], [])
  | c :: r =>
      if Ascii.eqb c "," then ([], r)
      else let '(tok, rest) := token_end r in (c :: tok, rest)
  end.

(** [strtok(s, ",")] read as a function of the C string [s]: leading
    delimiters are skipped; [None] is the NULL result; otherwise the
    token and the C string at the saved position, at which
    [strtok(NULL, ",")] resumes. What the call writes into the buffer is
    [strtok_buf] below. *)
Definition strtok (s : list ascii) : option (list ascii * list ascii) :=
  match skip_delim s with
  | [] => None
  | c :: r => Some (token_end (c :: r))
  end.

(** Number of leading delimiters of [s]. *)
Fixpoint delim_run (s : list ascii) : nat :=
  match s with
  | c :: r => if Ascii.eqb c "," then S (delim_run r) else O
  | [] => O
  end.

(** Number of leading bytes of [s] that are neither the delimiter nor
    NUL. *)
Fixpoint token_run (s : list ascii) : nat :=
  match s with
  | c :: r => if Ascii.eqb c "," || Ascii.eqb c NUL then O else S (token_run r)
  | [] => O
  end.

(** [strtok] on the buffer it scans. From position [p] (the argument of
    the first call, the saved position of a later one) delimiters are
    skipped; at a NUL the result is NULL ([None]); otherwise the token
    runs up to the next delimiter or NUL, a delimiter is overwritten
    with NUL and the saved position moves past it. The result is the
    start of the token, the buffer as the call leaves it and the saved
    position. *)
Definition strtok_buf (buf : list ascii) (p : nat)
  : option (nat * list ascii * nat) :=
  let start := (p + delim_run (skipn p buf))%nat in
  if Ascii.eqb (nth start buf NUL) NUL then None
  else
    let stop := (start + token_run (skipn start buf))%nat in
    if Ascii.eqb (nth stop buf NUL) ","
    then Some (start, upd stop NUL buf, S stop)
    else Some (start, buf, stop).

(* ================================================================== *)
(** * CmdCtrl_Main.ino *)
(* ================================================================== *)

(** [cmd[i]] for a buffer of [MAX_CMD_LEN] bytes. *)
Definition rd (cmd : list ascii) (i : nat) : ascii := nth i cmd NUL.

(** The head of [processCommand]: "Reset Failsafe Timer". *)
Definition resetFailsafe (now : Z) (g : Globals) : Globals :=
  let g := set_failsafe (failsafeTriggered g) now (events g) g in
  if failsafeTriggered g
  then transmitCode SAFE_FAILSAFE_CLEAR
         (set_failsafe false (lastCommandTime g) (events g) g)
  else g.

(** [processCommand(cmd)]; [now] is the value [millis()] returns. *)
Definition processCommand (now : Z) (cmd : list ascii) (g : Globals) : Globals :=
  let g := resetFailsafe now g in
  if Ascii.eqb (rd cmd 0) "S"
  then
    let idx := code (rd cmd 1) - code "1" in
    let dir := rd cmd 2 in
    if (idx >=? 0) && (idx <? ServoController.numServos)
    then set_servoCommands
           (upd (Z.to_nat idx)
                (if Ascii.eqb dir "L" || Ascii.eqb dir "R" then dir else NUL)
                (servoCommands g)) g
    else g
  else
    match strtok (cstr cmd) with
    | Some (token, rest) =>
        let leftVal := atoi token in
        match strtok rest with
        | Some (token', _) =>
            let rightVal := atoi token' in
            set_motors (Motor.setTarget leftVal (leftMotor g))
                       (Motor.setTarget rightVal (rightMotor g))
                       (negb (leftVal =? 0)) (negb (rightVal =? 0)) g
        | None => g
        end
    | None => g
    end.

(** The line buffer as [processCommand(cmd)] leaves it: the joint form
    writes nothing; otherwise each of the two [strtok] calls that finds
    a token ended by a delimiter overwrites that delimiter with NUL. *)
Definition processCommand_buffer (cmd : list ascii) : list ascii :=
  if Ascii.eqb (rd cmd 0) "S" then cmd
  else
    match strtok_buf cmd 0 with
    | Some (_, cmd1, saved) =>
        match strtok_buf cmd1 saved with
        | Some (_, cmd2, _) => cmd2
        | None => cmd1
        end
    | None => cmd
    end.

Definition is_terminator (c : ascii) : bool :=
  Ascii.eqb c LF || Ascii.eqb c CR.

(** [buffer[i] = c] on the [MAX_CMD_LEN]-byte array: [None] when the
    write falls outside it. *)
Definition store (buffer : list ascii) (i : Z) (c : ascii) : option (list ascii) :=
  if (0 <=? i) && (i <? Z.of_nat (List.length buffer))
  then Some (upd (Z.to_nat i) c buffer)
  else None.

(** A byte of a [Stream], with the value [millis()] has while it is
    handled. *)
Definition byte_in : Type := (ascii * Z)%type.

(** One iteration of the [while] loop of [checkInput]. *)
Definition checkInput_byte (st : Globals * list ascii * Z) (b : byte_in)
  : option (Globals * list ascii * Z) :=
  let '(g, buffer, index) := st in
  let '(c, now) := b in
  if is_terminator c
  then
    if index >? 0
    then match store buffer index NUL with
         | None => None
         | Some buffer' =>
             Some (processCommand now buffer' g, processCommand_buffer buffer', 0)
         end
    else Some (g, buffer, index)
  else
    if index <? MAX_CMD_LEN - 1
    then match store buffer index c with
         | None => None
         | Some buffer' => Some (g, buffer', index + 1)
         end
    else Some (g, buffer, index).

(** [checkInput(stream, buffer, index)]: the loop runs until the stream
    has no byte left. *)
Fixpoint checkInput (stream : list byte_in) (st : Globals * list ascii * Z)
  : option (Globals * list ascii * Z) :=
  match stream with
  | [] => Some st
  | b :: r =>
      match checkInput_byte st b with
      | None => None
      | Some st' => checkInput r st'
      end
  end.

(** The failsafe block of [loop]. *)
Definition failsafeCheck (now : Z) (g : Globals) : Globals :=
  if negb (failsafeTriggered g)
     && (usub32 now (lastCommandTime g) >? FAILSAFE_TIMEOUT)
  then
    let g := set_failsafe true (lastCommandTime g) (events g) g in
    let g := set_motors (Motor.emergencyStop (leftMotor g))
                        (Motor.emergencyStop (rightMotor g))
                        (isLeftMotorActive g) (isRightMotorActive g) g in
    let g := set_controller (ServoController.emergencyStop (controller g)) g in
    let g := set_motors (leftMotor g) (rightMotor g) false false g in
    let g := set_servoCommands
               (fold_left (fun sc i => upd i NUL sc) (seq 0 6) (servoCommands g)) g in
    transmitCode SAFE_FAILSAFE_TRIGGER g
  else g.

(** The two [checkInput] calls of [loop]: USB first, then the radio. *)
Definition readInputs (usb radio : list byte_in) (g : Globals) : option Globals :=
  match checkInput usb (g, usbBuffer g, usbIndex g) with
  | None => None
  | Some (g, b, i) =>
      let g := set_usb b i g in
      match checkInput radio (g, radioBuffer g, radioIndex g) with
      | None => None
      | Some (g, b, i) => Some (set_radio b i g)
      end
  end.

Definition updateMotors (now : Z) (g : Globals) : Globals :=
  if usub32 now (lastMotorTime g) >=? MOTOR_INTERVAL
  then let g := set_timers now (lastServoTime g) g in
       set_motors (Motor.update (leftMotor g)) (Motor.update (rightMotor g))
                  (isLeftMotorActive g) (isRightMotorActive g) g
  else g.

Definition updateServos (now : Z) (g : Globals) : Globals :=
  if usub32 now (lastServoTime g) >=? SERVO_INTERVAL
  then let g := set_timers (lastMotorTime g) now g in
       set_controller (ServoController.update (servoCommands g) (controller g)) g
  else g.

(** What one pass of [loop] takes from its environment: the clock read
    at the top, the bytes available on the two streams, and the clock the
    LED update reads. *)
Record cycle : Type := mkCycle {
  cy_now : Z;
  cy_usb : list byte_in;
  cy_radio : list byte_in;
  cy_led : Z
}.

(** [loop()] *)
Definition loop (c : cycle) (g : Globals) : option Globals :=
  match readInputs (cy_usb c) (cy_radio c) g with
  | None => None
  | Some g =>
      let g := failsafeCheck (cy_now c) g in
      let g := updateMotors (cy_now c) g in
      let g := updateServos (cy_now c) g in
      match LedController.update (cy_led c)
              (isLeftMotorActive g) (isRightMotorActive g)
              (ServoController.isActive (controller g))
              (serialCommunicationFlag g) (ledSys g) with
      | None => None
      | Some (l, _) => Some (set_led_comms l (serialCommunicationFlag g) g)
      end
  end.

(** [setup()]: [srsr] is the reset-status register, [now] the clock at
    its last line. *)
Definition setup (srsr now : Z) : Globals :=
  let g := set_led_comms (ledSys initial_globals) true initial_globals in
  let g := if negb (Z.land srsr 32 =? 0)
           then transmitCode ERR_WATCHDOG_RESET g
           else transmitCode SYS_BOOT_START g in
  let g := transmitCode ACT_INIT_START g in
  let g := set_motors (Motor.begin (leftMotor g)) (Motor.begin (rightMotor g))
                      (isLeftMotorActive g) (isRightMotorActive g) g in
  let g := transmitCode ACT_MOTORS_READY g in
  let g := transmitCode ACT_SERVOS_READY g in
  let g := transmitCode SYS_BOOT_COMPLETE g in
  set_failsafe (failsafeTriggered g) now (events g) g.

(** Successive passes of [loop]. *)
Fixpoint run_loop (cs : list cycle) (g : Globals) : option Globals :=
  match cs with
  | [] => Some g
  | c :: r =>
      match loop c g with
      | None => None
      | Some g' => run_loop r g'
      end
  end.

(* ================================================================== *)
(** * Notions used in the statements *)
(* ================================================================== *)

(** The lines [checkInput] hands to [processCommand] while it drains
    [stream], each with the clock of its dispatch: the framing of
    [checkInput] with the interpreter's effect on the globals taken out;
    the bytes [strtok] overwrites stay in. *)
Fixpoint frames (stream : list byte_in) (buffer : list ascii) (index : Z)
  : list (Z * list ascii) :=
  match stream with
  | [] => []
  | (c, now) :: r =>
      if is_terminator c
      then if index >? 0
           then (now, upd (Z.to_nat index) NUL buffer)
                  :: frames r (processCommand_buffer (upd (Z.to_nat index) NUL buffer)) 0
           else frames r buffer index
      else if index <? MAX_CMD_LEN - 1
           then frames r (upd (Z.to_nat index) c buffer) (index + 1)
           else frames r buffer index
  end.

(** The line buffer and fill index [checkInput] leaves behind. *)
Fixpoint channel_after (stream : list byte_in) (buffer : list ascii) (index : Z)
  : list ascii * Z :=
  match stream with
  | [] => (buffer, index)
  | (c, now) :: r =>
      if is_terminator c
      then if index >? 0
           then channel_after r (processCommand_buffer (upd (Z.to_nat index) NUL buffer)) 0
           else channel_after r buffer index
      else if index <? MAX_CMD_LEN - 1
           then channel_after r (upd (Z.to_nat index) c buffer) (index + 1)
           else channel_after r buffer index
  end.

(** The interpreter run over a batch of framed lines. *)
Definition processAll (batch : list (Z * list ascii)) (g : Globals) : Globals :=
  fold_left (fun g f => processCommand (fst f) (snd f) g) batch g.

(** The batch one pass of [loop] drains from both streams. *)
Definition batch_of (usb radio : list byte_in) (g : Globals)
  : list (Z * list ascii) :=
  frames usb (usbBuffer g) (usbIndex g)
  ++ frames radio (radioBuffer g) (radioIndex g).

(** A line buffer as [checkInput] keeps it. *)
Definition channel_ok (buffer : list ascii) (index : Z) : Prop :=
  List.length buffer = 32%nat /\ 0 <= index <= MAX_CMD_LEN - 1.

(** The bytes of a batch of text lines, each closed by a line feed, all
    handled at clock [now]. *)
Definition stream_of_lines (now : Z) (lines : list string) : list byte_in :=
  flat_map (fun l => map (fun c => (c, now)) (list_ascii_of_string l ++ [LF])) lines.

(** Everything that drives an actuator or an indicator of one. *)
Definition actuators (g : Globals) :=
  (leftMotor g, rightMotor g, controller g, servoCommands g,
   isLeftMotorActive g, isRightMotorActive g).

(** Number of non-empty comma-separated fields of a C string. *)
Fixpoint count_fields_from (inside : bool) (s : list ascii) : nat :=
  match s with
  | [] => O
  | c :: r =>
      if Ascii.eqb c ","
      then count_fields_from false r
      else ((if inside then 0 else 1) + count_fields_from true r)%nat
  end.

Definition count_fields (s : list ascii) : nat := count_fields_from false s.

(** A dispatched line that carries no update: the joint marker with an
    index byte outside ['1'..'6'], or another line with fewer than two
    non-empty comma-separated fields. *)
Definition inert (cmd : list ascii) : bool :=
  if Ascii.eqb (rd cmd 0) "S"
  then negb ((49 <=? code (rd cmd 1)) && (code (rd cmd 1) <=? 54))
  else (count_fields (cstr cmd) <? 2)%nat.

(** ** The command grammar in the specification's words *)

(** An integer: an optional sign and at least one digit, nothing else. *)
Definition spec_is_int (s : list ascii) : bool :=
  let body := match s with
              | c :: r => if Ascii.eqb c "-" || Ascii.eqb c "+" then r else s
              | [] => []
              end in
  negb (Nat.eqb (List.length body) 0) && forallb is_digit body.

(** Motor form: two integers separated by a single comma. *)
Definition spec_motor_form (s : list ascii) : bool :=
  let '(a, b) := token_end s in
  existsb (Ascii.eqb ",") s && spec_is_int a && spec_is_int b.

(** Joint form: the marker, a joint digit 1..6 and a direction character. *)
Definition spec_joint_form (s : list ascii) : bool :=
  match s with
  | m :: d :: _ :: [] =>
      Ascii.eqb m "S" && (49 <=? code d) && (code d <=? 54)
  | _ => false
  end.

Definition spec_valid (l : string) : bool :=
  spec_motor_form (list_ascii_of_string l)
  || spec_joint_form (list_ascii_of_string l).

(** ** Well-formed states *)

Definition led_ok (l : LedController.t) : Prop :=
  (LedController.scannerIdx l = 0 \/ LedController.scannerIdx l = 1)
  /\ (LedController.scannerDir l = -1 \/ LedController.scannerDir l = 1).

(** The array sizes and index ranges the sketch maintains. *)
Definition wf (g : Globals) : Prop :=
  channel_ok (usbBuffer g) (usbIndex g)
  /\ channel_ok (radioBuffer g) (radioIndex g)
  /\ List.length (servoCommands g) = 6%nat
  /\ List.length (ServoController.speeds (controller g)) = 6%nat
  /\ led_ok (ledSys g).

(** All actuators at rest: both motors at target 0 and current 0, the six
    joint speeds 0 and the six joint commands Hold. *)
Definition stopped (g : Globals) : Prop :=
  Motor.targetPWM (leftMotor g) = 0 /\ Motor.currentPWM (leftMotor g) = 0
  /\ Motor.targetPWM (rightMotor g) = 0 /\ Motor.currentPWM (rightMotor g) = 0
  /\ ServoController.speeds (controller g) = repeat (S754_zero false) 6
  /\ servoCommands g = repeat NUL 6.

(** A run of passes of [loop] none of which dispatches a line. *)
Fixpoint quiet_run (cs : list cycle) (g : Globals) : bool :=
  match cs with
  | [] => true
  | c :: r =>
      match batch_of (cy_usb c) (cy_radio c) g, loop c g with
      | [], Some g' => quiet_run r g'
      | _, _ => false
      end
  end.

(** The stored activity flags agree with the motor targets. *)
Definition flags_agree (g : Globals) : Prop :=
  isLeftMotorActive g = negb (Motor.targetPWM (leftMotor g) =? 0)
  /\ isRightMotorActive g = negb (Motor.targetPWM (rightMotor g) =? 0).

(** A motor whose fields are in the range [setTarget] and the ramp keep
    them in. *)
Definition motor_ok (step : Z) (m : Motor.t) : Prop :=
  Motor.pwmStep m = step
  /\ -255 <= Motor.targetPWM m <= 255
  /\ -255 <= Motor.currentPWM m <= 255.

(** An angle the comparisons of the target place in [0, 180]. *)
Definition angle_in_range (a : F32.t) : Prop :=
  F32.leb (F32.of_Z 0) a = true /\ F32.leb a (F32.of_Z 180) = true.

Definition servo_ok (sc : ServoController.t) : Prop :=
  List.length (ServoController.angles sc) = 6%nat
  /\ Forall angle_in_range (ServoController.angles sc)
  /\ Forall (fun s => F32.is_nan s = false) (ServoController.speeds sc).

(** The controller after one [update] per entry of [hist], each entry
    being the command array of that tick. *)
Fixpoint run_servo (hist : list (list ascii)) (sc : ServoController.t)
  : ServoController.t :=
  match hist with
  | [] => sc
  | commands :: r => run_servo r (ServoController.update commands sc)
  end.

(** The fields [update] only reads, at their configured values. *)
Definition servo_configured (sc : ServoController.t) : Prop :=
  ServoController.sensitivity sc = ServoController.sensitivity ServoController.ctor
  /\ ServoController.maxSpeed sc = ServoController.maxSpeed ServoController.ctor
  /\ ServoController.accel sc = ServoController.accel ServoController.ctor
  /\ ServoController.decel sc = ServoController.decel ServoController.ctor
  /\ List.length (ServoController.speeds sc) = 6%nat.

(** Distance left between a motor's current value and its target. *)
Definition dist (m : Motor.t) : Z := Z.abs (Motor.targetPWM m - Motor.currentPWM m).

(** A motor whose next ramp step cannot leave [int]: a positive step, and
    a target at least one step away from both ends of the range. *)
Definition in_range (m : Motor.t) : Prop :=
  0 < Motor.pwmStep m
  /\ INT_MIN + Motor.pwmStep m <= Motor.targetPWM m <= INT_MAX - Motor.pwmStep m
  /\ INT_MIN <= Motor.currentPWM m <= INT_MAX.

(** ** The servo speed ramp at the configured constants *)

Module SpeedOrbit.
Import ServoController.

(** The target speed a command character selects (every joint has
    sensitivity 1). *)
Definition target (cmd : ascii) : F32.t := targetSpeed ctor 0 cmd.

(** One tick of a joint's speed under [cmd]. *)
Definition tick (cmd : ascii) (s : F32.t) : F32.t :=
  ramp s (target cmd) (accel ctor) (decel ctor).

Definition cmds : list ascii := ["L"%char; "R"%char; NUL].

Definition mem (x : F32.t) (l : list F32.t) : bool := existsb (F32.eqb x) l.

Definition add_new (acc : list F32.t * list F32.t) (x : F32.t)
  : list F32.t * list F32.t :=
  if mem x (fst acc) then acc else (x :: fst acc, x :: snd acc).

(** Breadth-first closure of [seen] under [tick]. *)
Fixpoint close (fuel : nat) (seen frontier : list F32.t) : list F32.t :=
  match fuel with
  | O => seen
  | S k =>
      let cands := flat_map (fun s => map (fun c => tick c s) cmds) frontier in
      let '(seen', fresh) := fold_left add_new cands (seen, []) in
      match fresh with
      | [] => seen'
      | _ => close k seen' fresh
      end
  end.

(** The speeds a joint can take, starting from rest. *)
Definition orbit : list F32.t :=
  Eval vm_compute in close 400 [F32.of_Z 0] [F32.of_Z 0].

(** The speed of a joint after a history of command characters. *)
Definition after (hist : list ascii) : F32.t :=
  fold_left (fun s c => tick c s) hist (F32.of_Z 0).

End SpeedOrbit.

(* ================================================================== *)
(** * Outputs and further notions *)
(* ================================================================== *)

(** The duty cycles [Motor::update] hands to [analogWrite] for the RPWM
    and the LPWM line, once the ramp has moved [currentPWM]. *)
Definition update_pwm (m : Motor.t) : Z * Z :=
  let c := Motor.currentPWM (Motor.update m) in
  if c >=? 0 then (c, 0) else (0, wrap32 (- c)).

(** The three calls the sketch makes on a motor after [begin]. *)
Inductive motor_call : Type :=
| CallSetTarget (pwm : Z)
| CallUpdate
| CallEmergencyStop.

Definition do_call (m : Motor.t) (c : motor_call) : Motor.t :=
  match c with
  | CallSetTarget pwm => Motor.setTarget pwm m
  | CallUpdate => Motor.update m
  | CallEmergencyStop => Motor.emergencyStop m
  end.

Definition do_calls (cs : list motor_call) (m : Motor.t) : Motor.t :=
  fold_left do_call cs m.

(** Both motors of the sketch within their operating range. *)
Definition motors_ok (g : Globals) : Prop :=
  motor_ok Motor.default_step (leftMotor g)
  /\ motor_ok Motor.default_step (rightMotor g).

(** The globals as the two [checkInput] calls of [loop] leave them when
    they dispatch [batch] and end with the line buffers [(bu, iu)] and
    [(br, ir)]. *)
Definition after_inputs (batch : list (Z * list ascii))
    (bu : list ascii) (iu : Z) (br : list ascii) (ir : Z) (g : Globals) : Globals :=
  set_radio br ir (set_usb bu iu (processAll batch g)).

(** [(int) x] for a [float]: the value with its fraction dropped; [None]
    where C leaves the conversion undefined (NaN, infinities, values
    outside [int]). *)
Definition F32_to_int (x : F32.t) : option Z :=
  match x with
  | S754_zero _ => Some 0
  | S754_finite s m e =>
      let v := cond_Zopp s (Z.shiftl (Z.pos m) e) in
      if (INT_MIN <=? v) && (v <=? INT_MAX) then Some v else None
  | _ => None
  end.

(** A float whose mantissa fits the 24 bits of binary32. *)
Definition mant_ok (x : F32.t) : Prop :=
  match x with
  | S754_finite _ m _ => Z.pos (digits2_pos m) <= F32.prec
  | _ => True
  end.

(** A controller all of whose floats fit binary32, with angles and speeds
    as [servo_ok] has them. *)
Definition servo_valid (sc : ServoController.t) : Prop :=
  servo_ok sc
  /\ Forall mant_ok (ServoController.angles sc)
  /\ Forall mant_ok (ServoController.speeds sc)
  /\ Forall mant_ok (ServoController.sensitivity sc)
  /\ mant_ok (ServoController.maxSpeed sc)
  /\ mant_ok (ServoController.accel sc)
  /\ mant_ok (ServoController.decel sc).

(** The speed of joint [j]. *)
Definition speed_of (j : nat) (sc : ServoController.t) : F32.t :=
  nth j (ServoController.speeds sc) F32.zero.

(** What the speed ramp guarantees for one tick from speed [s] under
    command [c]: within [-2, 2] before and after, strictly closer to the
    target when not on it, never past it, and unchanged when on it. *)
Definition tick_sound (c : ascii) (s : F32.t) : bool :=
  let T := SpeedOrbit.target c in
  let s' := SpeedOrbit.tick c s in
  F32.leb (F32.of_Z (-2)) s && F32.leb s (F32.of_Z 2)
  && F32.leb (F32.of_Z (-2)) s' && F32.leb s' (F32.of_Z 2)
  && (if F32.ltb s T then F32.ltb s s' && F32.leb s' T
      else if F32.gtb s T then F32.ltb s' s && F32.leb T s'
      else F32.eqb s' s).

(** The scanner and beacon phases as the code keeps them: index and
    direction as in [led_ok], the scanner step in 0..3, the beacon step 0
    or 1. *)
Definition led_valid (l : LedController.t) : Prop :=
  led_ok l
  /\ 0 <= LedController.scannerStep l <= 3
  /\ (LedController.beaconStep l = 0 \/ LedController.beaconStep l = 1).

(** Successive [runScannerLogic] calls with both motors active, at the
    clock readings [ns], with the writes they make in order. *)
Fixpoint scanner_run (ns : list Z) (l : LedController.t)
  : option (LedController.t * list LedController.write) :=
  match ns with
  | [] => Some (l, [])
  | n :: r =>
      match LedController.runScannerLogic n true true l with
      | None => None
      | Some (l1, w1) =>
          match scanner_run r l1 with
          | None => None
          | Some (l2, w2) => Some (l2, w1 ++ w2)
          end
      end
  end.

(** All writes of [w] go to pins of [ps]. *)
Definition pins_in (ps : list Z) (w : list LedController.write) : Prop :=
  Forall (fun x => In (fst x) ps) w.

(** The failsafe entries of the log read by a two-state machine: a
    trigger is accepted only while the failsafe is clear, a clear only
    while it is set, nothing else is accepted; the result is the state
    after the last entry. *)
Fixpoint failsafe_log (tripped : bool) (l : list SystemCode) : option bool :=
  match l with
  | [] => Some tripped
  | SAFE_FAILSAFE_TRIGGER :: r => if tripped then None else failsafe_log true r
  | SAFE_FAILSAFE_CLEAR :: r => if tripped then failsafe_log false r else None
  | _ :: _ => None
  end.

(** The codes [setup] logs, in order. *)
Definition boot_log (srsr : Z) : list SystemCode :=
  [if negb (Z.land srsr 32 =? 0) then ERR_WATCHDOG_RESET else SYS_BOOT_START;
   ACT_INIT_START; ACT_MOTORS_READY; ACT_SERVOS_READY; SYS_BOOT_COMPLETE].

(** While the failsafe flag is set, everything is at rest. *)
Definition failsafe_safe (g : Globals) : Prop :=
  failsafeTriggered g = true -> stopped g.

(** The [digitalWrite] calls of the LED update that closes a pass of
    [loop]. *)
Definition loop_led_writes (c : cycle) (g : Globals)
  : option (list LedController.write) :=
  match readInputs (cy_usb c) (cy_radio c) g with
  | None => None
  | Some g =>
      let g := failsafeCheck (cy_now c) g in
      let g := updateMotors (cy_now c) g in
      let g := updateServos (cy_now c) g in
      match LedController.update (cy_led c)
              (isLeftMotorActive g) (isRightMotorActive g)
              (ServoController.isActive (controller g))
              (serialCommunicationFlag g) (ledSys g) with
      | None => None
      | Some (_, w) => Some w
      end
  end.

(** The bytes of [text] as they arrive on a stream, all handled at clock
    [now]. *)
Definition bytes_at (now : Z) (text : list ascii) : list byte_in :=
  map (fun c => (c, now)) text.

(** A byte that can be part of a line: neither a terminator nor NUL. *)
Definition line_byte (c : ascii) : bool :=
  negb (is_terminator c) && negb (Ascii.eqb c NUL).

(** The character of a decimal digit. *)
Definition digit_char (d : Z) : ascii := ascii_of_N (Z.to_N (48 + d)).

(** The decimal digits of a non-negative number, most significant
    first; [fuel] bounds their number. *)
Fixpoint dec_digits (fuel : nat) (n : Z) : list ascii :=
  match fuel with
  | O => []
  | S f =>
      if n <? 10 then [digit_char n]
      else dec_digits f (n / 10) ++ [digit_char (n mod 10)]
  end.

(** The decimal text of an [int]: a minus sign for a negative number,
    then its digits. *)
Definition dec (n : Z) : list ascii :=
  if n <? 0 then "-"%char :: dec_digits 10 (- n) else dec_digits 10 n.

(** The text of a motor line for the targets [l] and [r]. *)
Definition motor_line (l r : Z) : list ascii := dec l ++ ","%char :: dec r.

(** [%06d] of [printf] for an [int]: the sign, then the digits padded
    with zeros to six characters in all. *)
Definition fmt_06d (v : Z) : list ascii :=
  if v <? 0
  then "-"%char
       :: repeat "0"%char (5 - List.length (dec_digits 10 (- v)))
       ++ dec_digits 10 (- v)
  else repeat "0"%char (6 - List.length (dec_digits 10 v)) ++ dec_digits 10 v.

(** What [snprintf(codeBuffer, sizeof(codeBuffer), "%lu,%06d", millis(),
    code)] leaves in the 16-byte [codeBuffer] of [transmitCode] before
    the NUL: the first 15 characters of the formatted text. [now] is the
    32-bit value of [millis()]. *)
Definition codeBuffer (now : Z) (c : SystemCode) : list ascii :=
  firstn 15 (dec_digits 10 now ++ ","%char :: fmt_06d (SystemCode_value c)).

(** Two floats of the same value: equal, or both a zero (of either
    sign). *)
Definition same_value (a b : F32.t) : Prop :=
  a = b \/ (exists s s', a = S754_zero s /\ b = S754_zero s').

(** Clock readings of successive passes that never run backwards and
    stay below 2^32, starting no earlier than [t]. *)
Fixpoint clocks_ok (t : Z) (cs : list cycle) : Prop :=
  match cs with
  | [] => True
  | c :: r => t <= cy_now c < 4294967296 /\ clocks_ok (cy_now c) r
  end.



(* ================================================================== *)
(** * Sanity checks of the embedding *)
(* ================================================================== *)

Example f0_05_is_a_twentieth :
  SFdiv F32.prec F32.emax (F32.of_Z 5) (F32.of_Z 100) = ServoController.f0_05.
Proof. vm_compute. reflexivity. Qed.

Example d0_01_is_a_hundredth :
  SFdiv 53 1024 (binary_normalize 53 1024 1 0 false)
                (binary_normalize 53 1024 100 0 false) = F32.d0_01.
Proof. vm_compute. reflexivity. Qed.

Example atoi_examples :
  atoi (list_ascii_of_string "100") = 100
  /\ atoi (list_ascii_of_string " -42x") = -42
  /\ atoi (list_ascii_of_string "Q") = 0
  /\ atoi (list_ascii_of_string "99999999999") = INT_MAX.
Proof. vm_compute. repeat split; reflexivity. Qed.

Example strtok_examples :
  strtok (list_ascii_of_string "50,-50")
    = Some (list_ascii_of_string "50", list_ascii_of_string "-50")
  /\ strtok (list_ascii_of_string ",,7") = Some (list_ascii_of_string "7", [])
  /\ strtok (list_ascii_of_string ",") = None.
Proof. vm_compute. repeat split; reflexivity. Qed.

Example orbit_size : List.length SpeedOrbit.orbit = 365%nat.
Proof. vm_compute. reflexivity. Qed.

(* ================================================================== *)
(** * Integer helpers *)
(* ================================================================== *)

Lemma wrap32_id (z : Z) : INT_MIN <= z <= INT_MAX -> wrap32 z = z.
Proof.
  unfold wrap32, INT_MIN, INT_MAX. intros H.
  rewrite Z.mod_small; lia.
Qed.

Lemma iconstrain_range (v lo hi : Z) :
  lo <= hi -> lo <= iconstrain v lo hi <= hi.
Proof.
  intros H. unfold iconstrain.
  destruct (Z.ltb_spec v lo); [lia|].
  destruct (Z.gtb_spec v hi); lia.
Qed.

Lemma iconstrain_zero (v : Z) :
  (iconstrain v (-255) 255 =? 0) = (v =? 0).
Proof.
  unfold iconstrain.
  destruct (Z.ltb_spec v (-255)).
  - symmetry. apply Z.eqb_neq. lia.
  - destruct (Z.gtb_spec v 255); [|reflexivity].
    symmetry. apply Z.eqb_neq. lia.
Qed.

Lemma upd_length {A : Type} (i : nat) (v : A) (l : list A) :
  List.length (upd i v l) = List.length l.
Proof.
  revert i. induction l as [|x r IH]; intros [|j]; simpl; auto.
Qed.

Lemma upd_repeat {A : Type} (i : nat) (v : A) (n : nat) :
  upd i v (repeat v n) = repeat v n.
Proof.
  revert i. induction n as [|n IH]; intros [|j]; simpl; auto.
  now rewrite IH.
Qed.

Lemma nth_upd_same {A : Type} (i : nat) (v d : A) (l : list A) :
  (i < List.length l)%nat -> nth i (upd i v l) d = v.
Proof.
  revert i. induction l as [|x r IH]; intros [|j] H; simpl in *; try lia; auto.
  apply IH. lia.
Qed.

Lemma nth_upd_other {A : Type} (i j : nat) (v d : A) (l : list A) :
  i <> j -> nth j (upd i v l) d = nth j l d.
Proof.
  revert i j. induction l as [|x r IH]; intros [|i] [|j] H; simpl; auto.
  congruence.
Qed.

Lemma Forall_upd {A : Type} (P : A -> Prop) (i : nat) (v : A) (l : list A) :
  P v -> Forall P l -> Forall P (upd i v l).
Proof.
  intros Hv. revert i. induction l as [|x r IH]; intros [|j] H; simpl; auto;
    inversion H; subst; constructor; auto.
Qed.

Lemma iter_S {A : Type} (n : nat) (f : A -> A) (x : A) :
  iter (S n) f x = iter n f (f x).
Proof. reflexivity. Qed.

Lemma iter_succ_r {A : Type} (n : nat) (f : A -> A) (x : A) :
  iter (S n) f x = f (iter n f x).
Proof.
  revert x. induction n as [|n IH]; intros x; [reflexivity|].
  change (iter (S (S n)) f x) with (iter (S n) f (f x)).
  rewrite IH. reflexivity.
Qed.

Lemma iter_add {A : Type} (n k : nat) (f : A -> A) (x : A) :
  iter (n + k) f x = iter k f (iter n f x).
Proof.
  revert x. induction n as [|n IH]; intros x; simpl; auto.
Qed.

(* ================================================================== *)
(** * Motor: the integer ramp *)
(* ================================================================== *)

Section MotorRamp.

Variable step : Z.
Hypothesis step_range : 0 <= step <= INT_MAX - 255.

Lemma update_step (m : Motor.t) :
  motor_ok step m ->
  Z.abs (Motor.currentPWM (Motor.update m) - Motor.currentPWM m) <= step
  /\ (Motor.currentPWM m <= Motor.targetPWM m ->
      Motor.currentPWM m <= Motor.currentPWM (Motor.update m) <= Motor.targetPWM m)
  /\ (Motor.targetPWM m <= Motor.currentPWM m ->
      Motor.targetPWM m <= Motor.currentPWM (Motor.update m) <= Motor.currentPWM m).
Proof.
  intros (Hs & Ht & Hc). unfold Motor.update; simpl. rewrite Hs.
  unfold INT_MAX in step_range.
  destruct (Z.ltb_spec (Motor.currentPWM m) (Motor.targetPWM m)) as [L|L].
  - rewrite wrap32_id by (unfold INT_MIN, INT_MAX; lia).
    unfold imin.
    destruct (Z.ltb_spec (Motor.currentPWM m + step) (Motor.targetPWM m)); lia.
  - destruct (Z.gtb_spec (Motor.currentPWM m) (Motor.targetPWM m)) as [G|G].
    + rewrite wrap32_id by (unfold INT_MIN, INT_MAX; lia).
      unfold imax.
      destruct (Z.gtb_spec (Motor.currentPWM m - step) (Motor.targetPWM m)); lia.
    + lia.
Qed.

Lemma update_ok (m : Motor.t) : motor_ok step m -> motor_ok step (Motor.update m).
Proof.
  intros H. pose proof (update_step m H) as (_ & Hup & Hdn).
  destruct H as (Hs & Ht & Hc).
  assert (-255 <= Motor.currentPWM (Motor.update m) <= 255).
  { destruct (Z.le_ge_cases (Motor.currentPWM m) (Motor.targetPWM m)) as [L|L].
    - specialize (Hup L). lia.
    - specialize (Hdn L). lia. }
  unfold motor_ok. simpl Motor.targetPWM. simpl Motor.pwmStep. lia.
Qed.

Lemma setTarget_ok (pwm : Z) (m : Motor.t) :
  motor_ok step m -> motor_ok step (Motor.setTarget pwm m).
Proof.
  intros (Hs & Ht & Hc). repeat split; simpl; try assumption; try lia;
    apply (iconstrain_range pwm (-255) 255); lia.
Qed.

Lemma run_ok (ops : list Motor.op) (m : Motor.t) :
  motor_ok step m -> motor_ok step (Motor.run ops m).
Proof.
  revert m. induction ops as [|o r IH]; intros m H; [exact H|].
  apply IH. destruct o; [apply setTarget_ok | apply update_ok]; exact H.
Qed.

Lemma ctor_ok : motor_ok step (Motor.ctor step).
Proof. repeat split; simpl; lia. Qed.

End MotorRamp.

(** C4. On a motor built with a step in [0, INT_MAX - 255], after any
    interleaving of [setTarget] and [update] calls, one more [update]
    moves [currentPWM] by at most [pwmStep] and never carries it past
    [targetPWM], from either side. *)
Theorem C4_update_bounded_no_overshoot :
  forall (step : Z) (ops : list Motor.op),
    0 <= step <= INT_MAX - 255 ->
    let m := Motor.run ops (Motor.ctor step) in
    let m' := Motor.update m in
    Z.abs (Motor.currentPWM m' - Motor.currentPWM m) <= Motor.pwmStep m
    /\ Motor.targetPWM m' = Motor.targetPWM m
    /\ (Motor.currentPWM m <= Motor.targetPWM m ->
        Motor.currentPWM m' <= Motor.targetPWM m')
    /\ (Motor.currentPWM m >= Motor.targetPWM m ->
        Motor.currentPWM m' >= Motor.targetPWM m').
Proof.
  intros step ops Hstep m m'.
  assert (Hok : motor_ok step m) by (apply run_ok; [exact Hstep | apply ctor_ok]).
  pose proof (update_step step Hstep m Hok) as (Habs & Hup & Hdn).
  destruct Hok as (Hs & _). rewrite Hs.
  split; [exact Habs|]. split; [reflexivity|].
  split; intros H.
  - specialize (Hup H). subst m'. simpl Motor.targetPWM. lia.
  - assert (H' : Motor.targetPWM m <= Motor.currentPWM m) by lia.
    specialize (Hdn H'). subst m'. simpl Motor.targetPWM. lia.
Qed.

Lemma C4_witness :
  0 <= 5 <= INT_MAX - 255
  /\ Z.abs (Motor.currentPWM
              (Motor.update
                 (Motor.run [Motor.SetTarget 100; Motor.Update;
                             Motor.SetTarget (-300); Motor.Update] (Motor.ctor 5)))
            - Motor.currentPWM
                (Motor.run [Motor.SetTarget 100; Motor.Update;
                            Motor.SetTarget (-300); Motor.Update] (Motor.ctor 5)))
     <= 5.
Proof.
  assert (H : 0 <= 5 <= INT_MAX - 255) by (unfold INT_MAX; lia).
  split; [exact H|].
  exact (proj1 (C4_update_bounded_no_overshoot 5
                  [Motor.SetTarget 100; Motor.Update;
                   Motor.SetTarget (-300); Motor.Update] H)).
Defined.

(* ================================================================== *)
(** * LedController: the scanner index *)
(* ================================================================== *)

Lemma led_ok_fields (l l' : LedController.t) :
  LedController.scannerIdx l' = LedController.scannerIdx l ->
  LedController.scannerDir l' = LedController.scannerDir l ->
  led_ok l -> led_ok l'.
Proof. unfold led_ok. intros -> ->. auto. Qed.

Lemma runSimpleBlinker_cases (pin speed now : Z) (s : bool) (ts : Z) :
  exists s' ts' w, LedController.runSimpleBlinker pin speed now s ts = (s', ts', w).
Proof.
  unfold LedController.runSimpleBlinker.
  destruct (speed <=? usub32 now ts); eauto.
Qed.

Lemma runScannerLogic_ok (now : Z) (la ra : bool) (l : LedController.t) :
  led_ok l ->
  exists l' w,
    LedController.runScannerLogic now la ra l = Some (l', w) /\ led_ok l'.
Proof.
  intros Hok. unfold LedController.runScannerLogic.
  destruct la, ra; cbn [negb andb].
  - (* both motors active: the four-phase sweep *)
    destruct (usub32 now (LedController.lastScanTime l) <? LedController.SCAN_SPEED);
      [eauto|].
    cbn [LedController.scannerStep LedController.scannerIdx
         LedController.scannerDir LedController.set_scan].
    assert (Hpin : exists p, LedController.pin_scanner (LedController.scannerIdx l) = Some p)
      by (destruct Hok as [[H | H] _]; rewrite H; eexists; reflexivity).
    destruct Hpin as [p Hp]. rewrite Hp.
    destruct ((LedController.scannerStep l =? 0) || (LedController.scannerStep l =? 2)).
    { do 2 eexists. split; [reflexivity|]. eapply led_ok_fields; eauto. }
    destruct (LedController.scannerStep l =? 1).
    { do 2 eexists. split; [reflexivity|]. eapply led_ok_fields; eauto. }
    destruct (LedController.scannerStep l =? 3).
    + destruct Hok as [[Hi | Hi] [Hd | Hd]]; rewrite Hi, Hd; cbn;
        do 2 eexists; (split; [reflexivity|]); unfold led_ok; cbn; auto.
    + do 2 eexists. split; [reflexivity|]. eapply led_ok_fields; eauto.
  - destruct (runSimpleBlinker_cases 10 LedController.SCAN_SPEED now
                (LedController.sSingle l) (LedController.tSingle l))
      as (s & ts & w & E).
    rewrite E. do 2 eexists. split; [reflexivity|]. eapply led_ok_fields; eauto.
  - destruct (runSimpleBlinker_cases 11 LedController.SCAN_SPEED now
                (LedController.sSingle l) (LedController.tSingle l))
      as (s & ts & w & E).
    rewrite E. do 2 eexists. split; [reflexivity|]. eapply led_ok_fields; eauto.
  - eauto.
Qed.

Lemma led_update_ok (now : Z) (la ra sa ca : bool) (l : LedController.t) :
  led_ok l ->
  exists l' w, LedController.update now la ra sa ca l = Some (l', w) /\ led_ok l'.
Proof.
  intros Hok. unfold LedController.update.
  destruct (runSimpleBlinker_cases LedController.PIN_HEARTBEAT
              LedController.HEARTBEAT_SPEED now
              (LedController.s13 l) (LedController.t13 l)) as (s & ts & w1 & E).
  rewrite E.
  set (l1 := LedController.set_13 s ts l).
  assert (H1 : led_ok l1) by (eapply led_ok_fields; eauto).
  assert (H2 : exists l2 w2,
             (if ca
              then let '(s0, ts0, w) :=
                     LedController.runSimpleBlinker LedController.PIN_FAST_BLINK
                       LedController.PIN24_SPEED now
                       (LedController.s24 l1) (LedController.t24 l1) in
                   (LedController.set_24 s0 ts0 l1, w)
              else (l1, [(LedController.PIN_FAST_BLINK, false)])) = (l2, w2)
             /\ led_ok l2).
  { destruct ca.
    - destruct (runSimpleBlinker_cases LedController.PIN_FAST_BLINK
                  LedController.PIN24_SPEED now
                  (LedController.s24 l1) (LedController.t24 l1)) as (s0 & ts0 & w & E0).
      rewrite E0. do 2 eexists. split; [reflexivity|].
      eapply led_ok_fields; eauto.
    - eauto. }
  destruct H2 as (l2 & w2 & E2 & Hok2). rewrite E2.
  destruct (runScannerLogic_ok now la ra l2 Hok2) as (l3 & w3 & E3 & Hok3).
  rewrite E3.
  unfold LedController.runBeaconLogic.
  destruct (negb sa).
  - do 2 eexists. split; [reflexivity|]. eapply led_ok_fields; eauto.
  - destruct (100 <=? usub32 now (LedController.lastBeaconTime l3)).
    + do 2 eexists. split; [reflexivity|]. eapply led_ok_fields; eauto.
    + eauto.
Qed.

(** C10. Whatever the sequence of [update] calls and their boolean
    inputs and clock readings, starting from the member initialisers every
    call returns with all its [PIN_SCANNER[scannerIdx]] accesses inside
    the 2-element array, and leaves [scannerIdx] in {0, 1} and
    [scannerDir] in {-1, 1}. *)
Theorem C10_scanner_index_in_bounds :
  forall cs : list LedController.call,
  exists l,
    LedController.run cs LedController.init = Some l
    /\ (LedController.scannerIdx l = 0 \/ LedController.scannerIdx l = 1)
    /\ (LedController.scannerDir l = -1 \/ LedController.scannerDir l = 1).
Proof.
  intros cs.
  assert (G : forall l0, led_ok l0 ->
              exists l, LedController.run cs l0 = Some l /\ led_ok l).
  { induction cs as [|c r IH]; intros l0 H0; simpl.
    - eauto.
    - destruct (led_update_ok (LedController.c_now c) (LedController.c_left c)
                  (LedController.c_right c) (LedController.c_servo c)
                  (LedController.c_comms c) l0 H0) as (l1 & w & E & H1).
      rewrite E. apply IH, H1. }
  destruct (G LedController.init) as (l & E & H).
  - unfold led_ok; cbn; auto.
  - exists l. split; [exact E | exact H].
Qed.

(* ================================================================== *)
(** * binary32: comparison and the absence of NaN *)
(* ================================================================== *)

Lemma SFcompare_antisym (x y : spec_float) :
  SFcompare y x = option_map CompOpp (SFcompare x y).
Proof.
  destruct x as [s1| s1 | |s1 m1 e1], y as [s2|s2| |s2 m2 e2]; simpl;
    try reflexivity;
    try (destruct s1; reflexivity); try (destruct s2; reflexivity);
    try (destruct s1, s2; reflexivity).
  destruct s1, s2; simpl; try reflexivity;
    rewrite (Z.compare_antisym e1 e2);
    destruct (e1 ?= e2); simpl; try reflexivity; f_equal.
  - rewrite CompOpp_involutive. exact (Pos.compare_cont_antisym m2 m1 Eq).
  - symmetry. exact (Pos.compare_cont_antisym m1 m2 Eq).
Qed.

Lemma SFcompare_some (x y : spec_float) :
  F32.is_nan x = false -> F32.is_nan y = false ->
  exists c, SFcompare x y = Some c.
Proof.
  destruct x, y; simpl; intros; try discriminate; eauto.
Qed.

Lemma SFltb_true_not_nan (x y : spec_float) :
  SFltb x y = true -> F32.is_nan x = false /\ F32.is_nan y = false.
Proof.
  unfold SFltb. destruct x, y; simpl; intros; try discriminate; auto.
Qed.

Lemma SFleb_of_not_ltb (x y : spec_float) :
  F32.is_nan x = false -> F32.is_nan y = false ->
  SFltb y x = false -> SFleb x y = true.
Proof.
  intros Hx Hy. unfold SFltb, SFleb.
  rewrite (SFcompare_antisym x y).
  destruct (SFcompare_some x y Hx Hy) as [c ->]. simpl.
  destruct c; simpl; intros; try reflexivity; discriminate.
Qed.

Section ShiftRight.

Lemma shr_1_nonneg (mrs : shr_record) : 0 <= shr_m mrs -> 0 <= shr_m (shr_1 mrs).
Proof.
  destruct mrs as [m r s]. simpl.
  destruct m as [|p|p]; [| destruct p | ]; simpl; lia.
Qed.

Lemma iter_pos_invariant {A : Type} (P : A -> Prop) (f : A -> A) :
  (forall x, P x -> P (f x)) ->
  forall (p : positive) (x : A), P x -> P (iter_pos f p x).
Proof.
  intros Hf. induction p as [p IH|p IH|]; intros x Hx; simpl; auto.
Qed.

Lemma shr_nonneg (mrs : shr_record) (e n : Z) :
  0 <= shr_m mrs -> 0 <= shr_m (fst (shr mrs e n)).
Proof.
  intros H. unfold shr. destruct n as [|p|p]; simpl; auto.
  apply (iter_pos_invariant (fun r => 0 <= shr_m r)); auto using shr_1_nonneg.
Qed.

Lemma shr_record_of_loc_m (m : Z) (l : location) :
  shr_m (shr_record_of_loc m l) = m.
Proof. destruct l as [|[ | | ]]; reflexivity. Qed.

Lemma shr_fexp_nonneg (prec emax m e : Z) (l : location) :
  0 <= m -> 0 <= shr_m (fst (shr_fexp prec emax m e l)).
Proof.
  intros H. unfold shr_fexp. apply shr_nonneg.
  rewrite shr_record_of_loc_m. exact H.
Qed.

Lemma round_nearest_even_nonneg (m : Z) (l : location) :
  0 <= m -> 0 <= round_nearest_even m l.
Proof.
  intros H. unfold round_nearest_even.
  destruct l as [|[ | | ]]; try lia. destruct (Z.even m); lia.
Qed.

Lemma binary_round_aux_not_nan (prec emax : Z) (sx : bool) (mx ex : Z) (lx : location) :
  0 <= mx -> F32.is_nan (binary_round_aux prec emax sx mx ex lx) = false.
Proof.
  intros H. unfold binary_round_aux.
  pose proof (shr_fexp_nonneg prec emax mx ex lx H) as H1.
  destruct (shr_fexp prec emax mx ex lx) as [mrs' e']. simpl in H1.
  pose proof (shr_fexp_nonneg prec emax
                (round_nearest_even (shr_m mrs') (loc_of_shr_record mrs'))
                e' loc_Exact (round_nearest_even_nonneg _ _ H1)) as H2.
  destruct (shr_fexp prec emax
              (round_nearest_even (shr_m mrs') (loc_of_shr_record mrs')) e' loc_Exact)
    as [mrs'' e'']. simpl in H2.
  destruct (shr_m mrs'') as [|p|p]; simpl; try reflexivity; try lia.
  destruct (e'' <=? emax - prec); reflexivity.
Qed.

Lemma binary_normalize_not_nan (prec emax m e : Z) (sz : bool) :
  F32.is_nan (binary_normalize prec emax m e sz) = false.
Proof.
  unfold binary_normalize, binary_round. destruct m as [|p|p]; [reflexivity| |].
  - destruct (shl_align p e (fexp prec emax (Z.pos (digits2_pos p) + e))).
    apply binary_round_aux_not_nan. lia.
  - destruct (shl_align p e (fexp prec emax (Z.pos (digits2_pos p) + e))).
    apply binary_round_aux_not_nan. lia.
Qed.

End ShiftRight.

(** A float that is a zero or an ordinary finite number. *)
Lemma angle_ok_finite (a : F32.t) :
  F32.leb (F32.of_Z 0) a = true -> F32.leb a (F32.of_Z 180) = true ->
  match a with S754_zero _ | S754_finite _ _ _ => True | _ => False end.
Proof.
  destruct a as [s|s| |s m e]; auto; unfold F32.leb; try (vm_compute; discriminate).
  destruct s; vm_compute; discriminate.
Qed.

Lemma add_not_nan (a s : F32.t) :
  match a with S754_zero _ | S754_finite _ _ _ => True | _ => False end ->
  F32.is_nan s = false ->
  F32.is_nan (F32.add a s) = false.
Proof.
  intros Ha Hs. unfold F32.add.
  destruct a as [sa|sa| |sa ma ea]; try contradiction;
    destruct s as [ss|ss| |ss ms es]; try discriminate; simpl; try reflexivity.
  - destruct sa, ss; reflexivity.
  - apply (binary_normalize_not_nan F32.prec F32.emax).
Qed.

Lemma ramp_not_nan (speed tgt up down : F32.t) :
  F32.is_nan speed = false ->
  F32.is_nan (ServoController.ramp speed tgt up down) = false.
Proof.
  intros H. unfold ServoController.ramp, F32.fmin, F32.fmax, F32.ltb, F32.gtb.
  destruct (SFltb speed tgt) eqn:E1.
  - destruct (SFltb (F32.add speed up) tgt) eqn:E2.
    + apply (SFltb_true_not_nan _ _ E2).
    + apply (SFltb_true_not_nan _ _ E1).
  - destruct (SFltb tgt speed) eqn:E3; [|exact H].
    destruct (SFltb tgt (F32.sub speed down)) eqn:E4.
    + apply (SFltb_true_not_nan _ _ E4).
    + apply (SFltb_true_not_nan _ _ E3).
Qed.

Lemma fconstrain_in_range (x : F32.t) :
  F32.is_nan x = false ->
  F32.leb (F32.of_Z 0) (F32.fconstrain x 0 180) = true
  /\ F32.leb (F32.fconstrain x 0 180) (F32.of_Z 180) = true.
Proof.
  intros H. unfold F32.fconstrain, F32.ltb, F32.gtb, F32.leb.
  destruct (SFltb x (F32.of_Z 0)) eqn:E1; [split; reflexivity|].
  destruct (SFltb (F32.of_Z 180) x) eqn:E2; [split; reflexivity|].
  split; apply SFleb_of_not_ltb; auto.
Qed.

(* ================================================================== *)
(** * ServoController: the angle clamp *)
(* ================================================================== *)

Lemma Forall_nth_default {A : Type} (P : A -> Prop) (l : list A) (i : nat) (d : A) :
  Forall P l -> P d -> P (nth i l d).
Proof.
  intros H Hd. revert i. induction H as [|x r Hx Hr IH]; intros [|i]; simpl; auto.
Qed.

Lemma update_joint_ok (commands : list ascii) (sc : ServoController.t) (i : nat) :
  servo_ok sc -> servo_ok (ServoController.update_joint commands sc i).
Proof.
  intros (Hlen & Han & Hsp).
  unfold servo_ok, ServoController.update_joint; simpl.
  set (sp := ServoController.ramp _ _ _ _).
  assert (Hnan : F32.is_nan sp = false).
  { apply ramp_not_nan.
    apply (Forall_nth_default (fun s => F32.is_nan s = false)); auto. }
  split; [rewrite upd_length; exact Hlen|]. split.
  - apply Forall_upd; [|exact Han].
    apply fconstrain_in_range. apply add_not_nan; [|exact Hnan].
    assert (Hi : angle_in_range (nth i (ServoController.angles sc) F32.zero)).
    { apply Forall_nth_default; [exact Han|]. split; reflexivity. }
    destruct Hi as [H0 H180]. exact (angle_ok_finite _ H0 H180).
  - apply Forall_upd; assumption.
Qed.

Lemma servo_update_ok (commands : list ascii) (sc : ServoController.t) :
  servo_ok sc -> servo_ok (ServoController.update commands sc).
Proof.
  unfold ServoController.update.
  generalize (seq 0 (Z.to_nat ServoController.numServos)). intros js.
  revert sc. induction js as [|j r IH]; intros sc H; simpl; auto.
  apply IH, update_joint_ok, H.
Qed.

Lemma servo_ctor_ok : servo_ok ServoController.ctor.
Proof.
  unfold servo_ok, ServoController.ctor;
    cbn [ServoController.angles ServoController.speeds].
  split; [reflexivity|].
  split; apply Forall_forall; intros x Hx; apply repeat_spec in Hx; subst x.
  - split; vm_compute; reflexivity.
  - reflexivity.
Qed.

Lemma run_servo_cons (c : list ascii) (r : list (list ascii)) (sc : ServoController.t) :
  run_servo (c :: r) sc = run_servo r (ServoController.update c sc).
Proof. lazy beta delta [run_servo] iota. fold run_servo. exact eq_refl. Qed.

Lemma run_servo_ok (hist : list (list ascii)) :
  forall sc0, servo_ok sc0 -> servo_ok (run_servo hist sc0).
Proof.
  induction hist as [|c r IH]; intros sc0 H0; [exact H0|].
  rewrite run_servo_cons. exact (IH _ (servo_update_ok c sc0 H0)).
Qed.

(** C5. Starting from the constructor (every angle 90), after any
    sequence of update ticks with any command arrays, each of the six
    joint angles compares within [0, 180]. *)
Theorem C5_angles_stay_in_range :
  forall hist : list (list ascii),
    List.length (ServoController.angles (run_servo hist ServoController.ctor)) = 6%nat
    /\ Forall angle_in_range
         (ServoController.angles (run_servo hist ServoController.ctor)).
Proof.
  intros hist.
  pose proof (run_servo_ok hist ServoController.ctor servo_ctor_ok) as H.
  unfold servo_ok in H. tauto.
Qed.

(* ================================================================== *)
(** * Convergence of the ramps *)
(* ================================================================== *)

Section MotorConvergence.

Lemma update_closer (m : Motor.t) :
  in_range m ->
  in_range (Motor.update m)
  /\ Motor.targetPWM (Motor.update m) = Motor.targetPWM m
  /\ (dist m = 0 -> dist (Motor.update m) = 0)
  /\ (0 < dist m -> dist (Motor.update m) <= dist m - 1).
Proof.
  unfold in_range, dist. intros (Hs & Ht & Hc).
  unfold INT_MIN, INT_MAX in *.
  unfold Motor.update;
    cbn [Motor.currentPWM Motor.targetPWM Motor.pwmStep].
  destruct (Z.ltb_spec (Motor.currentPWM m) (Motor.targetPWM m)) as [L|L].
  - rewrite wrap32_id by (unfold INT_MIN, INT_MAX; lia). unfold imin.
    destruct (Z.ltb_spec (Motor.currentPWM m + Motor.pwmStep m) (Motor.targetPWM m));
      repeat split; try lia.
  - destruct (Z.gtb_spec (Motor.currentPWM m) (Motor.targetPWM m)) as [G|G].
    + rewrite wrap32_id by (unfold INT_MIN, INT_MAX; lia). unfold imax.
      destruct (Z.gtb_spec (Motor.currentPWM m - Motor.pwmStep m) (Motor.targetPWM m));
        repeat split; try lia.
    + repeat split; try lia.
Qed.

Lemma motor_converges (n : nat) :
  forall m : Motor.t,
    in_range m -> (Z.to_nat (dist m) <= n)%nat ->
    Motor.currentPWM (iter n Motor.update m) = Motor.targetPWM m.
Proof.
  induction n as [|n IH]; intros m Hr Hn.
  - simpl. unfold dist in Hn. lia.
  - simpl. destruct (update_closer m Hr) as (Hr' & Ht' & H0 & Hpos).
    rewrite <- Ht'. apply IH; [exact Hr'|].
    destruct (Z.eq_dec (dist m) 0) as [E|E].
    + rewrite (H0 E). simpl. lia.
    + assert (0 < dist m) by (unfold dist in *; lia).
      specialize (Hpos H). unfold dist in *. lia.
Qed.

End MotorConvergence.

Section SpeedConvergence.
Import ServoController SpeedOrbit.

Lemma F32_eqb_eq (x y : F32.t) : F32.eqb x y = true -> x = y.
Proof.
  destruct x as [a|a| |a m e], y as [b|b| |b n f]; simpl; try discriminate; intros H.
  - apply Bool.eqb_prop in H. now subst.
  - apply Bool.eqb_prop in H. now subst.
  - reflexivity.
  - apply andb_true_iff in H. destruct H as [H He].
    apply andb_true_iff in H. destruct H as [Hs Hm].
    apply Bool.eqb_prop in Hs. apply Pos.eqb_eq in Hm. apply Z.eqb_eq in He.
    now subst.
Qed.

Lemma F32_eqb_refl (x : F32.t) : F32.eqb x x = true.
Proof.
  destruct x as [a|a| |a m e]; simpl; auto using Bool.eqb_reflx.
  now rewrite Bool.eqb_reflx, Pos.eqb_refl, Z.eqb_refl.
Qed.

Lemma mem_In (x : F32.t) (l : list F32.t) : mem x l = true <-> In x l.
Proof.
  unfold mem. rewrite existsb_exists. split.
  - intros (y & Hy & E). apply F32_eqb_eq in E. now subst.
  - intros H. exists x. split; [exact H | apply F32_eqb_refl].
Qed.

(** Every command character acts as one of 'L', 'R' or Hold. *)
Lemma target_as_cmds (c : ascii) :
  exists c', In c' cmds /\ target c = target c' /\ forall s, tick c s = tick c' s.
Proof.
  unfold tick, target, targetSpeed, cmds.
  destruct (Ascii.eqb c "L") eqn:EL.
  - exists "L"%char. split; [simpl; auto | split; reflexivity].
  - destruct (Ascii.eqb c "R") eqn:ER.
    + exists "R"%char. split; [simpl; auto | split; reflexivity].
    + exists NUL. split; [simpl; auto | split; reflexivity].
Qed.

Lemma orbit_closed_check :
  forallb (fun s => forallb (fun c => mem (tick c s) orbit) cmds) orbit = true.
Proof. vm_compute. reflexivity. Qed.

Lemma orbit_settles_check :
  forallb (fun s =>
    forallb (fun c => F32.eqb (iter 81 (tick c) s) (target c)) cmds) orbit = true.
Proof. vm_compute. reflexivity. Qed.

Lemma target_fixed_check :
  forallb (fun c => F32.eqb (tick c (target c)) (target c)) cmds = true.
Proof. vm_compute. reflexivity. Qed.

Lemma orbit_closed (c : ascii) (s : F32.t) : In s orbit -> In (tick c s) orbit.
Proof.
  intros Hs. destruct (target_as_cmds c) as (c' & Hc' & _ & E). rewrite E.
  pose proof orbit_closed_check as H.
  rewrite forallb_forall in H. specialize (H s Hs).
  rewrite forallb_forall in H. specialize (H c' Hc').
  now apply mem_In.
Qed.

Lemma after_in_orbit (hist : list ascii) : In (after hist) orbit.
Proof.
  unfold after.
  assert (G : forall s, In s orbit -> In (fold_left (fun s c => tick c s) hist s) orbit).
  { induction hist as [|c r IH]; intros s Hs; simpl; auto.
    apply IH, orbit_closed, Hs. }
  apply G. apply mem_In. vm_compute. reflexivity.
Qed.

Lemma iter_ext {A : Type} (f g : A -> A) (n : nat) (x : A) :
  (forall y, f y = g y) -> iter n f x = iter n g x.
Proof.
  intros E. revert x. induction n as [|n IH]; intros x; simpl; auto.
  rewrite E. apply IH.
Qed.

Lemma iter_fixed {A : Type} (f : A -> A) (n : nat) (x : A) :
  f x = x -> iter n f x = x.
Proof.
  intros E. induction n as [|n IH]; simpl; auto. now rewrite E.
Qed.

Lemma orbit_settles (c : ascii) (s : F32.t) (n : nat) :
  In s orbit -> (81 <= n)%nat -> iter n (tick c) s = target c.
Proof.
  intros Hs Hn. destruct (target_as_cmds c) as (c' & Hc' & Et & E).
  rewrite (iter_ext (tick c) (tick c') n s E), Et.
  replace n with (81 + (n - 81))%nat by lia. rewrite iter_add.
  pose proof orbit_settles_check as H.
  rewrite forallb_forall in H. specialize (H s Hs).
  rewrite forallb_forall in H. specialize (H c' Hc').
  apply F32_eqb_eq in H. rewrite H.
  apply iter_fixed.
  pose proof target_fixed_check as F.
  rewrite forallb_forall in F. specialize (F c' Hc').
  now apply F32_eqb_eq in F.
Qed.

End SpeedConvergence.

Section ServoSpeeds.
Import ServoController SpeedOrbit.

Lemma targetSpeed_configured (sc : ServoController.t) (i : nat) (c : ascii) :
  servo_configured sc -> (i < 6)%nat -> targetSpeed sc i c = target c.
Proof.
  intros (Hs & Hm & _) Hi. unfold target, targetSpeed. rewrite Hs, Hm.
  assert (E : nth i (sensitivity ctor) F32.zero = nth 0 (sensitivity ctor) F32.zero).
  { do 6 (destruct i as [|i]; [reflexivity|]). lia. }
  rewrite E. reflexivity.
Qed.

Lemma update_joint_speeds (commands : list ascii) (sc : ServoController.t) (i : nat) :
  servo_configured sc -> (i < 6)%nat ->
  servo_configured (update_joint commands sc i)
  /\ forall j,
      nth j (speeds (update_joint commands sc i)) F32.zero
      = if Nat.eqb j i
        then tick (nth i commands NUL) (nth i (speeds sc) F32.zero)
        else nth j (speeds sc) F32.zero.
Proof.
  intros Hc Hi. pose proof (targetSpeed_configured sc i (nth i commands NUL) Hc Hi) as Et.
  destruct Hc as (Hs & Hm & Ha & Hd & Hl).
  unfold update_joint, servo_configured.
  cbn [sensitivity maxSpeed accel decel speeds].
  rewrite upd_length. repeat split; try assumption.
  intros j. destruct (Nat.eqb_spec j i) as [->|N].
  - rewrite nth_upd_same by lia. unfold tick. now rewrite Et, Ha, Hd.
  - apply nth_upd_other. congruence.
Qed.

Lemma fold_update_joint_speeds (commands : list ascii) (js : list nat) :
  NoDup js -> (forall i, In i js -> (i < 6)%nat) ->
  forall sc, servo_configured sc ->
    servo_configured (fold_left (update_joint commands) js sc)
    /\ forall j,
        nth j (speeds (fold_left (update_joint commands) js sc)) F32.zero
        = if existsb (Nat.eqb j) js
          then tick (nth j commands NUL) (nth j (speeds sc) F32.zero)
          else nth j (speeds sc) F32.zero.
Proof.
  induction js as [|i r IH]; intros Hnd Hlt sc Hc.
  - split; [exact Hc | reflexivity].
  - inversion Hnd as [|? ? Hni Hnd']; subst.
    destruct (update_joint_speeds commands sc i Hc (Hlt i (or_introl eq_refl)))
      as (Hc' & Hsp).
    destruct (IH Hnd' (fun k Hk => Hlt k (or_intror Hk)) _ Hc') as (Hc'' & Hsp').
    cbn [fold_left]. split; [exact Hc''|].
    intros j. rewrite Hsp', Hsp. cbn [existsb].
    destruct (Nat.eqb_spec j i) as [->|N]; cbn [orb].
    + destruct (existsb (Nat.eqb i) r) eqn:Ex; [|reflexivity].
      apply existsb_exists in Ex. destruct Ex as (k & Hk & Ek).
      apply Nat.eqb_eq in Ek. subst k. contradiction.
    + reflexivity.
Qed.

Lemma update_speeds (commands : list ascii) (sc : ServoController.t) :
  servo_configured sc ->
  servo_configured (update commands sc)
  /\ forall j, (j < 6)%nat ->
      nth j (speeds (update commands sc)) F32.zero
      = tick (nth j commands NUL) (nth j (speeds sc) F32.zero).
Proof.
  intros Hc. unfold update.
  destruct (fold_update_joint_speeds commands (seq 0 (Z.to_nat numServos))
              (seq_NoDup _ _)
              (fun i Hi => proj2 (proj1 (in_seq _ _ _) Hi)) sc Hc) as (Hc' & Hsp).
  split; [exact Hc'|]. intros j Hj. rewrite Hsp.
  do 6 (destruct j as [|j]; [reflexivity|]). lia.
Qed.

Lemma fold_tick_in_orbit (hist : list ascii) :
  forall s, In s orbit -> In (fold_left (fun s c => tick c s) hist s) orbit.
Proof.
  induction hist as [|c r IH]; intros s Hs; cbn [fold_left]; auto.
  apply IH, orbit_closed, Hs.
Qed.

Lemma run_servo_speeds (hist : list (list ascii)) (j : nat) :
  (j < 6)%nat ->
  forall sc, servo_configured sc ->
    servo_configured (run_servo hist sc)
    /\ nth j (speeds (run_servo hist sc)) F32.zero
       = fold_left (fun s c => tick c s)
           (map (fun commands => nth j commands NUL) hist)
           (nth j (speeds sc) F32.zero).
Proof.
  intros Hj. induction hist as [|c r IH]; intros sc Hc.
  - split; [exact Hc | reflexivity].
  - rewrite run_servo_cons.
    destruct (update_speeds c sc Hc) as (Hc' & Hsp).
    destruct (IH _ Hc') as (Hc'' & E). split; [exact Hc''|].
    rewrite E, (Hsp j Hj). reflexivity.
Qed.

Lemma iter_update_speeds (held : list ascii) (j : nat) (n : nat) :
  (j < 6)%nat ->
  forall sc, servo_configured sc ->
    nth j (speeds (iter n (update held) sc)) F32.zero
    = iter n (tick (nth j held NUL)) (nth j (speeds sc) F32.zero).
Proof.
  intros Hj. induction n as [|n IH]; intros sc Hc; [reflexivity|].
  rewrite !iter_S. destruct (update_speeds held sc Hc) as (Hc' & Hsp).
  rewrite (IH _ Hc'), (Hsp j Hj). reflexivity.
Qed.

Lemma ctor_configured : servo_configured ctor.
Proof. unfold servo_configured. repeat split; reflexivity. Qed.

Lemma servo_speed_settles (hist : list (list ascii)) (held : list ascii) (n j : nat) :
  (81 <= n)%nat -> (j < 6)%nat ->
  nth j (speeds (iter n (update held) (run_servo hist ctor))) F32.zero
  = targetSpeed ctor j (nth j held NUL).
Proof.
  intros Hn Hj.
  destruct (run_servo_speeds hist j Hj ctor ctor_configured) as (Hc & E).
  rewrite (iter_update_speeds held j n Hj _ Hc), E.
  rewrite (targetSpeed_configured ctor j _ ctor_configured Hj).
  apply orbit_settles; [|exact Hn].
  apply fold_tick_in_orbit.
  assert (E0 : nth j (speeds ctor) F32.zero = F32.of_Z 0).
  { do 6 (destruct j as [|j]; [reflexivity|]). lia. }
  rewrite E0. apply mem_In. vm_compute. reflexivity.
Qed.

End ServoSpeeds.

(** C8 (as amended). The integer ramp of [Motor::update], on any motor
    whose step is positive and whose target leaves room for one step
    inside [int], reaches its target exactly after |target - current|
    calls and stays there. The servo speed ramp, at the configured
    acceleration, deceleration, top speed and sensitivity, reaches the
    target speed of the held command exactly within 81 updates, for every
    joint and from every state the controller can be in, and stays
    there. *)
Theorem C8_ramps_reach_target :
  (forall (m : Motor.t) (n : nat),
      0 < Motor.pwmStep m ->
      INT_MIN + Motor.pwmStep m <= Motor.targetPWM m <= INT_MAX - Motor.pwmStep m ->
      INT_MIN <= Motor.currentPWM m <= INT_MAX ->
      (Z.to_nat (Z.abs (Motor.targetPWM m - Motor.currentPWM m)) <= n)%nat ->
      Motor.currentPWM (iter n Motor.update m) = Motor.targetPWM m)
  /\ (forall (hist : list (list ascii)) (held : list ascii) (n j : nat),
      (81 <= n)%nat -> (j < 6)%nat ->
      nth j (ServoController.speeds
               (iter n (ServoController.update held)
                  (run_servo hist ServoController.ctor))) F32.zero
      = ServoController.targetSpeed ServoController.ctor j (nth j held NUL)).
Proof.
  split.
  - intros m n Hs Ht Hc Hn. apply motor_converges; [unfold in_range; auto | exact Hn].
  - intros hist held n j Hn Hj. apply servo_speed_settles; assumption.
Qed.

Lemma C8_witness :
  (0 < Motor.pwmStep (Motor.mk 100 (-7) 5)
   /\ INT_MIN + Motor.pwmStep (Motor.mk 100 (-7) 5)
      <= Motor.targetPWM (Motor.mk 100 (-7) 5)
      <= INT_MAX - Motor.pwmStep (Motor.mk 100 (-7) 5)
   /\ INT_MIN <= Motor.currentPWM (Motor.mk 100 (-7) 5) <= INT_MAX
   /\ (Z.to_nat (Z.abs (Motor.targetPWM (Motor.mk 100 (-7) 5)
                        - Motor.currentPWM (Motor.mk 100 (-7) 5))) <= 107)%nat
   /\ Motor.currentPWM (iter 107 Motor.update (Motor.mk 100 (-7) 5))
      = Motor.targetPWM (Motor.mk 100 (-7) 5))
  /\ ((81 <= 81)%nat /\ (1 < 6)%nat
      /\ nth 1 (ServoController.speeds
                  (iter 81 (ServoController.update (list_ascii_of_string "RL"))
                     (run_servo [list_ascii_of_string "R"] ServoController.ctor)))
             F32.zero
         = ServoController.targetSpeed ServoController.ctor 1
             (nth 1 (list_ascii_of_string "RL") NUL)).
Proof.
  split.
  - assert (H1 : 0 < Motor.pwmStep (Motor.mk 100 (-7) 5)) by (simpl; lia).
    assert (H2 : INT_MIN + Motor.pwmStep (Motor.mk 100 (-7) 5)
                 <= Motor.targetPWM (Motor.mk 100 (-7) 5)
                 <= INT_MAX - Motor.pwmStep (Motor.mk 100 (-7) 5))
      by (unfold INT_MIN, INT_MAX; simpl; lia).
    assert (H3 : INT_MIN <= Motor.currentPWM (Motor.mk 100 (-7) 5) <= INT_MAX)
      by (unfold INT_MIN, INT_MAX; simpl; lia).
    assert (H4 : (Z.to_nat (Z.abs (Motor.targetPWM (Motor.mk 100 (-7) 5)
                                   - Motor.currentPWM (Motor.mk 100 (-7) 5)))
                  <= 107)%nat)
      by (simpl; lia).
    split; [exact H1|]. split; [exact H2|]. split; [exact H3|]. split; [exact H4|].
    exact (proj1 C8_ramps_reach_target (Motor.mk 100 (-7) 5) 107%nat H1 H2 H3 H4).
  - assert (H1 : (81 <= 81)%nat) by lia.
    assert (H2 : (1 < 6)%nat) by lia.
    split; [exact H1|]. split; [exact H2|].
    exact (proj2 C8_ramps_reach_target [list_ascii_of_string "R"]
             (list_ascii_of_string "RL") 81%nat 1%nat H1 H2).
Defined.

(** C8, the claim as stated, fails for the floating-point ramp: with
    current 2^25, target 2^26 and both steps 1, the sum [current + 1]
    rounds back to [current], so no number of ticks reaches the target. *)
Lemma C8_counterexample :
  let cur := F32.of_Z 33554432 in
  let tgt := F32.of_Z 67108864 in
  let one := F32.of_Z 1 in
  F32.ltb (F32.of_Z 0) one = true
  /\ F32.ltb cur tgt = true
  /\ forall n : nat,
       iter n (fun s => ServoController.ramp s tgt one one) cur = cur
       /\ iter n (fun s => ServoController.ramp s tgt one one) cur <> tgt.
Proof.
  intros cur tgt one.
  split; [vm_compute; reflexivity|]. split; [vm_compute; reflexivity|].
  intros n.
  assert (E : iter n (fun s => ServoController.ramp s tgt one one) cur = cur).
  { apply iter_fixed. vm_compute. reflexivity. }
  split; [exact E|]. rewrite E. vm_compute. discriminate.
Qed.

(* ================================================================== *)
(** * The command interpreter *)
(* ================================================================== *)

Lemma resetFailsafe_fields (now : Z) (g : Globals) :
  failsafeTriggered (resetFailsafe now g) = false
  /\ lastCommandTime (resetFailsafe now g) = now
  /\ events (resetFailsafe now g)
     = events g ++ (if failsafeTriggered g then [SAFE_FAILSAFE_CLEAR] else [])
  /\ actuators (resetFailsafe now g) = actuators g
  /\ ledSys (resetFailsafe now g) = ledSys g
  /\ serialCommunicationFlag (resetFailsafe now g) = serialCommunicationFlag g
  /\ (lastMotorTime (resetFailsafe now g), lastServoTime (resetFailsafe now g))
     = (lastMotorTime g, lastServoTime g)
  /\ (usbBuffer (resetFailsafe now g), usbIndex (resetFailsafe now g),
      radioBuffer (resetFailsafe now g), radioIndex (resetFailsafe now g))
     = (usbBuffer g, usbIndex g, radioBuffer g, radioIndex g).
Proof.
  unfold resetFailsafe. cbn [failsafeTriggered set_failsafe].
  destruct (failsafeTriggered g) eqn:E; cbn.
  - repeat split; reflexivity.
  - rewrite app_nil_r. repeat split; reflexivity.
Qed.

(** The three ways [processCommand] can end. *)
Lemma processCommand_cases (now : Z) (cmd : list ascii) (g : Globals) :
  let g1 := resetFailsafe now g in
  processCommand now cmd g = g1
  \/ (exists i v, processCommand now cmd g
                  = set_servoCommands (upd i v (servoCommands g1)) g1)
  \/ (exists l r, processCommand now cmd g
                  = set_motors (Motor.setTarget l (leftMotor g1))
                      (Motor.setTarget r (rightMotor g1))
                      (negb (l =? 0)) (negb (r =? 0)) g1).
Proof.
  intros g1. unfold processCommand. fold g1.
  destruct (Ascii.eqb (rd cmd 0) "S").
  - destruct ((code (rd cmd 1) - code "1" >=? 0)
              && (code (rd cmd 1) - code "1" <? ServoController.numServos)).
    + right; left. eauto.
    + left. reflexivity.
  - destruct (strtok (cstr cmd)) as [[token rest]|]; [|left; reflexivity].
    destruct (strtok rest) as [[token' rest']|]; [|left; reflexivity].
    right; right. eauto.
Qed.

Lemma processCommand_fields (now : Z) (cmd : list ascii) (g : Globals) :
  failsafeTriggered (processCommand now cmd g) = false
  /\ lastCommandTime (processCommand now cmd g) = now
  /\ events (processCommand now cmd g)
     = events g ++ (if failsafeTriggered g then [SAFE_FAILSAFE_CLEAR] else [])
  /\ ledSys (processCommand now cmd g) = ledSys g
  /\ controller (processCommand now cmd g) = controller g
  /\ serialCommunicationFlag (processCommand now cmd g) = serialCommunicationFlag g
  /\ (lastMotorTime (processCommand now cmd g), lastServoTime (processCommand now cmd g))
     = (lastMotorTime g, lastServoTime g)
  /\ (usbBuffer (processCommand now cmd g), usbIndex (processCommand now cmd g),
      radioBuffer (processCommand now cmd g), radioIndex (processCommand now cmd g))
     = (usbBuffer g, usbIndex g, radioBuffer g, radioIndex g)
  /\ List.length (servoCommands (processCommand now cmd g))
     = List.length (servoCommands g).
Proof.
  destruct (resetFailsafe_fields now g) as (H1 & H2 & H3 & H4 & H5 & H6 & H7 & H8).
  assert (Hc : controller (resetFailsafe now g) = controller g)
    by (unfold actuators in H4; congruence).
  assert (Hs : servoCommands (resetFailsafe now g) = servoCommands g)
    by (unfold actuators in H4; congruence).
  destruct (processCommand_cases now cmd g) as [E | [(i & v & E) | (l & r & E)]];
    rewrite E; cbn [failsafeTriggered lastCommandTime events ledSys controller
                    serialCommunicationFlag lastMotorTime lastServoTime usbBuffer
                    usbIndex radioBuffer radioIndex servoCommands
                    set_servoCommands set_motors];
    rewrite ?upd_length, ?Hs; repeat split; assumption.
Qed.

Lemma iconstrain_flag (v : Z) (m : Motor.t) :
  negb (v =? 0) = negb (Motor.targetPWM (Motor.setTarget v m) =? 0).
Proof. cbn [Motor.targetPWM Motor.setTarget]. now rewrite iconstrain_zero. Qed.

Lemma processCommand_flags (now : Z) (cmd : list ascii) (g : Globals) :
  flags_agree g -> flags_agree (processCommand now cmd g).
Proof.
  intros (Hl & Hr).
  destruct (resetFailsafe_fields now g) as (_ & _ & _ & H4 & _).
  unfold actuators in H4.
  assert (El : leftMotor (resetFailsafe now g) = leftMotor g) by congruence.
  assert (Er : rightMotor (resetFailsafe now g) = rightMotor g) by congruence.
  assert (Fl : isLeftMotorActive (resetFailsafe now g) = isLeftMotorActive g) by congruence.
  assert (Fr : isRightMotorActive (resetFailsafe now g) = isRightMotorActive g) by congruence.
  unfold flags_agree.
  destruct (processCommand_cases now cmd g) as [E | [(i & v & E) | (l & r & E)]];
    rewrite E; cbn [isLeftMotorActive isRightMotorActive leftMotor rightMotor
                    set_servoCommands set_motors].
  - rewrite El, Er, Fl, Fr. auto.
  - rewrite El, Er, Fl, Fr. auto.
  - split; apply iconstrain_flag.
Qed.

(** ** Lines that carry no update *)

Lemma count_fields_skip_delim (s : list ascii) :
  count_fields_from false (skip_delim s) = count_fields_from false s.
Proof.
  induction s as [|c r IH]; [reflexivity|]. cbn [skip_delim count_fields_from].
  destruct (Ascii.eqb c ",") eqn:E; [exact IH|].
  cbn [count_fields_from]. rewrite E. reflexivity.
Qed.

Lemma count_fields_token_end (s : list ascii) :
  count_fields_from false (snd (token_end s)) = count_fields_from true s.
Proof.
  induction s as [|c r IH]; [reflexivity|]. cbn [token_end count_fields_from].
  destruct (Ascii.eqb c ","); [reflexivity|].
  destruct (token_end r) as [tok rest]. exact IH.
Qed.

Lemma strtok_count (s : list ascii) :
  match strtok s with
  | None => count_fields s = 0%nat
  | Some (_, rest) => count_fields s = S (count_fields rest)
  end.
Proof.
  unfold strtok, count_fields. rewrite <- (count_fields_skip_delim s).
  assert (H : forall c r, skip_delim s = c :: r -> Ascii.eqb c "," = false).
  { induction s as [|x t IH]; [discriminate|]. cbn [skip_delim].
    destruct (Ascii.eqb x ",") eqn:E; [exact IH|].
    intros c r [= <- <-]. exact E. }
  destruct (skip_delim s) as [|c r]; [reflexivity|].
  specialize (H c r eq_refl).
  pose proof (count_fields_token_end (c :: r)) as T.
  destruct (token_end (c :: r)) as [tok rest]. cbn [snd] in T. rewrite T.
  cbn [count_fields_from]. rewrite H. reflexivity.
Qed.

Lemma processCommand_inert (now : Z) (cmd : list ascii) (g : Globals) :
  inert cmd = true -> processCommand now cmd g = resetFailsafe now g.
Proof.
  unfold inert, processCommand.
  destruct (Ascii.eqb (rd cmd 0) "S").
  - intros H. apply negb_true_iff in H.
    assert (R : (code (rd cmd 1) - code "1" >=? 0)
                && (code (rd cmd 1) - code "1" <? ServoController.numServos) = false).
    { change (code "1") with 49. unfold ServoController.numServos.
      apply andb_false_iff in H. apply andb_false_iff.
      destruct H as [H|H]; apply Z.leb_gt in H; [left|right].
      - rewrite Z.geb_leb. apply Z.leb_gt. lia.
      - apply Z.ltb_ge. lia. }
    rewrite R. reflexivity.
  - intros H. apply Nat.ltb_lt in H.
    pose proof (strtok_count (cstr cmd)) as C1.
    destruct (strtok (cstr cmd)) as [[token rest]|]; [|reflexivity].
    pose proof (strtok_count rest) as C2.
    destruct (strtok rest) as [[token' rest']|]; [|reflexivity].
    lia.
Qed.

(** ** Batches *)

Lemma processAll_cons (f : Z * list ascii) (batch : list (Z * list ascii)) (g : Globals) :
  processAll (f :: batch) g = processAll batch (processCommand (fst f) (snd f) g).
Proof. reflexivity. Qed.

Lemma processAll_app (b1 b2 : list (Z * list ascii)) (g : Globals) :
  processAll (b1 ++ b2) g = processAll b2 (processAll b1 g).
Proof. unfold processAll. apply fold_left_app. Qed.

Lemma last_cons_default {A : Type} (x : A) (l : list A) (d d' : A) :
  last (x :: l) d = last (x :: l) d'.
Proof.
  revert x. induction l as [|y r IH]; intros x; [reflexivity|].
  change (last (y :: r) d = last (y :: r) d'). apply IH.
Qed.

Lemma processAll_failsafe (batch : list (Z * list ascii)) :
  forall g,
    failsafeTriggered (processAll batch g)
    = (match batch with [] => failsafeTriggered g | _ => false end)
    /\ events (processAll batch g)
       = events g ++ (match batch with
                      | [] => []
                      | _ => if failsafeTriggered g then [SAFE_FAILSAFE_CLEAR] else []
                      end)
    /\ lastCommandTime (processAll batch g)
       = last (map fst batch) (lastCommandTime g).
Proof.
  induction batch as [|f r IH]; intros g.
  - cbn. rewrite app_nil_r. auto.
  - rewrite processAll_cons.
    destruct (IH (processCommand (fst f) (snd f) g)) as (H1 & H2 & H3).
    destruct (processCommand_fields (fst f) (snd f) g) as (F1 & F2 & F3 & _).
    rewrite H1, H2, H3, F1, F2, F3.
    destruct r as [|f' r'].
    + cbn. rewrite app_nil_r. auto.
    + split; [reflexivity|]. split.
      * rewrite app_nil_r. reflexivity.
      * cbn [map last]. apply last_cons_default.
Qed.

Lemma processAll_inert (batch : list (Z * list ascii)) :
  forall g,
    forallb (fun f => inert (snd f)) batch = true ->
    actuators (processAll batch g) = actuators g.
Proof.
  induction batch as [|f r IH]; intros g H; [reflexivity|].
  cbn [forallb] in H. apply andb_true_iff in H. destruct H as [Hf Hr].
  rewrite processAll_cons, (IH _ Hr), (processCommand_inert _ _ _ Hf).
  apply resetFailsafe_fields.
Qed.

Lemma processAll_flags (batch : list (Z * list ascii)) :
  forall g, flags_agree g -> flags_agree (processAll batch g).
Proof.
  induction batch as [|f r IH]; intros g H; [exact H|].
  rewrite processAll_cons. apply IH, processCommand_flags, H.
Qed.

Lemma processAll_fields (batch : list (Z * list ascii)) :
  forall g,
    ledSys (processAll batch g) = ledSys g
    /\ controller (processAll batch g) = controller g
    /\ serialCommunicationFlag (processAll batch g) = serialCommunicationFlag g
    /\ (lastMotorTime (processAll batch g), lastServoTime (processAll batch g))
       = (lastMotorTime g, lastServoTime g)
    /\ (usbBuffer (processAll batch g), usbIndex (processAll batch g),
        radioBuffer (processAll batch g), radioIndex (processAll batch g))
       = (usbBuffer g, usbIndex g, radioBuffer g, radioIndex g)
    /\ List.length (servoCommands (processAll batch g))
       = List.length (servoCommands g).
Proof.
  induction batch as [|f r IH]; intros g.
  - repeat split; reflexivity.
  - rewrite processAll_cons.
    destruct (IH (processCommand (fst f) (snd f) g)) as (H1 & H2 & H3 & H4 & H5 & H6).
    destruct (processCommand_fields (fst f) (snd f) g)
      as (_ & _ & _ & F1 & F2 & F3 & F4 & F5 & F6).
    rewrite H1, H2, H3, H4, H5, H6. repeat split; assumption.
Qed.

(** C6. A line whose first byte is 'S': when its second byte is a digit
    '1'..'6', the command of that joint (0-based) becomes the third byte
    if this is 'L' or 'R' and Hold (0) otherwise, and motors, controller
    and activity flags are untouched; for any other second byte no
    actuator state changes at all. *)
Theorem C6_joint_line :
  forall (now : Z) (cmd : list ascii) (g : Globals),
    rd cmd 0 = "S"%char ->
    let d := rd cmd 1 in
    let dir := rd cmd 2 in
    let v := if Ascii.eqb dir "L" || Ascii.eqb dir "R" then dir else NUL in
    let g' := processCommand now cmd g in
    (49 <= code d <= 54 ->
       servoCommands g' = upd (Z.to_nat (code d - 49)) v (servoCommands g)
       /\ (List.length (servoCommands g) = 6%nat ->
           nth (Z.to_nat (code d - 49)) (servoCommands g') NUL = v
           /\ forall j, j <> Z.to_nat (code d - 49) ->
                nth j (servoCommands g') NUL = nth j (servoCommands g) NUL)
       /\ leftMotor g' = leftMotor g /\ rightMotor g' = rightMotor g
       /\ controller g' = controller g
       /\ isLeftMotorActive g' = isLeftMotorActive g
       /\ isRightMotorActive g' = isRightMotorActive g)
    /\ (~ 49 <= code d <= 54 -> actuators g' = actuators g).
Proof.
  intros now cmd g HS d dir v g'.
  destruct (resetFailsafe_fields now g) as (_ & _ & _ & H4 & _).
  unfold actuators in H4.
  split.
  - intros Hd.
    assert (E : g' = set_servoCommands
                       (upd (Z.to_nat (code d - 49)) v
                            (servoCommands (resetFailsafe now g)))
                       (resetFailsafe now g)).
    { subst g'. unfold processCommand. rewrite HS. rewrite Ascii.eqb_refl.
      change (code "1") with 49. fold d. fold dir. fold v.
      unfold ServoController.numServos.
      replace ((code d - 49 >=? 0) && (code d - 49 <? 6)) with true; [reflexivity|].
      symmetry. apply andb_true_iff. split.
      - rewrite Z.geb_leb. apply Z.leb_le. lia.
      - apply Z.ltb_lt. lia. }
    rewrite E. cbn [servoCommands leftMotor rightMotor controller isLeftMotorActive
                    isRightMotorActive set_servoCommands].
    assert (Es : servoCommands (resetFailsafe now g) = servoCommands g) by congruence.
    rewrite Es.
    split; [reflexivity|]. split.
    + intros Hlen. split.
      * apply nth_upd_same. lia.
      * intros j Hj. apply nth_upd_other. congruence.
    + repeat split; congruence.
  - intros Hd.
    assert (Hin : inert cmd = true).
    { unfold inert. rewrite HS, Ascii.eqb_refl. fold d.
      apply negb_true_iff, andb_false_iff.
      destruct (Z.leb_spec 49 (code d)); [right | left; reflexivity].
      apply Z.leb_gt. lia. }
    subst g'. rewrite (processCommand_inert now cmd g Hin).
    apply resetFailsafe_fields.
Qed.

Lemma C6_witness :
  rd (list_ascii_of_string "S3L") 0 = "S"%char
  /\ servoCommands (processCommand 7 (list_ascii_of_string "S3L") (setup 0 0))
     = upd 2 "L"%char (servoCommands (setup 0 0)).
Proof.
  split; [reflexivity|].
  refine (proj1 (proj1 (C6_joint_line 7 (list_ascii_of_string "S3L") (setup 0 0)
                          eq_refl) _)).
  vm_compute. split; discriminate.
Defined.

(* ================================================================== *)
(** * The command ingestor *)
(* ================================================================== *)

Lemma store_ok (buffer : list ascii) (i : Z) (c : ascii) :
  List.length buffer = 32%nat -> 0 <= i <= MAX_CMD_LEN - 1 ->
  store buffer i c = Some (upd (Z.to_nat i) c buffer).
Proof.
  intros Hl Hi. unfold store, MAX_CMD_LEN in *. rewrite Hl.
  replace ((0 <=? i) && (i <? Z.of_nat 32)) with true; [reflexivity|].
  symmetry. apply andb_true_iff. split; [apply Z.leb_le | apply Z.ltb_lt]; lia.
Qed.

Lemma strtok_buf_length (buf : list ascii) (p : nat) :
  match strtok_buf buf p with
  | Some (_, buf', _) => List.length buf' = List.length buf
  | None => True
  end.
Proof.
  unfold strtok_buf.
  destruct (Ascii.eqb (nth _ buf NUL) NUL); [exact I|].
  destruct (Ascii.eqb (nth _ buf NUL) ","); [apply upd_length | reflexivity].
Qed.

Lemma processCommand_buffer_length (cmd : list ascii) :
  List.length (processCommand_buffer cmd) = List.length cmd.
Proof.
  unfold processCommand_buffer.
  destruct (Ascii.eqb (rd cmd 0) "S"); [reflexivity|].
  pose proof (strtok_buf_length cmd 0) as H1.
  destruct (strtok_buf cmd 0) as [[[s1 cmd1] saved]|]; [|reflexivity].
  pose proof (strtok_buf_length cmd1 saved) as H2.
  destruct (strtok_buf cmd1 saved) as [[[s2 cmd2] saved2]|]; congruence.
Qed.

(** What one byte does to a well-formed line buffer. *)
Lemma checkInput_byte_ok (g : Globals) (buffer : list ascii) (index : Z)
    (c : ascii) (now : Z) :
  channel_ok buffer index ->
  checkInput_byte (g, buffer, index) (c, now)
  = Some (if is_terminator c
          then if index >? 0
               then (processCommand now (upd (Z.to_nat index) NUL buffer) g,
                     processCommand_buffer (upd (Z.to_nat index) NUL buffer), 0)
               else (g, buffer, index)
          else if index <? MAX_CMD_LEN - 1
               then (g, upd (Z.to_nat index) c buffer, index + 1)
               else (g, buffer, index)).
Proof.
  intros (Hl & Hi). unfold checkInput_byte.
  destruct (is_terminator c).
  - destruct (index >? 0); [|reflexivity].
    rewrite (store_ok buffer index NUL Hl Hi). reflexivity.
  - destruct (index <? MAX_CMD_LEN - 1); [|reflexivity].
    rewrite (store_ok buffer index c Hl Hi). reflexivity.
Qed.

Lemma checkInput_cons (b : byte_in) (r : list byte_in) (st : Globals * list ascii * Z) :
  checkInput (b :: r) st
  = match checkInput_byte st b with
    | None => None
    | Some st' => checkInput r st'
    end.
Proof. reflexivity. Qed.


(** [checkInput] is the framing followed by the interpreter, and it keeps
    the line buffer well formed. *)
Lemma checkInput_frames (stream : list byte_in) :
  forall g buffer index,
    channel_ok buffer index ->
    checkInput stream (g, buffer, index)
    = Some (processAll (frames stream buffer index) g,
            fst (channel_after stream buffer index),
            snd (channel_after stream buffer index))
    /\ channel_ok (fst (channel_after stream buffer index))
                  (snd (channel_after stream buffer index)).
Proof.
  induction stream as [|[c now] r IH]; intros g buffer index Hok.
  - split; [reflexivity | exact Hok].
  - rewrite checkInput_cons, (checkInput_byte_ok g buffer index c now Hok).
    destruct Hok as (Hl & Hi). unfold MAX_CMD_LEN in *.
    cbn [frames channel_after]. unfold MAX_CMD_LEN.
    destruct (is_terminator c).
    + destruct (Z.gtb_spec index 0).
      * rewrite processAll_cons. cbn [fst snd]. apply IH.
        split; [now rewrite processCommand_buffer_length, upd_length
               | unfold MAX_CMD_LEN; lia].
      * apply IH. split; [exact Hl | unfold MAX_CMD_LEN; lia].
    + destruct (Z.ltb_spec index (32 - 1)).
      * apply IH. split; [now rewrite upd_length | unfold MAX_CMD_LEN; lia].
      * apply IH. split; [exact Hl | unfold MAX_CMD_LEN; lia].
Qed.

Lemma nth_skipn_add {A : Type} (d : A) (p : nat) :
  forall (l : list A) (i : nat), nth i (skipn p l) d = nth (p + i) l d.
Proof.
  induction p as [|p IH]; intros l i; [reflexivity|].
  destruct l as [|x r]; [destruct i; reflexivity|].
  cbn [skipn Nat.add nth]. apply IH.
Qed.







(** C1, the claim as stated, fails: the lines "Q,9" and "S9X" match
    neither form of the grammar, yet draining them sets the right motor
    target to 9, raises the right activity flag and moves
    [lastCommandTime] to the clock of the dispatch. *)
Lemma C1_counterexample :
  spec_valid "Q,9" = false /\ spec_valid "S9X" = false
  /\ exists g' buffer' index',
       checkInput (stream_of_lines 100 ["Q,9"%string; "S9X"%string])
         (setup 0 0, usbBuffer (setup 0 0), usbIndex (setup 0 0))
       = Some (g', buffer', index')
       /\ Motor.targetPWM (rightMotor (setup 0 0)) = 0
       /\ Motor.targetPWM (rightMotor g') = 9
       /\ isRightMotorActive (setup 0 0) = false
       /\ isRightMotorActive g' = true
       /\ lastCommandTime (setup 0 0) = 0
       /\ lastCommandTime g' = 100
       /\ actuators g' <> actuators (setup 0 0).
Proof.
  split; [reflexivity|]. split; [reflexivity|].
  do 3 eexists. split; [vm_compute; reflexivity|].
  repeat (split; [reflexivity|]).
  vm_compute. discriminate.
Qed.

(** C1 (as amended). Draining any bytes into a well-formed line buffer
    succeeds; [lastCommandTime] ends as the clock of the last line
    dispatched, whatever the line holds, and is unchanged only when no
    line was dispatched; any dispatched line leaves the failsafe
    untripped; and when every dispatched line is inert (the joint marker
    with an index byte outside '1'..'6', or another line with fewer than
    two non-empty comma-separated fields) no actuator state changes. *)
Theorem C1_inert_batch :
  forall (stream : list byte_in) (g : Globals) (buffer : list ascii) (index : Z),
    channel_ok buffer index ->
    exists g' buffer' index',
      checkInput stream (g, buffer, index) = Some (g', buffer', index')
      /\ lastCommandTime g'
         = last (map fst (frames stream buffer index)) (lastCommandTime g)
      /\ (frames stream buffer index = [] -> g' = g)
      /\ (frames stream buffer index <> [] -> failsafeTriggered g' = false)
      /\ (forallb (fun f => inert (snd f)) (frames stream buffer index) = true ->
          actuators g' = actuators g).
Proof.
  intros stream g buffer index Hok.
  destruct (checkInput_frames stream g buffer index Hok) as (E & _).
  do 3 eexists. split; [exact E|].
  destruct (processAll_failsafe (frames stream buffer index) g) as (H1 & _ & H3).
  split; [exact H3|]. split; [|split].
  - intros ->. reflexivity.
  - intros Hne. rewrite H1.
    destruct (frames stream buffer index); [contradiction | reflexivity].
  - apply processAll_inert.
Qed.

Lemma C1_witness :
  channel_ok (usbBuffer (setup 0 0)) (usbIndex (setup 0 0))
  /\ exists g' buffer' index',
      checkInput (stream_of_lines 100 ["S9X"%string; "Q"%string])
        (setup 0 0, usbBuffer (setup 0 0), usbIndex (setup 0 0))
      = Some (g', buffer', index')
      /\ lastCommandTime g'
         = last (map fst (frames (stream_of_lines 100 ["S9X"%string; "Q"%string])
                            (usbBuffer (setup 0 0)) (usbIndex (setup 0 0))))
                (lastCommandTime (setup 0 0))
      /\ (frames (stream_of_lines 100 ["S9X"%string; "Q"%string])
            (usbBuffer (setup 0 0)) (usbIndex (setup 0 0)) = [] -> g' = setup 0 0)
      /\ (frames (stream_of_lines 100 ["S9X"%string; "Q"%string])
            (usbBuffer (setup 0 0)) (usbIndex (setup 0 0)) <> [] ->
          failsafeTriggered g' = false)
      /\ (forallb (fun f => inert (snd f))
            (frames (stream_of_lines 100 ["S9X"%string; "Q"%string])
               (usbBuffer (setup 0 0)) (usbIndex (setup 0 0))) = true ->
          actuators g' = actuators (setup 0 0)).
Proof.
  assert (H : channel_ok (usbBuffer (setup 0 0)) (usbIndex (setup 0 0))).
  { split; [reflexivity | unfold MAX_CMD_LEN; cbn; lia]. }
  split; [exact H|].
  exact (C1_inert_batch (stream_of_lines 100 ["S9X"%string; "Q"%string])
           (setup 0 0) _ _ H).
Defined.

Example inert_lines_are_dispatched :
  forallb (fun f => inert (snd f))
    (frames (stream_of_lines 100 ["S9X"%string; "Q"%string])
       (usbBuffer (setup 0 0)) (usbIndex (setup 0 0))) = true
  /\ map fst (frames (stream_of_lines 100 ["S9X"%string; "Q"%string])
                (usbBuffer (setup 0 0)) (usbIndex (setup 0 0))) = [100; 100].
Proof. vm_compute. split; reflexivity. Qed.

(* ================================================================== *)
(** * One pass over both streams *)
(* ================================================================== *)

Lemma readInputs_spec (usb radio : list byte_in) (g : Globals) :
  channel_ok (usbBuffer g) (usbIndex g) ->
  channel_ok (radioBuffer g) (radioIndex g) ->
  let fu := frames usb (usbBuffer g) (usbIndex g) in
  let cu := channel_after usb (usbBuffer g) (usbIndex g) in
  let fr := frames radio (radioBuffer g) (radioIndex g) in
  let cr := channel_after radio (radioBuffer g) (radioIndex g) in
  readInputs usb radio g
  = Some (set_radio (fst cr) (snd cr)
            (processAll fr (set_usb (fst cu) (snd cu) (processAll fu g))))
  /\ channel_ok (fst cu) (snd cu) /\ channel_ok (fst cr) (snd cr).
Proof.
  intros Hu Hr fu cu fr cr. unfold readInputs.
  destruct (checkInput_frames usb g _ _ Hu) as (Eu & Hu').
  rewrite Eu. fold fu. fold cu.
  destruct (processAll_fields fu g) as (_ & _ & _ & _ & Hb & _).
  assert (Erb : radioBuffer (set_usb (fst cu) (snd cu) (processAll fu g)) = radioBuffer g)
    by (cbn [radioBuffer set_usb]; congruence).
  assert (Eri : radioIndex (set_usb (fst cu) (snd cu) (processAll fu g)) = radioIndex g)
    by (cbn [radioIndex set_usb]; congruence).
  rewrite Erb, Eri.
  destruct (checkInput_frames radio (set_usb (fst cu) (snd cu) (processAll fu g))
              _ _ Hr) as (Er & Hr').
  rewrite Er. fold fr. fold cr. auto.
Qed.

(** C3. With the failsafe tripped, the dispatch of a line clears it
    within that dispatch and emits SAFE_FAILSAFE_CLEAR once; a dispatch
    with the failsafe clear emits nothing. So after any line of a batch,
    whatever was dispatched before it, the state is untripped with one
    SAFE_FAILSAFE_CLEAR added, and a pass over both streams that
    dispatches at least one line ends untripped with exactly one
    SAFE_FAILSAFE_CLEAR added, however many lines it drained. *)
Theorem C3_cleared_once_per_batch :
  forall (usb radio : list byte_in) (g : Globals),
    channel_ok (usbBuffer g) (usbIndex g) ->
    channel_ok (radioBuffer g) (radioIndex g) ->
    failsafeTriggered g = true ->
    batch_of usb radio g <> [] ->
    (forall now cmd g0,
        failsafeTriggered (processCommand now cmd g0) = false
        /\ events (processCommand now cmd g0)
           = events g0 ++ (if failsafeTriggered g0 then [SAFE_FAILSAFE_CLEAR] else []))
    /\ (forall (before : list (Z * list ascii)) (line : Z * list ascii),
          failsafeTriggered (processAll (before ++ [line]) g) = false
          /\ events (processAll (before ++ [line]) g)
             = events g ++ [SAFE_FAILSAFE_CLEAR])
    /\ exists g',
        readInputs usb radio g = Some g'
        /\ failsafeTriggered g' = false
        /\ events g' = events g ++ [SAFE_FAILSAFE_CLEAR]
        /\ count_code SAFE_FAILSAFE_CLEAR (events g')
           = S (count_code SAFE_FAILSAFE_CLEAR (events g)).
Proof.
  intros usb radio g Hu Hr Ht Hne. split; [|split].
  - intros now cmd g0.
    destruct (processCommand_fields now cmd g0) as (F1 & _ & F3 & _). auto.
  - intros before line.
    destruct (processAll_failsafe (before ++ [line]) g) as (P1 & P2 & _).
    rewrite P1, P2, Ht.
    destruct (before ++ [line]) eqn:E; [|auto].
    destruct before; discriminate.
  - destruct (readInputs_spec usb radio g Hu Hr) as (E & _).
    eexists. split; [exact E|].
    set (fu := frames usb (usbBuffer g) (usbIndex g)) in *.
    set (cu := channel_after usb (usbBuffer g) (usbIndex g)) in *.
    set (fr := frames radio (radioBuffer g) (radioIndex g)) in *.
    set (cr := channel_after radio (radioBuffer g) (radioIndex g)) in *.
    set (g1 := set_usb (fst cu) (snd cu) (processAll fu g)) in *.
    destruct (processAll_failsafe fu g) as (U1 & U2 & _).
    destruct (processAll_failsafe fr g1) as (R1 & R2 & _).
    assert (G1f : failsafeTriggered g1 = failsafeTriggered (processAll fu g)) by reflexivity.
    assert (G1e : events g1 = events (processAll fu g)) by reflexivity.
    assert (Ev : failsafeTriggered (processAll fr g1) = false
                 /\ events (processAll fr g1) = events g ++ [SAFE_FAILSAFE_CLEAR]).
    { rewrite R1, R2, G1f, G1e, U1, U2, Ht.
      unfold batch_of in Hne. fold fu in Hne. fold fr in Hne.
      destruct fu as [|a fu'], fr as [|b fr']; cbn [app] in *.
      - contradiction.
      - rewrite app_nil_r. auto.
      - rewrite app_nil_r. auto.
      - rewrite app_nil_r. auto. }
    destruct Ev as (Ev1 & Ev2).
    cbn [failsafeTriggered events set_radio].
    split; [exact Ev1|]. split; [exact Ev2|].
    rewrite Ev2. unfold count_code. rewrite filter_app, length_app.
    cbn. lia.
Qed.

Lemma C3_witness :
  channel_ok (usbBuffer (failsafeCheck 1000 (setup 0 0)))
             (usbIndex (failsafeCheck 1000 (setup 0 0)))
  /\ channel_ok (radioBuffer (failsafeCheck 1000 (setup 0 0)))
                (radioIndex (failsafeCheck 1000 (setup 0 0)))
  /\ failsafeTriggered (failsafeCheck 1000 (setup 0 0)) = true
  /\ batch_of (stream_of_lines 1001 ["S9X"%string; "50,-50"%string])
              (stream_of_lines 1002 ["S1L"%string])
              (failsafeCheck 1000 (setup 0 0)) <> []
  /\ exists g',
       readInputs (stream_of_lines 1001 ["S9X"%string; "50,-50"%string])
                  (stream_of_lines 1002 ["S1L"%string])
                  (failsafeCheck 1000 (setup 0 0)) = Some g'
       /\ failsafeTriggered g' = false
       /\ events g' = events (failsafeCheck 1000 (setup 0 0)) ++ [SAFE_FAILSAFE_CLEAR]
       /\ count_code SAFE_FAILSAFE_CLEAR (events g')
          = S (count_code SAFE_FAILSAFE_CLEAR
                 (events (failsafeCheck 1000 (setup 0 0)))).
Proof.
  assert (H1 : channel_ok (usbBuffer (failsafeCheck 1000 (setup 0 0)))
                          (usbIndex (failsafeCheck 1000 (setup 0 0))))
    by (split; [reflexivity | unfold MAX_CMD_LEN; cbn; lia]).
  assert (H2 : channel_ok (radioBuffer (failsafeCheck 1000 (setup 0 0)))
                          (radioIndex (failsafeCheck 1000 (setup 0 0))))
    by (split; [reflexivity | unfold MAX_CMD_LEN; cbn; lia]).
  assert (H3 : failsafeTriggered (failsafeCheck 1000 (setup 0 0)) = true) by reflexivity.
  assert (H4 : batch_of (stream_of_lines 1001 ["S9X"%string; "50,-50"%string])
                        (stream_of_lines 1002 ["S1L"%string])
                        (failsafeCheck 1000 (setup 0 0)) <> [])
    by (vm_compute; discriminate).
  split; [exact H1|]. split; [exact H2|]. split; [exact H3|]. split; [exact H4|].
  exact (proj2 (proj2 (C3_cleared_once_per_batch
                  (stream_of_lines 1001 ["S9X"%string; "50,-50"%string])
                  (stream_of_lines 1002 ["S1L"%string])
                  (failsafeCheck 1000 (setup 0 0)) H1 H2 H3 H4))).
Defined.

(* ================================================================== *)
(** * The stages of [loop] *)
(* ================================================================== *)

Lemma map_const_repeat {A B : Type} (v : B) (l : list A) :
  map (fun _ => v) l = repeat v (List.length l).
Proof. induction l as [|x r IH]; cbn; [reflexivity | now rewrite IH]. Qed.

Lemma clear_commands (sc : list ascii) :
  List.length sc = 6%nat ->
  fold_left (fun sc i => upd i NUL sc) (seq 0 6) sc = repeat NUL 6.
Proof.
  destruct sc as [|a [|b [|c [|d [|e [|f [|x r]]]]]]]; try discriminate.
  reflexivity.
Qed.

Lemma clear_commands_length (sc : list ascii) (js : list nat) :
  List.length (fold_left (fun sc i => upd i NUL sc) js sc) = List.length sc.
Proof.
  revert sc. induction js as [|j r IH]; intros sc; [reflexivity|].
  cbn [fold_left]. now rewrite IH, upd_length.
Qed.

Lemma servo_update_length (commands : list ascii) (sc : ServoController.t) :
  List.length (ServoController.speeds (ServoController.update commands sc))
  = List.length (ServoController.speeds sc).
Proof.
  unfold ServoController.update.
  generalize (seq 0 (Z.to_nat ServoController.numServos)). intros js.
  revert sc. induction js as [|j r IH]; intros sc; [reflexivity|].
  cbn [fold_left]. rewrite IH. unfold ServoController.update_joint.
  cbn [ServoController.speeds]. apply upd_length.
Qed.

Lemma servo_update_idle (sc : ServoController.t) :
  ServoController.speeds sc = repeat (S754_zero false) 6 ->
  ServoController.speeds (ServoController.update (repeat NUL 6) sc)
  = repeat (S754_zero false) 6.
Proof.
  unfold ServoController.update.
  generalize (seq 0 (Z.to_nat ServoController.numServos)). intros js.
  revert sc. induction js as [|j r IH]; intros sc H; [exact H|].
  cbn [fold_left]. apply IH. unfold ServoController.update_joint.
  cbn [ServoController.speeds].
  match goal with
  | |- upd j ?v _ = _ => assert (E : v = S754_zero false)
  end.
  { rewrite H, (nth_repeat NUL 6 j).
    do 6 (destruct j as [|j]; [reflexivity|]). destruct j; reflexivity. }
  rewrite E, H. apply upd_repeat.
Qed.

Lemma motor_update_idle (m : Motor.t) :
  Motor.targetPWM m = 0 -> Motor.currentPWM m = 0 ->
  Motor.targetPWM (Motor.update m) = 0 /\ Motor.currentPWM (Motor.update m) = 0.
Proof.
  intros Ht Hc. unfold Motor.update. cbn [Motor.targetPWM Motor.currentPWM].
  rewrite Ht, Hc. split; reflexivity.
Qed.

(** ** The failsafe block *)

Lemma failsafeCheck_trip (now : Z) (g : Globals) :
  List.length (servoCommands g) = 6%nat ->
  List.length (ServoController.speeds (controller g)) = 6%nat ->
  failsafeTriggered g = false ->
  usub32 now (lastCommandTime g) > FAILSAFE_TIMEOUT ->
  stopped (failsafeCheck now g)
  /\ failsafeTriggered (failsafeCheck now g) = true
  /\ events (failsafeCheck now g) = events g ++ [SAFE_FAILSAFE_TRIGGER]
  /\ isLeftMotorActive (failsafeCheck now g) = false
  /\ isRightMotorActive (failsafeCheck now g) = false.
Proof.
  intros Hc Hs Hf Ht. unfold failsafeCheck. rewrite Hf.
  destruct (Z.gtb_spec (usub32 now (lastCommandTime g)) FAILSAFE_TIMEOUT); [|lia].
  cbn [negb andb]. unfold stopped, transmitCode.
  cbn [failsafeTriggered events leftMotor rightMotor controller servoCommands
       isLeftMotorActive isRightMotorActive lastCommandTime
       set_failsafe set_motors set_controller set_servoCommands
       Motor.emergencyStop Motor.targetPWM Motor.currentPWM
       ServoController.emergencyStop ServoController.speeds].
  rewrite (clear_commands _ Hc), map_const_repeat, Hs.
  repeat split; reflexivity.
Qed.

Lemma failsafeCheck_cases (now : Z) (g : Globals) :
  failsafeCheck now g = g
  \/ (failsafeTriggered g = false
      /\ usub32 now (lastCommandTime g) > FAILSAFE_TIMEOUT
      /\ failsafeCheck now g
         = transmitCode SAFE_FAILSAFE_TRIGGER
             (set_servoCommands
                (fold_left (fun sc i => upd i NUL sc) (seq 0 6) (servoCommands g))
                (set_motors (Motor.emergencyStop (leftMotor g))
                   (Motor.emergencyStop (rightMotor g)) false false
                   (set_controller (ServoController.emergencyStop (controller g))
                      (set_failsafe true (lastCommandTime g) (events g) g))))).
Proof.
  unfold failsafeCheck.
  destruct (failsafeTriggered g); [left; reflexivity|].
  destruct (Z.gtb_spec (usub32 now (lastCommandTime g)) FAILSAFE_TIMEOUT);
    [|left; reflexivity].
  right. split; [reflexivity|]. split; [lia|]. reflexivity.
Qed.

Lemma failsafeCheck_wf (now : Z) (g : Globals) :
  wf g -> wf (failsafeCheck now g).
Proof.
  intros Hwf. destruct (failsafeCheck_cases now g) as [-> | (_ & _ & ->)]; [exact Hwf|].
  destruct Hwf as (Hu & Hr & Hc & Hs & Hl). unfold wf, transmitCode.
  cbn [usbBuffer usbIndex radioBuffer radioIndex servoCommands controller ledSys
       set_failsafe set_motors set_controller set_servoCommands
       ServoController.emergencyStop ServoController.speeds].
  rewrite clear_commands_length, length_map. auto.
Qed.

Lemma failsafeCheck_flags (now : Z) (g : Globals) :
  flags_agree g -> flags_agree (failsafeCheck now g).
Proof.
  intros H. destruct (failsafeCheck_cases now g) as [-> | (_ & _ & ->)]; [exact H|].
  split; reflexivity.
Qed.

(** ** The actuator updates *)

Lemma updateMotors_cases (now : Z) (g : Globals) :
  updateMotors now g = g
  \/ updateMotors now g
     = set_motors (Motor.update (leftMotor g)) (Motor.update (rightMotor g))
         (isLeftMotorActive g) (isRightMotorActive g)
         (set_timers now (lastServoTime g) g).
Proof.
  unfold updateMotors.
  destruct (usub32 now (lastMotorTime g) >=? MOTOR_INTERVAL); [right | left]; reflexivity.
Qed.

Lemma updateServos_cases (now : Z) (g : Globals) :
  updateServos now g = g
  \/ updateServos now g
     = set_controller (ServoController.update (servoCommands g) (controller g))
         (set_timers (lastMotorTime g) now g).
Proof.
  unfold updateServos.
  destruct (usub32 now (lastServoTime g) >=? SERVO_INTERVAL); [right | left]; reflexivity.
Qed.

Lemma updateMotors_keeps (now : Z) (g : Globals) :
  (wf g -> wf (updateMotors now g))
  /\ (flags_agree g -> flags_agree (updateMotors now g))
  /\ (stopped g -> stopped (updateMotors now g))
  /\ failsafeTriggered (updateMotors now g) = failsafeTriggered g
  /\ events (updateMotors now g) = events g.
Proof.
  destruct (updateMotors_cases now g) as [-> | ->]; [tauto|].
  split; [|split; [|split; [|split]]]; try reflexivity.
  - intros H. exact H.
  - intros H. exact H.
  - intros (H1 & H2 & H3 & H4 & H5 & H6). unfold stopped.
    cbn [leftMotor rightMotor controller servoCommands set_motors set_timers].
    destruct (motor_update_idle _ H1 H2), (motor_update_idle _ H3 H4).
    repeat split; assumption.
Qed.

Lemma updateServos_keeps (now : Z) (g : Globals) :
  (wf g -> wf (updateServos now g))
  /\ (flags_agree g -> flags_agree (updateServos now g))
  /\ (stopped g -> stopped (updateServos now g))
  /\ failsafeTriggered (updateServos now g) = failsafeTriggered g
  /\ events (updateServos now g) = events g.
Proof.
  destruct (updateServos_cases now g) as [-> | ->]; [tauto|].
  split; [|split; [|split; [|split]]]; try reflexivity.
  - intros (Hu & Hr & Hc & Hs & Hl). unfold wf.
    cbn [usbBuffer usbIndex radioBuffer radioIndex servoCommands controller ledSys
         set_controller set_timers].
    rewrite servo_update_length. auto.
  - intros H. exact H.
  - intros (H1 & H2 & H3 & H4 & H5 & H6). unfold stopped.
    cbn [leftMotor rightMotor controller servoCommands set_controller set_timers].
    rewrite H6, (servo_update_idle _ H5). repeat split; assumption.
Qed.

(** ** The input stage *)

Lemma readInputs_keeps (usb radio : list byte_in) (g : Globals) :
  wf g ->
  exists g',
    readInputs usb radio g = Some g'
    /\ wf g'
    /\ (flags_agree g -> flags_agree g')
    /\ (batch_of usb radio g = [] ->
        actuators g' = actuators g
        /\ failsafeTriggered g' = failsafeTriggered g
        /\ lastCommandTime g' = lastCommandTime g
        /\ events g' = events g).
Proof.
  intros (Hu & Hr & Hc & Hs & Hl).
  destruct (readInputs_spec usb radio g Hu Hr) as (E & Hu' & Hr').
  eexists. split; [exact E|].
  set (fu := frames usb (usbBuffer g) (usbIndex g)) in *.
  set (cu := channel_after usb (usbBuffer g) (usbIndex g)) in *.
  set (fr := frames radio (radioBuffer g) (radioIndex g)) in *.
  set (cr := channel_after radio (radioBuffer g) (radioIndex g)) in *.
  set (g1 := set_usb (fst cu) (snd cu) (processAll fu g)) in *.
  destruct (processAll_fields fu g) as (A1 & A2 & _ & _ & _ & A6).
  destruct (processAll_fields fr g1) as (B1 & B2 & _ & _ & B5 & B6).
  split; [|split].
  - unfold wf.
    cbn [usbBuffer usbIndex radioBuffer radioIndex servoCommands controller ledSys
         set_radio].
    rewrite B1, B2, B6.
    assert (Eu : usbBuffer (processAll fr g1) = fst cu /\ usbIndex (processAll fr g1) = snd cu).
    { injection B5 as -> -> _ _. split; reflexivity. }
    destruct Eu as (-> & ->).
    subst g1. cbn [servoCommands controller ledSys set_usb].
    rewrite A1, A2, A6. auto.
  - intros Hf. pose proof (processAll_flags fu g Hf) as Hf1.
    assert (Hf2 : flags_agree g1) by exact Hf1.
    exact (processAll_flags fr g1 Hf2).
  - intros Hb. unfold batch_of in Hb. fold fu in Hb. fold fr in Hb.
    apply app_eq_nil in Hb. destruct Hb as (Eu & Er).
    rewrite Er. subst g1. rewrite Eu. repeat split; reflexivity.
Qed.

(** ** One pass and many *)

Lemma loop_keeps (c : cycle) (g : Globals) :
  wf g ->
  exists g',
    loop c g = Some g' /\ wf g' /\ (flags_agree g -> flags_agree g').
Proof.
  intros Hwf. unfold loop.
  destruct (readInputs_keeps (cy_usb c) (cy_radio c) g Hwf) as (g1 & E1 & W1 & F1 & _).
  rewrite E1.
  pose proof (failsafeCheck_wf (cy_now c) g1 W1) as W2.
  set (g2 := failsafeCheck (cy_now c) g1) in *.
  destruct (updateMotors_keeps (cy_now c) g2) as (W3 & F3 & _).
  specialize (W3 W2). set (g3 := updateMotors (cy_now c) g2) in *.
  destruct (updateServos_keeps (cy_now c) g3) as (W4 & F4 & _).
  specialize (W4 W3). set (g4 := updateServos (cy_now c) g3) in *.
  assert (Hled : led_ok (ledSys g4)) by apply W4.
  destruct (led_update_ok (cy_led c) (isLeftMotorActive g4) (isRightMotorActive g4)
              (ServoController.isActive (controller g4))
              (serialCommunicationFlag g4) (ledSys g4) Hled) as (l & w & El & Hl).
  rewrite El. eexists. split; [reflexivity|]. split.
  - destruct W4 as (Hu & Hr & Hc & Hs & _). unfold wf.
    cbn [usbBuffer usbIndex radioBuffer radioIndex servoCommands controller ledSys
         set_led_comms]. auto.
  - intros Hf. apply F4, F3. subst g2. apply failsafeCheck_flags, F1, Hf.
Qed.

Lemma run_loop_cons (c : cycle) (cs : list cycle) (g : Globals) :
  run_loop (c :: cs) g
  = match loop c g with
    | None => None
    | Some g' => run_loop cs g'
    end.
Proof. reflexivity. Qed.

Lemma run_loop_keeps (cs : list cycle) :
  forall g, wf g -> flags_agree g ->
    exists g', run_loop cs g = Some g' /\ wf g' /\ flags_agree g'.
Proof.
  induction cs as [|c r IH]; intros g Hwf Hf.
  - exists g. auto.
  - rewrite run_loop_cons.
    destruct (loop_keeps c g Hwf) as (g1 & E & W1 & F1). rewrite E.
    apply IH; auto.
Qed.

Lemma setup_wf (srsr now : Z) : wf (setup srsr now) /\ flags_agree (setup srsr now).
Proof.
  unfold setup. destruct (negb (Z.land srsr 32 =? 0)).
  - split; [|split; reflexivity].
    repeat split; try reflexivity; cbn; try lia; auto.
  - split; [|split; reflexivity].
    repeat split; try reflexivity; cbn; try lia; auto.
Qed.

(** C9. In every state the control loop reaches from [setup], through
    any passes with any input bytes and clock readings, each stored motor
    activity flag equals "the target of that motor is not 0"; the same
    holds after each stage of the next pass (input, failsafe block, motor
    update, servo update), and every single dispatch preserves it. *)
Theorem C9_flags_match_targets :
  (forall (srsr now : Z) (cs : list cycle),
   exists g,
     run_loop cs (setup srsr now) = Some g
     /\ isLeftMotorActive g = negb (Motor.targetPWM (leftMotor g) =? 0)
     /\ isRightMotorActive g = negb (Motor.targetPWM (rightMotor g) =? 0)
     /\ forall c : cycle,
        exists g1,
          readInputs (cy_usb c) (cy_radio c) g = Some g1
          /\ flags_agree g1
          /\ flags_agree (failsafeCheck (cy_now c) g1)
          /\ flags_agree (updateMotors (cy_now c) (failsafeCheck (cy_now c) g1))
          /\ flags_agree (updateServos (cy_now c)
                            (updateMotors (cy_now c) (failsafeCheck (cy_now c) g1))))
  /\ (forall (now : Z) (cmd : list ascii) (g : Globals),
        flags_agree g -> flags_agree (processCommand now cmd g)).
Proof.
  split; [|exact processCommand_flags].
  intros srsr now cs.
  destruct (setup_wf srsr now) as (W & F).
  destruct (run_loop_keeps cs (setup srsr now) W F) as (g & E & Wg & Fg).
  exists g. split; [exact E|].
  split; [exact (proj1 Fg)|]. split; [exact (proj2 Fg)|].
  intros c.
  destruct (readInputs_keeps (cy_usb c) (cy_radio c) g Wg) as (g1 & E1 & _ & F1 & _).
  exists g1. split; [exact E1|].
  pose proof (F1 Fg) as H1.
  pose proof (failsafeCheck_flags (cy_now c) g1 H1) as H2.
  pose proof (proj1 (proj2 (updateMotors_keeps (cy_now c) _)) H2) as H3.
  pose proof (proj1 (proj2 (updateServos_keeps (cy_now c) _)) H3) as H4.
  auto.
Qed.

Lemma C9_witness :
  flags_agree (setup 0 0)
  /\ flags_agree (processCommand 5 (list_ascii_of_string "300,0") (setup 0 0)).
Proof.
  assert (H : flags_agree (setup 0 0)) by (split; reflexivity).
  split; [exact H|].
  exact (proj2 C9_flags_match_targets 5 (list_ascii_of_string "300,0") (setup 0 0) H).
Defined.

(** The clock read at the top of [loop] is older than the one
    [processCommand] stores: when the millisecond counter ticks between
    the two, the unsigned difference in the failsafe block wraps and the
    pass that has just dispatched a command trips. *)
Example stale_clock_trips :
  exists g,
    loop (mkCycle 100 (stream_of_lines 101 ["10,10"%string]) [] 101) (setup 0 0)
    = Some g
    /\ lastCommandTime g = 101
    /\ failsafeTriggered g = true
    /\ Motor.targetPWM (leftMotor g) = 0.
Proof.
  eexists. split; [vm_compute; reflexivity|]. repeat split.
Qed.

(* ================================================================== *)
(** * The failsafe trip *)
(* ================================================================== *)

Lemma stopped_actuators (g g' : Globals) :
  actuators g' = actuators g -> stopped g -> stopped g'.
Proof.
  unfold actuators, stopped. intros E. injection E as -> -> -> -> _ _. auto.
Qed.

Lemma failsafeCheck_tripped (now : Z) (g : Globals) :
  failsafeTriggered g = true -> failsafeCheck now g = g.
Proof. intros H. unfold failsafeCheck. rewrite H. reflexivity. Qed.

(** A pass of [loop] that dispatches no line. *)
Lemma loop_quiet (c : cycle) (g : Globals) :
  wf g ->
  batch_of (cy_usb c) (cy_radio c) g = [] ->
  exists g',
    loop c g = Some g' /\ wf g'
    /\ lastCommandTime g' = lastCommandTime g
    /\ (failsafeTriggered g = true -> stopped g ->
        stopped g' /\ failsafeTriggered g' = true /\ events g' = events g)
    /\ (failsafeTriggered g = false ->
        usub32 (cy_now c) (lastCommandTime g) > FAILSAFE_TIMEOUT ->
        stopped g' /\ failsafeTriggered g' = true
        /\ events g' = events g ++ [SAFE_FAILSAFE_TRIGGER]).
Proof.
  intros Hwf Hq.
  destruct (loop_keeps c g Hwf) as (g' & E & W' & _).
  exists g'. split; [exact E|]. split; [exact W'|].
  unfold loop in E.
  destruct (readInputs_keeps (cy_usb c) (cy_radio c) g Hwf)
    as (g1 & E1 & W1 & _ & Q).
  destruct (Q Hq) as (Qa & Qf & Qt & Qe). rewrite E1 in E.
  set (g2 := failsafeCheck (cy_now c) g1) in *.
  destruct (updateMotors_keeps (cy_now c) g2) as (_ & _ & S3 & T3 & V3).
  set (g3 := updateMotors (cy_now c) g2) in *.
  destruct (updateServos_keeps (cy_now c) g3) as (_ & _ & S4 & T4 & V4).
  set (g4 := updateServos (cy_now c) g3) in *.
  destruct (LedController.update (cy_led c) (isLeftMotorActive g4)
              (isRightMotorActive g4) (ServoController.isActive (controller g4))
              (serialCommunicationFlag g4) (ledSys g4)) as [[l w]|]; [|discriminate].
  injection E as <-.
  assert (Ht : lastCommandTime g4 = lastCommandTime g2).
  { subst g4 g3.
    destruct (updateServos_cases (cy_now c) (updateMotors (cy_now c) g2)) as [-> | ->];
      destruct (updateMotors_cases (cy_now c) g2) as [-> | ->]; reflexivity. }
  assert (Keep : forall P : Prop,
             (stopped g2 /\ failsafeTriggered g2 = true /\ P) ->
             stopped (set_led_comms l (serialCommunicationFlag g4) g4)
             /\ failsafeTriggered (set_led_comms l (serialCommunicationFlag g4) g4) = true
             /\ P).
  { intros P (Hs & Hf & HP).
    split; [exact (S4 (S3 Hs))|]. split; [|exact HP].
    cbn [failsafeTriggered set_led_comms]. now rewrite T4, T3. }
  assert (Ev : events (set_led_comms l (serialCommunicationFlag g4) g4) = events g2).
  { cbn [events set_led_comms]. now rewrite V4, V3. }
  split; [|split].
  - cbn [lastCommandTime set_led_comms]. rewrite Ht. subst g2.
    destruct (failsafeCheck_cases (cy_now c) g1) as [-> | (_ & _ & ->)];
      [exact Qt | cbn; exact Qt].
  - intros Hf Hs. rewrite Ev.
    assert (E2 : g2 = g1) by (apply failsafeCheck_tripped; congruence).
    apply Keep. rewrite E2. split; [exact (stopped_actuators _ _ Qa Hs)|].
    split; congruence.
  - intros Hf Ht'. rewrite Ev.
    destruct W1 as (_ & _ & Hc & Hsp & _).
    assert (Hf1 : failsafeTriggered g1 = false) by congruence.
    assert (Ht1 : usub32 (cy_now c) (lastCommandTime g1) > FAILSAFE_TIMEOUT)
      by (rewrite Qt; exact Ht').
    destruct (failsafeCheck_trip (cy_now c) g1 Hc Hsp Hf1 Ht1) as (Z1 & Z2 & Z3 & _).
    apply Keep. fold g2 in Z1, Z2, Z3. rewrite Z3, Qe. auto.
Qed.

Lemma quiet_run_cons (c : cycle) (cs : list cycle) (g : Globals) :
  quiet_run (c :: cs) g = true ->
  batch_of (cy_usb c) (cy_radio c) g = []
  /\ forall g', loop c g = Some g' -> quiet_run cs g' = true.
Proof.
  intros H.
  assert (U : quiet_run (c :: cs) g
              = match batch_of (cy_usb c) (cy_radio c) g, loop c g with
                | [], Some g' => quiet_run cs g'
                | _, _ => false
                end) by reflexivity.
  rewrite U in H. clear U.
  destruct (batch_of (cy_usb c) (cy_radio c) g); [|discriminate].
  split; [reflexivity|]. intros g' E. rewrite E in H. exact H.
Qed.

Lemma quiet_run_tripped (cs : list cycle) :
  forall g,
    wf g -> failsafeTriggered g = true -> stopped g -> quiet_run cs g = true ->
    exists g',
      run_loop cs g = Some g'
      /\ stopped g' /\ failsafeTriggered g' = true /\ events g' = events g.
Proof.
  induction cs as [|c r IH]; intros g Hwf Hf Hs Hq.
  - exists g. auto.
  - destruct (quiet_run_cons c r g Hq) as (Hb & Hrest).
    destruct (loop_quiet c g Hwf Hb) as (g1 & E & W1 & _ & Trip & _).
    destruct (Trip Hf Hs) as (S1 & F1 & V1).
    destruct (IH g1 W1 F1 S1 (Hrest g1 E)) as (g2 & E2 & S2 & F2 & V2).
    exists g2. rewrite run_loop_cons, E. split; [exact E2|].
    split; [exact S2|]. split; [exact F2|]. congruence.
Qed.

(** C2, the claim as stated, fails where lines outside the grammar
    arrive. "S9X" is no valid command, yet its dispatch re-arms the
    deadline: the check made 501 ms after the last reset does not trip.
    And "Q,9", no valid command either, dispatched while tripped, clears
    the trip and leaves the right motor with target 9. *)
Lemma C2_counterexample :
  spec_valid "S9X" = false /\ spec_valid "Q,9" = false
  /\ usub32 501 (lastCommandTime (setup 0 0)) > FAILSAFE_TIMEOUT
  /\ (exists g1,
        loop (mkCycle 501 (stream_of_lines 501 ["S9X"%string]) [] 501) (setup 0 0)
        = Some g1
        /\ failsafeTriggered g1 = false
        /\ count_code SAFE_FAILSAFE_TRIGGER (events g1) = 0%nat)
  /\ (exists g1 g2,
        loop (mkCycle 501 [] [] 501) (setup 0 0) = Some g1
        /\ failsafeTriggered g1 = true
        /\ Motor.targetPWM (rightMotor g1) = 0
        /\ loop (mkCycle 502 (stream_of_lines 502 ["Q,9"%string]) [] 502) g1 = Some g2
        /\ failsafeTriggered g2 = false
        /\ Motor.targetPWM (rightMotor g2) = 9).
Proof.
  split; [reflexivity|]. split; [reflexivity|].
  split; [vm_compute; reflexivity|]. split.
  - eexists. split; [vm_compute; reflexivity|]. split; reflexivity.
  - do 2 eexists. split; [vm_compute; reflexivity|].
    split; [reflexivity|]. split; [reflexivity|].
    split; [vm_compute; reflexivity|]. split; reflexivity.
Qed.

(** C2 (as amended). The failsafe block, reached untripped with more than
    FAILSAFE_TIMEOUT elapsed since [lastCommandTime], leaves both motors
    at target 0 and current 0, the six joint speeds at 0 and the six
    joint commands at Hold, and emits SAFE_FAILSAFE_TRIGGER once; reached
    tripped it does nothing. Hence a pass of [loop] that dispatches no
    line and finds the deadline exceeded ends stopped, tripped and with
    one SAFE_FAILSAFE_TRIGGER added, and every later pass that dispatches
    no line ends stopped and tripped with no further event. *)
Theorem C2_failsafe_trip_once :
  (forall (now : Z) (g : Globals),
      List.length (servoCommands g) = 6%nat ->
      List.length (ServoController.speeds (controller g)) = 6%nat ->
      failsafeTriggered g = false ->
      usub32 now (lastCommandTime g) > FAILSAFE_TIMEOUT ->
      stopped (failsafeCheck now g)
      /\ failsafeTriggered (failsafeCheck now g) = true
      /\ events (failsafeCheck now g) = events g ++ [SAFE_FAILSAFE_TRIGGER])
  /\ (forall (now : Z) (g : Globals),
      failsafeTriggered g = true -> failsafeCheck now g = g)
  /\ (forall (c : cycle) (cs : list cycle) (g : Globals),
      wf g ->
      failsafeTriggered g = false ->
      usub32 (cy_now c) (lastCommandTime g) > FAILSAFE_TIMEOUT ->
      quiet_run (c :: cs) g = true ->
      exists g1 g2,
        loop c g = Some g1 /\ run_loop cs g1 = Some g2
        /\ stopped g1 /\ failsafeTriggered g1 = true
        /\ events g1 = events g ++ [SAFE_FAILSAFE_TRIGGER]
        /\ stopped g2 /\ failsafeTriggered g2 = true
        /\ events g2 = events g1).
Proof.
  split; [|split].
  - intros now g Hc Hs Hf Ht.
    destruct (failsafeCheck_trip now g Hc Hs Hf Ht) as (H1 & H2 & H3 & _). auto.
  - apply failsafeCheck_tripped.
  - intros c cs g Hwf Hf Ht Hq.
    destruct (quiet_run_cons c cs g Hq) as (Hb & Hrest).
    destruct (loop_quiet c g Hwf Hb) as (g1 & E & W1 & _ & _ & Trip).
    destruct (Trip Hf Ht) as (S1 & F1 & V1).
    destruct (quiet_run_tripped cs g1 W1 F1 S1 (Hrest g1 E)) as (g2 & E2 & S2 & F2 & V2).
    exists g1, g2.
    split; [exact E|]. split; [exact E2|]. split; [exact S1|]. split; [exact F1|].
    split; [exact V1|]. split; [exact S2|]. split; [exact F2 | exact V2].
Qed.

Lemma C2_witness :
  wf (setup 0 0)
  /\ failsafeTriggered (setup 0 0) = false
  /\ usub32 501 (lastCommandTime (setup 0 0)) > FAILSAFE_TIMEOUT
  /\ quiet_run
       [mkCycle 501 [("S"%char, 501)] [] 501;
        mkCycle 520 [] [(LF, 520)] 520;
        mkCycle 90000 [("3"%char, 90000)] [] 90000] (setup 0 0) = true
  /\ exists g1 g2,
       loop (mkCycle 501 [("S"%char, 501)] [] 501) (setup 0 0) = Some g1
       /\ run_loop [mkCycle 520 [] [(LF, 520)] 520;
                    mkCycle 90000 [("3"%char, 90000)] [] 90000] g1 = Some g2
       /\ stopped g1 /\ failsafeTriggered g1 = true
       /\ events g1 = events (setup 0 0) ++ [SAFE_FAILSAFE_TRIGGER]
       /\ stopped g2 /\ failsafeTriggered g2 = true
       /\ events g2 = events g1.
Proof.
  assert (H1 : wf (setup 0 0)).
  { repeat split; try reflexivity; cbn; try lia; auto. }
  assert (H2 : failsafeTriggered (setup 0 0) = false) by reflexivity.
  assert (H3 : usub32 501 (lastCommandTime (setup 0 0)) > FAILSAFE_TIMEOUT)
    by (vm_compute; reflexivity).
  assert (H4 : quiet_run
                 [mkCycle 501 [("S"%char, 501)] [] 501;
                  mkCycle 520 [] [(LF, 520)] 520;
                  mkCycle 90000 [("3"%char, 90000)] [] 90000] (setup 0 0) = true)
    by (vm_compute; reflexivity).
  split; [exact H1|]. split; [exact H2|]. split; [exact H3|]. split; [exact H4|].
  exact (proj2 (proj2 C2_failsafe_trip_once)
           (mkCycle 501 [("S"%char, 501)] [] 501)
           [mkCycle 520 [] [(LF, 520)] 520;
            mkCycle 90000 [("3"%char, 90000)] [] 90000]
           (setup 0 0) H1 H2 H3 H4).
Defined.

(* ================================================================== *)
(** * Motor: outputs and ramp time *)
(* ================================================================== *)

Lemma emergencyStop_ok (step : Z) (m : Motor.t) :
  motor_ok step m -> motor_ok step (Motor.emergencyStop m).
Proof.
  intros (Hs & _ & _). unfold motor_ok. cbn [Motor.emergencyStop Motor.pwmStep
    Motor.targetPWM Motor.currentPWM]. lia.
Qed.

Lemma do_calls_ok (step : Z) (cs : list motor_call) :
  0 <= step <= INT_MAX - 255 ->
  forall m, motor_ok step m -> motor_ok step (do_calls cs m).
Proof.
  intros Hstep. induction cs as [|c r IH]; intros m H; [exact H|].
  apply IH. destruct c; cbn [do_call].
  - apply setTarget_ok, H.
  - apply update_ok; assumption.
  - apply emergencyStop_ok, H.
Qed.

Lemma update_pwm_ok (step : Z) (m : Motor.t) :
  0 <= step <= INT_MAX - 255 -> motor_ok step m ->
  0 <= fst (update_pwm m) <= 255 /\ 0 <= snd (update_pwm m) <= 255
  /\ (fst (update_pwm m) = 0 \/ snd (update_pwm m) = 0)
  /\ fst (update_pwm m) - snd (update_pwm m) = Motor.currentPWM (Motor.update m).
Proof.
  intros Hstep H. destruct (update_ok step Hstep m H) as (_ & _ & Hc).
  unfold update_pwm.
  destruct (Z.geb_spec (Motor.currentPWM (Motor.update m)) 0) as [G|G]; cbn [fst snd].
  - lia.
  - rewrite wrap32_id by (unfold INT_MIN, INT_MAX; lia). lia.
Qed.

(** X1. On a motor built with a step in [0, INT_MAX - 255], after any
    sequence of setTarget, update and emergencyStop calls, the two duty
    cycles the next update writes both lie in [0, 255], at most one of
    them is not 0, and forward minus reverse is the ramped
    [currentPWM]. *)
Theorem X1_update_drives_one_line :
  forall (step : Z) (cs : list motor_call),
    0 <= step <= INT_MAX - 255 ->
    0 <= fst (update_pwm (do_calls cs (Motor.ctor step))) <= 255
    /\ 0 <= snd (update_pwm (do_calls cs (Motor.ctor step))) <= 255
    /\ (fst (update_pwm (do_calls cs (Motor.ctor step))) = 0
        \/ snd (update_pwm (do_calls cs (Motor.ctor step))) = 0)
    /\ fst (update_pwm (do_calls cs (Motor.ctor step)))
       - snd (update_pwm (do_calls cs (Motor.ctor step)))
       = Motor.currentPWM (Motor.update (do_calls cs (Motor.ctor step))).
Proof.
  intros step cs Hstep.
  apply (update_pwm_ok step); [exact Hstep|].
  apply do_calls_ok; [exact Hstep | apply ctor_ok; exact Hstep].
Qed.

Lemma X1_witness :
  0 <= 5 <= INT_MAX - 255
  /\ fst (update_pwm (do_calls [CallSetTarget (-40); CallUpdate; CallUpdate]
                        (Motor.ctor 5)))
     - snd (update_pwm (do_calls [CallSetTarget (-40); CallUpdate; CallUpdate]
                          (Motor.ctor 5)))
     = Motor.currentPWM
         (Motor.update (do_calls [CallSetTarget (-40); CallUpdate; CallUpdate]
                          (Motor.ctor 5))).
Proof.
  assert (H : 0 <= 5 <= INT_MAX - 255) by (unfold INT_MAX; lia).
  split; [exact H|].
  exact (proj2 (proj2 (proj2 (X1_update_drives_one_line 5
           [CallSetTarget (-40); CallUpdate; CallUpdate] H)))).
Defined.

Lemma update_current (m : Motor.t) :
  in_range m ->
  Motor.currentPWM (Motor.update m)
  = if Motor.currentPWM m <=? Motor.targetPWM m
    then Z.min (Motor.currentPWM m + Motor.pwmStep m) (Motor.targetPWM m)
    else Z.max (Motor.currentPWM m - Motor.pwmStep m) (Motor.targetPWM m).
Proof.
  unfold in_range. intros (Hs & Ht & Hc). unfold INT_MIN, INT_MAX in *.
  unfold Motor.update; cbn [Motor.currentPWM].
  destruct (Z.ltb_spec (Motor.currentPWM m) (Motor.targetPWM m)) as [L|L].
  - rewrite wrap32_id by (unfold INT_MIN, INT_MAX; lia). unfold imin.
    destruct (Z.leb_spec (Motor.currentPWM m) (Motor.targetPWM m)); [|lia].
    destruct (Z.ltb_spec (Motor.currentPWM m + Motor.pwmStep m) (Motor.targetPWM m)); lia.
  - destruct (Z.gtb_spec (Motor.currentPWM m) (Motor.targetPWM m)) as [G|G].
    + rewrite wrap32_id by (unfold INT_MIN, INT_MAX; lia). unfold imax.
      destruct (Z.leb_spec (Motor.currentPWM m) (Motor.targetPWM m)); [lia|].
      destruct (Z.gtb_spec (Motor.currentPWM m - Motor.pwmStep m) (Motor.targetPWM m)); lia.
    + destruct (Z.leb_spec (Motor.currentPWM m) (Motor.targetPWM m)); lia.
Qed.

(** X2. With the target held, [n] calls of update on a motor with room
    for one step inside [int] leave [currentPWM] at exactly
    min(current + n*step, target) when it started at or below the target
    and at max(current - n*step, target) when it started above: the ramp
    takes ceil(|target - current| / step) calls, no more and no fewer. *)
Theorem X2_ramp_closed_form :
  forall (n : nat) (m : Motor.t),
    in_range m ->
    Motor.currentPWM (iter n Motor.update m)
    = if Motor.currentPWM m <=? Motor.targetPWM m
      then Z.min (Motor.currentPWM m + Z.of_nat n * Motor.pwmStep m) (Motor.targetPWM m)
      else Z.max (Motor.currentPWM m - Z.of_nat n * Motor.pwmStep m) (Motor.targetPWM m).
Proof.
  induction n as [|n IH]; intros m Hr.
  - cbn [iter]. change (Z.of_nat 0) with 0.
    destruct (Z.leb_spec (Motor.currentPWM m) (Motor.targetPWM m)); lia.
  - rewrite iter_S.
    destruct (update_closer m Hr) as (Hr' & Ht' & _).
    rewrite (IH _ Hr'), Ht', (update_current m Hr).
    assert (Hs : 0 < Motor.pwmStep m) by apply Hr.
    assert (Hp : Motor.pwmStep (Motor.update m) = Motor.pwmStep m) by reflexivity.
    rewrite Hp.
    assert (Hn : 0 <= Z.of_nat n * Motor.pwmStep m) by nia.
    rewrite Nat2Z.inj_succ.
    replace (Z.succ (Z.of_nat n) * Motor.pwmStep m)
      with (Z.of_nat n * Motor.pwmStep m + Motor.pwmStep m) by ring.
    set (k := Z.of_nat n * Motor.pwmStep m) in *.
    destruct (Z.leb_spec (Motor.currentPWM m) (Motor.targetPWM m)) as [L|L].
    + destruct (Z.leb_spec (Z.min (Motor.currentPWM m + Motor.pwmStep m)
                              (Motor.targetPWM m)) (Motor.targetPWM m)); lia.
    + destruct (Z.leb_spec (Z.max (Motor.currentPWM m - Motor.pwmStep m)
                              (Motor.targetPWM m)) (Motor.targetPWM m)); lia.
Qed.

Lemma X2_witness :
  in_range (Motor.mk 255 0 5)
  /\ Motor.currentPWM (iter 50 Motor.update (Motor.mk 255 0 5))
     = (if Motor.currentPWM (Motor.mk 255 0 5) <=? Motor.targetPWM (Motor.mk 255 0 5)
        then Z.min (Motor.currentPWM (Motor.mk 255 0 5)
                    + Z.of_nat 50 * Motor.pwmStep (Motor.mk 255 0 5))
                   (Motor.targetPWM (Motor.mk 255 0 5))
        else Z.max (Motor.currentPWM (Motor.mk 255 0 5)
                    - Z.of_nat 50 * Motor.pwmStep (Motor.mk 255 0 5))
                   (Motor.targetPWM (Motor.mk 255 0 5))).
Proof.
  assert (H : in_range (Motor.mk 255 0 5)).
  { unfold in_range, INT_MIN, INT_MAX. simpl. lia. }
  split; [exact H|].
  exact (X2_ramp_closed_form 50 (Motor.mk 255 0 5) H).
Defined.

(* ================================================================== *)
(** * The two channels feed one interpreter *)
(* ================================================================== *)

Lemma resetFailsafe_set_usb (now : Z) (b : list ascii) (i : Z) (g : Globals) :
  resetFailsafe now (set_usb b i g) = set_usb b i (resetFailsafe now g).
Proof.
  unfold resetFailsafe. cbn [failsafeTriggered set_failsafe set_usb].
  destruct (failsafeTriggered g); reflexivity.
Qed.

Lemma processCommand_set_usb (now : Z) (cmd b : list ascii) (i : Z) (g : Globals) :
  processCommand now cmd (set_usb b i g) = set_usb b i (processCommand now cmd g).
Proof.
  unfold processCommand. rewrite resetFailsafe_set_usb.
  destruct (Ascii.eqb (rd cmd 0) "S").
  - destruct ((code (rd cmd 1) - code "1" >=? 0)
              && (code (rd cmd 1) - code "1" <? ServoController.numServos));
      reflexivity.
  - destruct (strtok (cstr cmd)) as [[token rest]|]; [|reflexivity].
    destruct (strtok rest) as [[token' rest']|]; reflexivity.
Qed.

Lemma processAll_set_usb (batch : list (Z * list ascii)) (b : list ascii) (i : Z) :
  forall g, processAll batch (set_usb b i g) = set_usb b i (processAll batch g).
Proof.
  induction batch as [|f r IH]; intros g; [reflexivity|].
  rewrite !processAll_cons, processCommand_set_usb. apply IH.
Qed.

Lemma readInputs_batch :
  forall (usb radio : list byte_in) (g : Globals),
    channel_ok (usbBuffer g) (usbIndex g) ->
    channel_ok (radioBuffer g) (radioIndex g) ->
    readInputs usb radio g
    = Some (after_inputs
              (frames usb (usbBuffer g) (usbIndex g)
               ++ frames radio (radioBuffer g) (radioIndex g))
              (fst (channel_after usb (usbBuffer g) (usbIndex g)))
              (snd (channel_after usb (usbBuffer g) (usbIndex g)))
              (fst (channel_after radio (radioBuffer g) (radioIndex g)))
              (snd (channel_after radio (radioBuffer g) (radioIndex g)))
              g).
Proof.
  intros usb radio g Hu Hr.
  destruct (readInputs_spec usb radio g Hu Hr) as (E & _).
  rewrite E. unfold after_inputs.
  rewrite processAll_app, processAll_set_usb. reflexivity.
Qed.

(** X3. One pass of the input stage over well-formed line buffers is the
    interpreter run over the lines framed from the USB stream followed by
    those framed from the radio stream, in that order, on the state as it
    was; only the two line buffers and fill indices differ, the buffers
    being as the last dispatch left them, with the delimiters [strtok]
    consumed overwritten by NUL. So of two conflicting commands arriving
    in one pass, the radio's is applied last. *)
Theorem X3_inputs_usb_then_radio :
  forall (usb radio : list byte_in) (g : Globals),
    channel_ok (usbBuffer g) (usbIndex g) ->
    channel_ok (radioBuffer g) (radioIndex g) ->
    readInputs usb radio g
    = Some (after_inputs
              (frames usb (usbBuffer g) (usbIndex g)
               ++ frames radio (radioBuffer g) (radioIndex g))
              (fst (channel_after usb (usbBuffer g) (usbIndex g)))
              (snd (channel_after usb (usbBuffer g) (usbIndex g)))
              (fst (channel_after radio (radioBuffer g) (radioIndex g)))
              (snd (channel_after radio (radioBuffer g) (radioIndex g)))
              g).
Proof. exact readInputs_batch. Qed.

Lemma X3_witness :
  channel_ok (usbBuffer (setup 0 0)) (usbIndex (setup 0 0))
  /\ channel_ok (radioBuffer (setup 0 0)) (radioIndex (setup 0 0))
  /\ exists g',
       readInputs (stream_of_lines 3 ["10,10"%string])
                  (stream_of_lines 3 ["-20,0"%string]) (setup 0 0) = Some g'
       /\ Motor.targetPWM (leftMotor g') = -20
       /\ firstn 6 (usbBuffer g')
          = list_ascii_of_string "10" ++ NUL :: list_ascii_of_string "10" ++ [NUL].
Proof.
  assert (H1 : channel_ok (usbBuffer (setup 0 0)) (usbIndex (setup 0 0)))
    by (split; [reflexivity | unfold MAX_CMD_LEN; cbn; lia]).
  assert (H2 : channel_ok (radioBuffer (setup 0 0)) (radioIndex (setup 0 0)))
    by (split; [reflexivity | unfold MAX_CMD_LEN; cbn; lia]).
  split; [exact H1|]. split; [exact H2|].
  eexists. split.
  - exact (X3_inputs_usb_then_radio (stream_of_lines 3 ["10,10"%string])
             (stream_of_lines 3 ["-20,0"%string]) (setup 0 0) H1 H2).
  - split; vm_compute; reflexivity.
Defined.

Lemma after_inputs_fields (batch : list (Z * list ascii))
    (bu : list ascii) (iu : Z) (br : list ascii) (ir : Z) (g : Globals) :
  actuators (after_inputs batch bu iu br ir g) = actuators (processAll batch g)
  /\ failsafeTriggered (after_inputs batch bu iu br ir g)
     = failsafeTriggered (processAll batch g)
  /\ lastCommandTime (after_inputs batch bu iu br ir g)
     = lastCommandTime (processAll batch g)
  /\ events (after_inputs batch bu iu br ir g) = events (processAll batch g).
Proof. repeat split; reflexivity. Qed.

Lemma Some_inj {A : Type} (x y : A) : Some x = Some y -> x = y.
Proof. intros H. injection H. auto. Qed.

(** The state [loop] reaches after its input stage. *)
Lemma loop_after_inputs (c : cycle) (g g' : Globals) :
  wf g -> loop c g = Some g' ->
  exists bu iu br ir l,
    let g1 := after_inputs (batch_of (cy_usb c) (cy_radio c) g) bu iu br ir g in
    let g4 := updateServos (cy_now c)
                (updateMotors (cy_now c) (failsafeCheck (cy_now c) g1)) in
    g' = set_led_comms l (serialCommunicationFlag g4) g4.
Proof.
  intros (Hu & Hr & _) E. unfold loop in E.
  rewrite (readInputs_batch _ _ g Hu Hr) in E.
  fold (batch_of (cy_usb c) (cy_radio c) g) in E.
  match type of E with
  | context [LedController.update ?a ?b ?c ?d ?e ?f] =>
      destruct (LedController.update a b c d e f) as [[l w]|]; [|discriminate]
  end.
  apply Some_inj in E. subst g'.
  exists (fst (channel_after (cy_usb c) (usbBuffer g) (usbIndex g))),
         (snd (channel_after (cy_usb c) (usbBuffer g) (usbIndex g))),
         (fst (channel_after (cy_radio c) (radioBuffer g) (radioIndex g))),
         (snd (channel_after (cy_radio c) (radioBuffer g) (radioIndex g))), l.
  reflexivity.
Qed.

(* ================================================================== *)
(** * The motors inside the loop *)
(* ================================================================== *)

Lemma processCommand_motors (now : Z) (cmd : list ascii) (g : Globals) :
  motors_ok g ->
  motors_ok (processCommand now cmd g)
  /\ Motor.currentPWM (leftMotor (processCommand now cmd g))
     = Motor.currentPWM (leftMotor g)
  /\ Motor.currentPWM (rightMotor (processCommand now cmd g))
     = Motor.currentPWM (rightMotor g).
Proof.
  intros (Hl & Hr).
  destruct (resetFailsafe_fields now g) as (_ & _ & _ & H4 & _).
  unfold actuators in H4.
  assert (El : leftMotor (resetFailsafe now g) = leftMotor g) by congruence.
  assert (Er : rightMotor (resetFailsafe now g) = rightMotor g) by congruence.
  unfold motors_ok.
  destruct (processCommand_cases now cmd g) as [E | [(i & v & E) | (l & r & E)]];
    rewrite E; cbn [leftMotor rightMotor set_servoCommands set_motors];
    rewrite ?El, ?Er.
  - auto.
  - auto.
  - split; [split; apply setTarget_ok; assumption | split; reflexivity].
Qed.

Lemma processAll_motors (batch : list (Z * list ascii)) :
  forall g,
    motors_ok g ->
    motors_ok (processAll batch g)
    /\ Motor.currentPWM (leftMotor (processAll batch g))
       = Motor.currentPWM (leftMotor g)
    /\ Motor.currentPWM (rightMotor (processAll batch g))
       = Motor.currentPWM (rightMotor g).
Proof.
  induction batch as [|f r IH]; intros g H; [auto|].
  rewrite processAll_cons.
  destruct (processCommand_motors (fst f) (snd f) g H) as (H1 & Hl & Hr).
  destruct (IH _ H1) as (H2 & Hl' & Hr').
  split; [exact H2|]. split; congruence.
Qed.

Lemma failsafeCheck_motors (now : Z) (g : Globals) :
  failsafeCheck now g = g
  \/ (failsafeTriggered (failsafeCheck now g) = true
      /\ leftMotor (failsafeCheck now g) = Motor.emergencyStop (leftMotor g)
      /\ rightMotor (failsafeCheck now g) = Motor.emergencyStop (rightMotor g)).
Proof.
  destruct (failsafeCheck_cases now g) as [E | (_ & _ & E)]; [left; exact E|].
  right. rewrite E. repeat split; reflexivity.
Qed.

Lemma updateMotors_motors (now : Z) (g : Globals) :
  (leftMotor (updateMotors now g) = leftMotor g
   /\ rightMotor (updateMotors now g) = rightMotor g)
  \/ (leftMotor (updateMotors now g) = Motor.update (leftMotor g)
      /\ rightMotor (updateMotors now g) = Motor.update (rightMotor g)).
Proof.
  destruct (updateMotors_cases now g) as [-> | ->]; [left | right]; split; reflexivity.
Qed.

Lemma updateServos_motors (now : Z) (g : Globals) :
  leftMotor (updateServos now g) = leftMotor g
  /\ rightMotor (updateServos now g) = rightMotor g.
Proof.
  destruct (updateServos_cases now g) as [-> | ->]; split; reflexivity.
Qed.

(** How one motor fares through the stages of a pass that follow the
    input stage. *)
Lemma motor_through_pass (m1 m2 m3 : Motor.t) (tripped : bool) :
  motor_ok Motor.default_step m1 ->
  (m2 = m1 \/ (tripped = true /\ m2 = Motor.emergencyStop m1)) ->
  (m3 = m2 \/ m3 = Motor.update m2) ->
  motor_ok Motor.default_step m3
  /\ (Z.abs (Motor.currentPWM m3 - Motor.currentPWM m1) <= Motor.default_step
      \/ (tripped = true /\ Motor.currentPWM m3 = 0 /\ Motor.targetPWM m3 = 0)).
Proof.
  intros H1 H2 H3.
  assert (Hstep : 0 <= Motor.default_step <= INT_MAX - 255)
    by (unfold Motor.default_step, INT_MAX; lia).
  destruct H2 as [-> | (Ht & ->)].
  - destruct H3 as [-> | ->].
    + split; [exact H1|]. left. unfold Motor.default_step. lia.
    + split; [apply update_ok; assumption|]. left.
      apply (update_step _ Hstep m1 H1).
  - assert (H2 : motor_ok Motor.default_step (Motor.emergencyStop m1))
      by (apply emergencyStop_ok, H1).
    destruct H3 as [-> | ->].
    + split; [exact H2|]. right. split; [exact Ht|]. split; reflexivity.
    + split; [apply update_ok; assumption|]. right.
      split; [exact Ht|].
      destruct (motor_update_idle (Motor.emergencyStop m1) eq_refl eq_refl). auto.
Qed.

Lemma loop_motors (c : cycle) (g g' : Globals) :
  wf g -> motors_ok g -> loop c g = Some g' ->
  motors_ok g'
  /\ (Z.abs (Motor.currentPWM (leftMotor g') - Motor.currentPWM (leftMotor g)) <= 5
      \/ (failsafeTriggered g' = true
          /\ Motor.currentPWM (leftMotor g') = 0 /\ Motor.targetPWM (leftMotor g') = 0))
  /\ (Z.abs (Motor.currentPWM (rightMotor g') - Motor.currentPWM (rightMotor g)) <= 5
      \/ (failsafeTriggered g' = true
          /\ Motor.currentPWM (rightMotor g') = 0 /\ Motor.targetPWM (rightMotor g') = 0)).
Proof.
  intros Hwf Hm E.
  destruct (loop_after_inputs c g g' Hwf E) as (bu & iu & br & ir & l & Eg).
  cbv zeta in Eg.
  set (g1 := after_inputs (batch_of (cy_usb c) (cy_radio c) g) bu iu br ir g) in *.
  set (g2 := failsafeCheck (cy_now c) g1) in *.
  set (g3 := updateMotors (cy_now c) g2) in *.
  set (g4 := updateServos (cy_now c) g3) in *.
  destruct (processAll_motors (batch_of (cy_usb c) (cy_radio c) g) g Hm)
    as ((Ml & Mr) & Cl & Cr).
  assert (L1 : leftMotor g1 = leftMotor (processAll (batch_of (cy_usb c) (cy_radio c) g) g))
    by reflexivity.
  assert (R1 : rightMotor g1 = rightMotor (processAll (batch_of (cy_usb c) (cy_radio c) g) g))
    by reflexivity.
  rewrite <- L1 in Ml, Cl. rewrite <- R1 in Mr, Cr.
  assert (F : failsafeTriggered g' = failsafeTriggered g2).
  { rewrite Eg. cbn [failsafeTriggered set_led_comms]. subst g4 g3.
    destruct (updateServos_keeps (cy_now c) (updateMotors (cy_now c) g2))
      as (_ & _ & _ & T4 & _).
    destruct (updateMotors_keeps (cy_now c) g2) as (_ & _ & _ & T3 & _).
    congruence. }
  assert (L4 : leftMotor g' = leftMotor g3 /\ rightMotor g' = rightMotor g3).
  { rewrite Eg. cbn [leftMotor rightMotor set_led_comms].
    subst g4. apply updateServos_motors. }
  destruct L4 as (L4 & R4).
  assert (S2 : (leftMotor g2 = leftMotor g1
                \/ (failsafeTriggered g2 = true
                    /\ leftMotor g2 = Motor.emergencyStop (leftMotor g1)))
               /\ (rightMotor g2 = rightMotor g1
                   \/ (failsafeTriggered g2 = true
                       /\ rightMotor g2 = Motor.emergencyStop (rightMotor g1)))).
  { subst g2. destruct (failsafeCheck_motors (cy_now c) g1) as [-> | (T & A & B)].
    - split; left; reflexivity.
    - split; right; split; assumption. }
  destruct S2 as (S2l & S2r).
  assert (S3 : (leftMotor g3 = leftMotor g2 \/ leftMotor g3 = Motor.update (leftMotor g2))
               /\ (rightMotor g3 = rightMotor g2
                   \/ rightMotor g3 = Motor.update (rightMotor g2))).
  { subst g3. destruct (updateMotors_motors (cy_now c) g2) as [(A & B) | (A & B)];
      split; auto. }
  destruct S3 as (S3l & S3r).
  destruct (motor_through_pass _ _ _ (failsafeTriggered g2) Ml S2l S3l) as (Ol & Dl).
  destruct (motor_through_pass _ _ _ (failsafeTriggered g2) Mr S2r S3r) as (Or & Dr).
  unfold motors_ok. rewrite L4, R4, F, <- Cl, <- Cr.
  unfold Motor.default_step in Dl, Dr.
  split; [split; assumption|]. split; assumption.
Qed.

Lemma setup_motors (srsr now : Z) : motors_ok (setup srsr now).
Proof.
  unfold setup. destruct (negb (Z.land srsr 32 =? 0));
    split; unfold motor_ok; cbn; lia.
Qed.

Lemma run_loop_motors (cs : list cycle) :
  forall g, wf g -> motors_ok g ->
    exists g', run_loop cs g = Some g' /\ wf g' /\ motors_ok g'.
Proof.
  induction cs as [|c r IH]; intros g Hwf Hm.
  - exists g. auto.
  - rewrite run_loop_cons.
    destruct (loop_keeps c g Hwf) as (g1 & E & W1 & _). rewrite E.
    apply IH; [exact W1|]. apply (loop_motors c g g1 Hwf Hm E).
Qed.

(** X4. In every state the loop reaches from [setup], whatever bytes and
    clock readings it is fed, both motors keep their step of 5 and have
    target and current within [-255, 255], so the duty cycles written fit
    the 8-bit PWM resolution set in [begin]. *)
Theorem X4_motors_stay_in_range :
  forall (srsr now : Z) (cs : list cycle),
  exists g,
    run_loop cs (setup srsr now) = Some g
    /\ Motor.pwmStep (leftMotor g) = 5 /\ Motor.pwmStep (rightMotor g) = 5
    /\ -255 <= Motor.targetPWM (leftMotor g) <= 255
    /\ -255 <= Motor.currentPWM (leftMotor g) <= 255
    /\ -255 <= Motor.targetPWM (rightMotor g) <= 255
    /\ -255 <= Motor.currentPWM (rightMotor g) <= 255
    /\ 0 <= fst (update_pwm (leftMotor g)) <= 255
    /\ 0 <= snd (update_pwm (leftMotor g)) <= 255
    /\ 0 <= fst (update_pwm (rightMotor g)) <= 255
    /\ 0 <= snd (update_pwm (rightMotor g)) <= 255.
Proof.
  intros srsr now cs.
  destruct (setup_wf srsr now) as (W & _).
  destruct (run_loop_motors cs _ W (setup_motors srsr now)) as (g & E & _ & Ml & Mr).
  assert (Hstep : 0 <= Motor.default_step <= INT_MAX - 255)
    by (unfold Motor.default_step, INT_MAX; lia).
  destruct (update_pwm_ok _ _ Hstep Ml) as (A1 & A2 & _).
  destruct (update_pwm_ok _ _ Hstep Mr) as (B1 & B2 & _).
  destruct Ml as (Sl & Tl & Cl), Mr as (Sr & Tr & Cr).
  exists g. unfold Motor.default_step in *. tauto.
Qed.

(** X5. A dispatched line never moves [currentPWM]: only the
    rate-limited update and the failsafe do. Hence over one pass of
    [loop], from a well-formed state with the motors in range, each
    motor's [currentPWM] changes by at most 5, unless the pass ends
    tripped with that motor at target 0 and current 0. *)
Theorem X5_slew_per_pass :
  (forall (now : Z) (cmd : list ascii) (g : Globals),
      Motor.currentPWM (leftMotor (processCommand now cmd g))
      = Motor.currentPWM (leftMotor g)
      /\ Motor.currentPWM (rightMotor (processCommand now cmd g))
         = Motor.currentPWM (rightMotor g))
  /\ (forall (c : cycle) (g : Globals),
        wf g -> motors_ok g ->
        exists g',
          loop c g = Some g'
          /\ (Z.abs (Motor.currentPWM (leftMotor g') - Motor.currentPWM (leftMotor g)) <= 5
              \/ (failsafeTriggered g' = true
                  /\ Motor.currentPWM (leftMotor g') = 0
                  /\ Motor.targetPWM (leftMotor g') = 0))
          /\ (Z.abs (Motor.currentPWM (rightMotor g') - Motor.currentPWM (rightMotor g)) <= 5
              \/ (failsafeTriggered g' = true
                  /\ Motor.currentPWM (rightMotor g') = 0
                  /\ Motor.targetPWM (rightMotor g') = 0))).
Proof.
  split.
  - intros now cmd g.
    destruct (resetFailsafe_fields now g) as (_ & _ & _ & H4 & _).
    unfold actuators in H4.
    assert (El : leftMotor (resetFailsafe now g) = leftMotor g) by congruence.
    assert (Er : rightMotor (resetFailsafe now g) = rightMotor g) by congruence.
    destruct (processCommand_cases now cmd g) as [E | [(i & v & E) | (l & r & E)]];
      rewrite E; cbn [leftMotor rightMotor set_servoCommands set_motors
                      Motor.setTarget Motor.currentPWM];
      rewrite ?El, ?Er; split; reflexivity.
  - intros c g Hwf Hm.
    destruct (loop_keeps c g Hwf) as (g' & E & _).
    exists g'. split; [exact E|]. apply (loop_motors c g g' Hwf Hm E).
Qed.

Lemma X5_witness :
  wf (setup 0 0) /\ motors_ok (setup 0 0)
  /\ exists g',
       loop (mkCycle 10 (stream_of_lines 10 ["200,-200"%string]) [] 10) (setup 0 0)
       = Some g'
       /\ (Z.abs (Motor.currentPWM (leftMotor g')
                  - Motor.currentPWM (leftMotor (setup 0 0))) <= 5
           \/ (failsafeTriggered g' = true
               /\ Motor.currentPWM (leftMotor g') = 0
               /\ Motor.targetPWM (leftMotor g') = 0))
       /\ (Z.abs (Motor.currentPWM (rightMotor g')
                  - Motor.currentPWM (rightMotor (setup 0 0))) <= 5
           \/ (failsafeTriggered g' = true
               /\ Motor.currentPWM (rightMotor g') = 0
               /\ Motor.targetPWM (rightMotor g') = 0)).
Proof.
  assert (H1 : wf (setup 0 0)).
  { repeat split; try reflexivity; cbn; try lia; auto. }
  assert (H2 : motors_ok (setup 0 0)) by (split; unfold motor_ok; cbn; lia).
  split; [exact H1|]. split; [exact H2|].
  exact (proj2 X5_slew_per_pass
           (mkCycle 10 (stream_of_lines 10 ["200,-200"%string]) [] 10)
           (setup 0 0) H1 H2).
Defined.

(* ================================================================== *)
(** * The failsafe clock *)
(* ================================================================== *)

Lemma usub32_elapsed (t d : Z) :
  0 <= d < 4294967296 -> usub32 ((t + d) mod 4294967296) t = d.
Proof.
  intros Hd. unfold usub32.
  rewrite Zminus_mod_idemp_l.
  replace (t + d - t) with d by ring.
  apply Z.mod_small. exact Hd.
Qed.

(** X6. The failsafe block measures elapsed time correctly across the
    wrap of the 32-bit millisecond counter: untripped, with the clock
    [d] ms past [lastCommandTime] modulo 2^32 and [d] below 2^32, it does
    nothing when [d <= 500] and trips when [d > 500]. *)
Theorem X6_failsafe_survives_clock_wrap :
  forall (g : Globals) (d : Z),
    0 <= d < 4294967296 ->
    failsafeTriggered g = false ->
    (d <= FAILSAFE_TIMEOUT ->
       failsafeCheck ((lastCommandTime g + d) mod 4294967296) g = g)
    /\ (d > FAILSAFE_TIMEOUT ->
          failsafeTriggered
            (failsafeCheck ((lastCommandTime g + d) mod 4294967296) g) = true
          /\ events (failsafeCheck ((lastCommandTime g + d) mod 4294967296) g)
             = events g ++ [SAFE_FAILSAFE_TRIGGER]
          /\ Motor.currentPWM
               (leftMotor (failsafeCheck ((lastCommandTime g + d) mod 4294967296) g)) = 0
          /\ Motor.currentPWM
               (rightMotor (failsafeCheck ((lastCommandTime g + d) mod 4294967296) g)) = 0).
Proof.
  intros g d Hd Hf.
  pose proof (usub32_elapsed (lastCommandTime g) d Hd) as E.
  split; intros H.
  - unfold failsafeCheck. rewrite Hf, E.
    destruct (Z.gtb_spec d FAILSAFE_TIMEOUT); [lia | reflexivity].
  - destruct (failsafeCheck_cases ((lastCommandTime g + d) mod 4294967296) g)
      as [C | (_ & _ & C)].
    + exfalso. unfold failsafeCheck in C. rewrite Hf, E in C.
      destruct (Z.gtb_spec d FAILSAFE_TIMEOUT); [|lia].
      cbn [negb andb] in C.
      apply (f_equal failsafeTriggered) in C. rewrite Hf in C. discriminate C.
    + rewrite C. repeat split; reflexivity.
Qed.

Lemma X6_witness :
  0 <= 501 < 4294967296
  /\ failsafeTriggered (processCommand 4294967000 (list_ascii_of_string "S1L") (setup 0 0))
     = false
  /\ failsafeTriggered
       (failsafeCheck
          ((lastCommandTime
              (processCommand 4294967000 (list_ascii_of_string "S1L") (setup 0 0))
            + 501) mod 4294967296)
          (processCommand 4294967000 (list_ascii_of_string "S1L") (setup 0 0)))
     = true.
Proof.
  assert (H1 : 0 <= 501 < 4294967296) by lia.
  assert (H2 : failsafeTriggered
                 (processCommand 4294967000 (list_ascii_of_string "S1L") (setup 0 0))
               = false) by reflexivity.
  assert (H3 : 501 > FAILSAFE_TIMEOUT) by (unfold FAILSAFE_TIMEOUT; lia).
  split; [exact H1|]. split; [exact H2|].
  exact (proj1 (proj2 (X6_failsafe_survives_clock_wrap _ 501 H1 H2) H3)).
Defined.

(** X7. The clock read at the top of a pass is older than the one a
    dispatch stores. When the last line dispatched in a pass is stamped
    with a clock [t] for which (now - t) mod 2^32 exceeds 500 - any [t]
    later than [now] by up to 2^32 - 501 ms does - the failsafe block of
    that same pass trips: the pass ends tripped and stopped, with
    SAFE_FAILSAFE_TRIGGER as its last event, although a command has just
    been received. *)
Theorem X7_stale_clock_trips :
  forall (c : cycle) (g : Globals),
    wf g ->
    batch_of (cy_usb c) (cy_radio c) g <> [] ->
    usub32 (cy_now c) (last (map fst (batch_of (cy_usb c) (cy_radio c) g)) 0)
      > FAILSAFE_TIMEOUT ->
    exists g',
      loop c g = Some g'
      /\ lastCommandTime g' = last (map fst (batch_of (cy_usb c) (cy_radio c) g)) 0
      /\ failsafeTriggered g' = true
      /\ stopped g'
      /\ exists ev, events g' = ev ++ [SAFE_FAILSAFE_TRIGGER].
Proof.
  intros c g Hwf Hne Hlate.
  destruct (loop_keeps c g Hwf) as (g' & E & _).
  exists g'. split; [exact E|].
  destruct (loop_after_inputs c g g' Hwf E) as (bu & iu & br & ir & l & Eg).
  cbv zeta in Eg.
  set (batch := batch_of (cy_usb c) (cy_radio c) g) in *.
  set (g1 := after_inputs batch bu iu br ir g) in *.
  destruct (processAll_failsafe batch g) as (P1 & _ & P3).
  destruct (processAll_fields batch g) as (_ & P5 & _ & _ & _ & P6).
  destruct Hwf as (_ & _ & Hc & Hs & _).
  assert (F1 : failsafeTriggered g1 = false).
  { change (failsafeTriggered (processAll batch g) = false). rewrite P1.
    destruct batch; [contradiction | reflexivity]. }
  assert (T1 : lastCommandTime g1 = last (map fst batch) 0).
  { change (lastCommandTime (processAll batch g) = last (map fst batch) 0).
    rewrite P3. destruct batch as [|f r]; [contradiction|].
    cbn [map]. apply last_cons_default. }
  assert (C1 : List.length (servoCommands g1) = 6%nat).
  { change (List.length (servoCommands (processAll batch g)) = 6%nat). congruence. }
  assert (S1 : List.length (ServoController.speeds (controller g1)) = 6%nat).
  { change (List.length (ServoController.speeds (controller (processAll batch g)))
            = 6%nat). congruence. }
  assert (L1 : usub32 (cy_now c) (lastCommandTime g1) > FAILSAFE_TIMEOUT)
    by (rewrite T1; exact Hlate).
  destruct (failsafeCheck_trip (cy_now c) g1 C1 S1 F1 L1) as (Z1 & Z2 & Z3 & _).
  assert (T2 : lastCommandTime (failsafeCheck (cy_now c) g1) = lastCommandTime g1).
  { destruct (failsafeCheck_cases (cy_now c) g1) as [-> | (_ & _ & ->)]; reflexivity. }
  set (g2 := failsafeCheck (cy_now c) g1) in *.
  destruct (updateMotors_keeps (cy_now c) g2) as (_ & _ & S3 & T3 & V3).
  assert (U3 : lastCommandTime (updateMotors (cy_now c) g2) = lastCommandTime g2).
  { destruct (updateMotors_cases (cy_now c) g2) as [-> | ->]; reflexivity. }
  set (g3 := updateMotors (cy_now c) g2) in *.
  destruct (updateServos_keeps (cy_now c) g3) as (_ & _ & S4 & T4 & V4).
  assert (U4 : lastCommandTime (updateServos (cy_now c) g3) = lastCommandTime g3).
  { destruct (updateServos_cases (cy_now c) g3) as [-> | ->]; reflexivity. }
  set (g4 := updateServos (cy_now c) g3) in *.
  rewrite Eg. cbn [lastCommandTime failsafeTriggered events set_led_comms].
  split; [congruence|]. split; [congruence|].
  split; [exact (S4 (S3 Z1))|].
  exists (events g1). congruence.
Qed.

Lemma X7_witness :
  wf (setup 0 0)
  /\ batch_of (stream_of_lines 101 ["10,10"%string]) [] (setup 0 0) <> []
  /\ usub32 100 (last (map fst (batch_of (stream_of_lines 101 ["10,10"%string]) []
                                  (setup 0 0))) 0) > FAILSAFE_TIMEOUT
  /\ exists g',
      loop (mkCycle 100 (stream_of_lines 101 ["10,10"%string]) [] 101) (setup 0 0)
      = Some g'
      /\ lastCommandTime g'
         = last (map fst (batch_of (stream_of_lines 101 ["10,10"%string]) []
                            (setup 0 0))) 0
      /\ failsafeTriggered g' = true
      /\ stopped g'
      /\ exists ev, events g' = ev ++ [SAFE_FAILSAFE_TRIGGER].
Proof.
  assert (H1 : wf (setup 0 0)).
  { repeat split; try reflexivity; cbn; try lia; auto. }
  assert (H2 : batch_of (stream_of_lines 101 ["10,10"%string]) [] (setup 0 0) <> [])
    by (vm_compute; discriminate).
  assert (H3 : usub32 100 (last (map fst (batch_of (stream_of_lines 101 ["10,10"%string])
                                            [] (setup 0 0))) 0) > FAILSAFE_TIMEOUT)
    by (vm_compute; reflexivity).
  split; [exact H1|]. split; [exact H2|]. split; [exact H3|].
  exact (X7_stale_clock_trips
           (mkCycle 100 (stream_of_lines 101 ["10,10"%string]) [] 101)
           (setup 0 0) H1 H2 H3).
Defined.

(* ================================================================== *)
(** * binary32: mantissa width *)
(* ================================================================== *)

Lemma digits2_bound (m : positive) : Z.pos m < 2 ^ Z.pos (digits2_pos m).
Proof.
  induction m as [p IH|p IH|]; cbn [digits2_pos].
  - rewrite Pos2Z.inj_succ, Z.pow_succ_r by lia. lia.
  - rewrite Pos2Z.inj_succ, Z.pow_succ_r by lia. lia.
  - reflexivity.
Qed.

Lemma shr_1_digits (r : shr_record) :
  0 <= shr_m r ->
  0 <= shr_m (shr_1 r)
  /\ Zdigits2 (shr_m (shr_1 r)) = Z.max 0 (Zdigits2 (shr_m r) - 1).
Proof.
  destruct r as [m b s]. cbn [shr_m]. intros H.
  destruct m as [|p|p]; [| |lia].
  - cbn. lia.
  - destruct p as [q|q|]; cbn [shr_1 shr_m Zdigits2 digits2_pos];
      rewrite ?Pos2Z.inj_succ; lia.
Qed.

Lemma iter_shr_1_digits (p : positive) :
  forall r,
    0 <= shr_m r ->
    0 <= shr_m (iter_pos shr_1 p r)
    /\ Zdigits2 (shr_m (iter_pos shr_1 p r))
       = Z.max 0 (Zdigits2 (shr_m r) - Z.pos p).
Proof.
  induction p as [q IH|q IH|]; intros r Hr; cbn [iter_pos].
  - destruct (shr_1_digits r Hr) as (H1 & D1).
    destruct (IH _ H1) as (H2 & D2).
    destruct (IH _ H2) as (H3 & D3).
    split; [exact H3|]. rewrite D3, D2, D1. lia.
  - destruct (IH _ Hr) as (H2 & D2).
    destruct (IH _ H2) as (H3 & D3).
    split; [exact H3|]. rewrite D3, D2. lia.
  - apply shr_1_digits, Hr.
Qed.

Lemma Zdigits2_nonneg (m : Z) : 0 <= Zdigits2 m.
Proof. destruct m; cbn; lia. Qed.

Lemma shr_fexp_digits (prec emax m e : Z) (l : location) :
  0 <= prec -> 0 <= m ->
  Zdigits2 (shr_m (fst (shr_fexp prec emax m e l))) <= prec.
Proof.
  intros Hp Hm. unfold shr_fexp, shr.
  pose proof (shr_record_of_loc_m m l) as Em.
  assert (Hn : Zdigits2 m - prec <= fexp prec emax (Zdigits2 m + e) - e)
    by (unfold fexp; lia).
  destruct (fexp prec emax (Zdigits2 m + e) - e) as [|p|p] eqn:En; cbn [fst].
  - rewrite Em. lia.
  - destruct (iter_shr_1_digits p (shr_record_of_loc m l)) as (_ & D);
      [rewrite Em; exact Hm|].
    rewrite D, Em. lia.
  - rewrite Em. lia.
Qed.

Lemma binary_round_aux_mant (sx : bool) (mx ex : Z) (lx : location) :
  0 <= mx -> mant_ok (binary_round_aux F32.prec F32.emax sx mx ex lx).
Proof.
  intros H. unfold binary_round_aux.
  pose proof (shr_fexp_nonneg F32.prec F32.emax mx ex lx H) as H1.
  destruct (shr_fexp F32.prec F32.emax mx ex lx) as [mrs' e']. cbn [fst] in H1.
  pose proof (round_nearest_even_nonneg _ (loc_of_shr_record mrs') H1) as H2.
  pose proof (shr_fexp_digits F32.prec F32.emax
                (round_nearest_even (shr_m mrs') (loc_of_shr_record mrs'))
                e' loc_Exact) as D.
  destruct (shr_fexp F32.prec F32.emax
              (round_nearest_even (shr_m mrs') (loc_of_shr_record mrs')) e' loc_Exact)
    as [mrs'' e'']. cbn [fst] in D.
  destruct (shr_m mrs'') as [|p|p]; cbn [mant_ok]; auto.
  destruct (e'' <=? F32.emax - F32.prec); cbn [mant_ok]; auto.
  apply D; [unfold F32.prec; lia | exact H2].
Qed.

Lemma binary_normalize_mant (m e : Z) (sz : bool) :
  mant_ok (binary_normalize F32.prec F32.emax m e sz).
Proof.
  unfold binary_normalize, binary_round. destruct m as [|p|p]; [exact I| |].
  - destruct (shl_align p e (fexp F32.prec F32.emax (Z.pos (digits2_pos p) + e))).
    apply binary_round_aux_mant. lia.
  - destruct (shl_align p e (fexp F32.prec F32.emax (Z.pos (digits2_pos p) + e))).
    apply binary_round_aux_mant. lia.
Qed.

Lemma add_mant (a b : F32.t) : mant_ok a -> mant_ok b -> mant_ok (F32.add a b).
Proof.
  intros Ha Hb. unfold F32.add.
  destruct a as [sa|sa| |sa ma ea], b as [sb|sb| |sb mb eb];
    cbn [SFadd]; auto; try exact I.
  - destruct sa, sb; exact I.
  - destruct sa, sb; exact I.
  - apply binary_normalize_mant.
Qed.

Lemma sub_mant (a b : F32.t) : mant_ok a -> mant_ok b -> mant_ok (F32.sub a b).
Proof.
  intros Ha Hb. unfold F32.sub.
  destruct a as [sa|sa| |sa ma ea], b as [sb|sb| |sb mb eb];
    cbn [SFsub]; auto; try exact I.
  - destruct sa, sb; exact I.
  - destruct sa, sb; exact I.
  - apply binary_normalize_mant.
Qed.

Lemma mul_mant (a b : F32.t) : mant_ok (F32.mul a b).
Proof.
  unfold F32.mul.
  destruct a as [sa|sa| |sa ma ea], b as [sb|sb| |sb mb eb];
    cbn [SFmul]; try exact I.
  apply binary_round_aux_mant. lia.
Qed.

Lemma ramp_mant (s tgt up down : F32.t) :
  mant_ok s -> mant_ok tgt -> mant_ok up -> mant_ok down ->
  mant_ok (ServoController.ramp s tgt up down).
Proof.
  intros Hs Ht Hu Hd. unfold ServoController.ramp, F32.fmin, F32.fmax.
  destruct (F32.ltb s tgt).
  - destruct (F32.ltb (F32.add s up) tgt); [apply add_mant|]; assumption.
  - destruct (F32.gtb s tgt); [|exact Hs].
    destruct (F32.gtb (F32.sub s down) tgt); [apply sub_mant|]; assumption.
Qed.

Lemma targetSpeed_mant (sc : ServoController.t) (i : nat) (c : ascii) :
  mant_ok (ServoController.targetSpeed sc i c).
Proof.
  unfold ServoController.targetSpeed.
  destruct (Ascii.eqb c "L"); [apply mul_mant|].
  destruct (Ascii.eqb c "R"); [apply mul_mant | exact I].
Qed.

Lemma fconstrain_mant (x : F32.t) : mant_ok x -> mant_ok (F32.fconstrain x 0 180).
Proof.
  intros H. unfold F32.fconstrain.
  destruct (F32.ltb x (F32.of_Z 0)); [exact I|].
  destruct (F32.gtb x (F32.of_Z 180)); [|exact H].
  vm_compute. discriminate.
Qed.

(* ================================================================== *)
(** * ServoController: the integer angle, the stop, the speeds *)
(* ================================================================== *)

Lemma update_joint_valid (commands : list ascii) (sc : ServoController.t) (i : nat) :
  servo_valid sc -> servo_valid (ServoController.update_joint commands sc i).
Proof.
  intros (Hok & Ha & Hs & Hse & Hm & Hac & Hde).
  split; [apply update_joint_ok, Hok|].
  unfold ServoController.update_joint.
  cbn [ServoController.angles ServoController.speeds ServoController.sensitivity
       ServoController.maxSpeed ServoController.accel ServoController.decel].
  assert (Hsp : mant_ok (ServoController.ramp
                           (nth i (ServoController.speeds sc) F32.zero)
                           (ServoController.targetSpeed sc i (nth i commands NUL))
                           (ServoController.accel sc) (ServoController.decel sc))).
  { apply ramp_mant; auto using targetSpeed_mant.
    apply Forall_nth_default; [exact Hs | exact I]. }
  repeat split; auto.
  - apply Forall_upd; [|exact Ha].
    apply fconstrain_mant, add_mant; [|exact Hsp].
    apply Forall_nth_default; [exact Ha | exact I].
  - apply Forall_upd; assumption.
Qed.

Lemma servo_update_valid (commands : list ascii) (sc : ServoController.t) :
  servo_valid sc -> servo_valid (ServoController.update commands sc).
Proof.
  unfold ServoController.update.
  generalize (seq 0 (Z.to_nat ServoController.numServos)). intros js.
  revert sc. induction js as [|j r IH]; intros sc H; cbn [fold_left]; auto.
  apply IH, update_joint_valid, H.
Qed.

Lemma run_servo_valid (hist : list (list ascii)) :
  forall sc, servo_valid sc -> servo_valid (run_servo hist sc).
Proof.
  induction hist as [|c r IH]; intros sc H; [exact H|].
  rewrite run_servo_cons. apply IH, servo_update_valid, H.
Qed.

Lemma Forall_repeat_intro {A : Type} (P : A -> Prop) (x : A) (n : nat) :
  P x -> Forall P (repeat x n).
Proof. intros H. induction n; cbn; constructor; auto. Qed.

Lemma servo_ctor_valid : servo_valid ServoController.ctor.
Proof.
  split; [exact servo_ctor_ok|].
  unfold ServoController.ctor.
  cbn [ServoController.angles ServoController.speeds ServoController.sensitivity
       ServoController.maxSpeed ServoController.accel ServoController.decel].
  repeat split; try apply Forall_repeat_intro; vm_compute; try discriminate; exact I.
Qed.

Lemma pow2_24 : 2 ^ 24 = 16777216.
Proof. reflexivity. Qed.

Lemma shiftl_le (m e k b q : Z) :
  0 <= m -> 0 <= k -> e <= - k -> 0 <= b -> q = 2 ^ k -> m <= b * q ->
  Z.shiftl m e <= b.
Proof.
  intros Hm Hk He Hb -> H.
  replace e with (- (- e)) by lia.
  rewrite Z.shiftl_opp_r, Z.shiftr_div_pow2 by lia.
  assert (Hp : 2 ^ k <= 2 ^ (- e)) by (apply Z.pow_le_mono_r; lia).
  assert (Hk0 : 0 < 2 ^ k) by (apply Z.pow_pos_nonneg; lia).
  apply Z.div_le_upper_bound; [lia|]. nia.
Qed.

Lemma ltb_not_gtb (x y : F32.t) : F32.ltb x y = true -> F32.gtb x y = false.
Proof.
  unfold F32.ltb, F32.gtb, SFltb. rewrite (SFcompare_antisym x y).
  destruct (SFcompare x y) as [[| |]|]; cbn; intros; try discriminate; reflexivity.
Qed.

Lemma to_int_in_range (a : F32.t) :
  angle_in_range a -> mant_ok a ->
  exists k, F32_to_int a = Some k /\ 0 <= k <= 180.
Proof.
  intros (H0 & H180) Hm.
  pose proof (angle_ok_finite a H0 H180) as Hf.
  destruct a as [s|s| |s m e]; try contradiction.
  - exists 0. split; [reflexivity | lia].
  - destruct s; [vm_compute in H0; discriminate|].
    cbn [mant_ok] in Hm. unfold F32.prec in Hm.
    pose proof (digits2_bound m) as Hb.
    assert (Hb' : Z.pos m < 2 ^ 24).
    { eapply Z.lt_le_trans; [exact Hb|]. apply Z.pow_le_mono_r; lia. }
    assert (Hv : 0 <= Z.shiftl (Z.pos m) e <= 180).
    { split; [apply Z.shiftl_nonneg; lia|].
      unfold F32.leb, SFleb in H180.
      change (F32.of_Z 180) with (S754_finite false 11796480 (-16)) in H180.
      cbn [SFcompare] in H180.
      destruct (Z.compare_spec e (-16)) as [E|E|E]; [| |discriminate].
      - assert (Hle : (m <= 11796480)%positive).
        { unfold Pos.le. change (m ?= 11796480)%positive
            with (Pos.compare_cont Eq m 11796480).
          destruct (Pos.compare_cont Eq m 11796480); discriminate. }
        assert (Hz : Z.pos m <= 180 * 65536) by exact (Pos2Z.pos_le_pos _ _ Hle).
        clear - Hz E.
        apply (shiftl_le (Z.pos m) e 16 180 65536);
          [apply Pos2Z.is_nonneg | discriminate | rewrite E; discriminate
          | discriminate | reflexivity | exact Hz].
      - rewrite pow2_24 in Hb'.
        assert (Hz : Z.pos m <= 180 * 131072) by (clear - Hb'; lia).
        assert (Hz' : e <= - (17)) by (clear - E; lia).
        clear - Hz Hz'.
        apply (shiftl_le (Z.pos m) e 17 180 131072);
          [apply Pos2Z.is_nonneg | discriminate | exact Hz'
          | discriminate | reflexivity | exact Hz]. }
    cbn [F32_to_int cond_Zopp].
    replace ((INT_MIN <=? Z.shiftl (Z.pos m) e) && (Z.shiftl (Z.pos m) e <=? INT_MAX))
      with true.
    + eexists. split; [reflexivity | exact Hv].
    + symmetry. apply andb_true_iff. unfold INT_MIN, INT_MAX.
      split; [apply Z.leb_le | apply Z.leb_le]; lia.
Qed.

(** X8. After any sequence of update ticks with any command arrays, from
    the constructor, the conversion [(int) angles[i]] that [update] hands
    to [angleToPulse] is defined for every joint and yields an integer in
    [0, 180], the input range of the pulse map. *)
Theorem X8_pulse_angle_in_range :
  forall (hist : list (list ascii)) (j : nat),
    (j < 6)%nat ->
    exists k,
      F32_to_int (nth j (ServoController.angles (run_servo hist ServoController.ctor))
                        F32.zero) = Some k
      /\ 0 <= k <= 180.
Proof.
  intros hist j Hj.
  destruct (run_servo_valid hist _ servo_ctor_valid) as ((_ & Hr & _) & Hm & _).
  apply to_int_in_range.
  - apply Forall_nth_default; [exact Hr | split; reflexivity].
  - apply Forall_nth_default; [exact Hm | exact I].
Qed.

Lemma X8_witness :
  (2 < 6)%nat
  /\ exists k,
      F32_to_int (nth 2 (ServoController.angles
                           (run_servo [list_ascii_of_string "RRL"]
                              ServoController.ctor)) F32.zero) = Some k
      /\ 0 <= k <= 180.
Proof.
  assert (H : (2 < 6)%nat) by lia.
  split; [exact H|].
  exact (X8_pulse_angle_in_range [list_ascii_of_string "RRL"] 2 H).
Defined.

Lemma isActive_stopped (l : list F32.t) :
  existsb (fun s => SFltb F32.d0_01 (F32.to_double (F32.fabs s)))
    (map (fun _ => F32.of_Z 0) l) = false.
Proof. induction l as [|x r IH]; [reflexivity|]. cbn [map existsb]. rewrite IH. reflexivity. Qed.

(** X9. [emergencyStop] leaves every joint angle as it is, sets every
    speed to +0 and makes [isActive] false, whatever the controller held;
    a freshly constructed controller is inactive too. *)
Theorem X9_emergencyStop_holds_position :
  forall sc : ServoController.t,
    ServoController.angles (ServoController.emergencyStop sc) = ServoController.angles sc
    /\ ServoController.speeds (ServoController.emergencyStop sc)
       = repeat (S754_zero false) (List.length (ServoController.speeds sc))
    /\ ServoController.isActive (ServoController.emergencyStop sc) = false
    /\ ServoController.isActive ServoController.ctor = false.
Proof.
  intros sc. split; [reflexivity|]. split; [|split].
  - cbn [ServoController.emergencyStop ServoController.speeds].
    apply map_const_repeat.
  - unfold ServoController.isActive.
    cbn [ServoController.emergencyStop ServoController.speeds].
    apply isActive_stopped.
  - reflexivity.
Qed.

Lemma tick_sound_check :
  forallb (fun s => forallb (fun c => tick_sound c s) SpeedOrbit.cmds) SpeedOrbit.orbit
  = true.
Proof. vm_compute. reflexivity. Qed.

Lemma speed_in_orbit (hist : list (list ascii)) (j : nat) :
  (j < 6)%nat ->
  servo_configured (run_servo hist ServoController.ctor)
  /\ In (speed_of j (run_servo hist ServoController.ctor)) SpeedOrbit.orbit.
Proof.
  intros Hj.
  destruct (run_servo_speeds hist j Hj _ ctor_configured) as (Hc & E).
  split; [exact Hc|]. unfold speed_of. rewrite E.
  apply fold_tick_in_orbit.
  assert (E0 : nth j (ServoController.speeds ServoController.ctor) F32.zero = F32.of_Z 0).
  { do 6 (destruct j as [|j]; [reflexivity|]). lia. }
  rewrite E0. apply mem_In. vm_compute. reflexivity.
Qed.

(** X10. From the constructor, after any sequence of ticks, one more
    update under any command array moves each joint's speed as the ramp
    promises: the speed lies within [-2, 2] before and after; below the
    target speed of the joint's command it rises strictly and not past
    the target, above it falls strictly and not past it, and on the
    target it stays. *)
Theorem X10_servo_speed_ramp :
  forall (hist : list (list ascii)) (held : list ascii) (j : nat),
    (j < 6)%nat ->
    let s := speed_of j (run_servo hist ServoController.ctor) in
    let s' := speed_of j (ServoController.update held
                            (run_servo hist ServoController.ctor)) in
    let T := ServoController.targetSpeed ServoController.ctor j (nth j held NUL) in
    F32.leb (F32.of_Z (-2)) s = true /\ F32.leb s (F32.of_Z 2) = true
    /\ F32.leb (F32.of_Z (-2)) s' = true /\ F32.leb s' (F32.of_Z 2) = true
    /\ (F32.ltb s T = true -> F32.ltb s s' = true /\ F32.leb s' T = true)
    /\ (F32.gtb s T = true -> F32.ltb s' s = true /\ F32.leb T s' = true)
    /\ (F32.ltb s T = false -> F32.gtb s T = false -> s' = s).
Proof.
  intros hist held j Hj s s' T.
  destruct (speed_in_orbit hist j Hj) as (Hc & Hin). fold s in Hin.
  destruct (update_speeds held _ Hc) as (_ & Hsp).
  assert (Es' : s' = SpeedOrbit.tick (nth j held NUL) s) by (apply Hsp, Hj).
  assert (ET : T = SpeedOrbit.target (nth j held NUL))
    by (apply targetSpeed_configured; [exact ctor_configured | exact Hj]).
  destruct (target_as_cmds (nth j held NUL)) as (c & Hcin & Etc & Etk).
  rewrite Etk in Es'. rewrite Etc in ET.
  pose proof tick_sound_check as Chk.
  rewrite forallb_forall in Chk. specialize (Chk s Hin).
  rewrite forallb_forall in Chk. specialize (Chk c Hcin).
  unfold tick_sound in Chk. rewrite <- Es', <- ET in Chk.
  repeat (apply andb_true_iff in Chk; destruct Chk as [Chk ?]).
  repeat (split; [assumption|]).
  destruct (F32.ltb s T) eqn:El.
  - apply andb_true_iff in H. destruct H as [Ha Hb].
    rewrite (ltb_not_gtb s T El).
    split; [intros _; split; assumption|].
    split; intros; discriminate.
  - destruct (F32.gtb s T) eqn:Eg.
    + apply andb_true_iff in H. destruct H as [Ha Hb].
      split; [intros; discriminate|].
      split; [intros _; split; assumption | intros; discriminate].
    + apply F32_eqb_eq in H.
      split; [intros; discriminate|].
      split; [intros; discriminate | intros _ _; exact H].
Qed.

Lemma X10_witness :
  (0 < 6)%nat
  /\ F32.leb (speed_of 0 (ServoController.update (list_ascii_of_string "L")
                            (run_servo [list_ascii_of_string "R"] ServoController.ctor)))
             (F32.of_Z 2) = true.
Proof.
  assert (H : (0 < 6)%nat) by lia.
  split; [exact H|].
  exact (proj1 (proj2 (proj2 (proj2
           (X10_servo_speed_ramp [list_ascii_of_string "R"]
              (list_ascii_of_string "L") 0 H))))).
Defined.

(* ================================================================== *)
(** * LedController: phases, sweep and pin writes *)
(* ================================================================== *)

Ltac pins_tac :=
  unfold pins_in; repeat (apply Forall_cons; [cbn; auto 6|]); apply Forall_nil.

Lemma scanner_tick (n : Z) (l : LedController.t) :
  led_ok l ->
  0 <= LedController.scannerStep l <= 3 ->
  LedController.SCAN_SPEED <= usub32 n (LedController.lastScanTime l) ->
  LedController.runScannerLogic n true true l
  = Some (if LedController.scannerStep l =? 3
          then (LedController.set_scan n (1 - LedController.scannerIdx l)
                  (1 - 2 * LedController.scannerIdx l) 0 l,
                [(10 + LedController.scannerIdx l, false);
                 (11 - LedController.scannerIdx l, true)])
          else (LedController.set_scan n (LedController.scannerIdx l)
                  (LedController.scannerDir l)
                  (LedController.scannerStep l + 1) l,
                [(10 + LedController.scannerIdx l,
                  Z.even (LedController.scannerStep l))])).
Proof.
  intros (Hi & Hd) Hs G.
  apply Z.ltb_ge in G.
  destruct l as [lst idx dir step lbt bs a b c d e f].
  cbn [LedController.scannerIdx LedController.scannerDir
       LedController.scannerStep LedController.lastScanTime] in *.
  unfold LedController.runScannerLogic.
  cbn [negb andb LedController.lastScanTime]. rewrite G.
  assert (Hs' : step = 0 \/ step = 1 \/ step = 2 \/ step = 3) by lia.
  destruct Hi as [-> | ->], Hd as [-> | ->],
    Hs' as [-> | [-> | [-> | ->]]]; reflexivity.
Qed.

Lemma runScannerLogic_valid (now : Z) (la ra : bool) (l : LedController.t) :
  led_valid l ->
  exists l' w,
    LedController.runScannerLogic now la ra l = Some (l', w)
    /\ led_valid l'
    /\ pins_in [10; 11] w
    /\ (ra = false -> In (11, false) w /\ ~ In (11, true) w)
    /\ (la = false -> In (10, false) w /\ ~ In (10, true) w).
Proof.
  intros (Hok & Hs & Hb).
  destruct la, ra.
  - destruct (Z.ltb_spec (usub32 now (LedController.lastScanTime l))
                LedController.SCAN_SPEED) as [G | G].
    + unfold LedController.runScannerLogic. cbn [negb andb].
      apply Z.ltb_lt in G. rewrite G.
      exists l, []. split; [reflexivity|]. split; [exact (conj Hok (conj Hs Hb))|].
      split; [constructor|]. split; intros; discriminate.
    + rewrite (scanner_tick now l Hok Hs G).
      destruct Hok as (Hi & Hd).
      assert (Hs' : LedController.scannerStep l = 0 \/ LedController.scannerStep l = 1
                    \/ LedController.scannerStep l = 2 \/ LedController.scannerStep l = 3)
        by lia.
      destruct (LedController.scannerStep l =? 3) eqn:E3.
      * do 2 eexists. split; [reflexivity|].
        split.
        { unfold led_valid, led_ok.
          cbn [LedController.set_scan LedController.scannerIdx LedController.scannerDir
               LedController.scannerStep LedController.beaconStep].
          split; [split; lia|]. split; [lia | exact Hb]. }
        split.
        { destruct Hi as [-> | ->]; pins_tac. }
        split; intros; discriminate.
      * apply Z.eqb_neq in E3.
        do 2 eexists. split; [reflexivity|].
        split.
        { unfold led_valid, led_ok.
          cbn [LedController.set_scan LedController.scannerIdx LedController.scannerDir
               LedController.scannerStep LedController.beaconStep].
          split; [split; lia|]. split; [lia | exact Hb]. }
        split.
        { destruct Hi as [-> | ->]; pins_tac. }
        split; intros; discriminate.
  - unfold LedController.runScannerLogic. cbn [negb andb].
    unfold LedController.runSimpleBlinker.
    destruct (LedController.SCAN_SPEED <=? usub32 now (LedController.tSingle l)).
    + do 2 eexists. split; [reflexivity|].
      split; [exact (conj Hok (conj Hs Hb))|].
      split; [pins_tac|].
      split; [|intros; discriminate].
      intros _. split; [left; reflexivity|].
      intros [H | [H | []]]; [discriminate H | inversion H].
    + do 2 eexists. split; [reflexivity|].
      split; [exact (conj Hok (conj Hs Hb))|].
      split; [pins_tac|].
      split; [|intros; discriminate].
      intros _. split; [left; reflexivity|].
      intros [H | []]; discriminate H.
  - unfold LedController.runScannerLogic. cbn [negb andb].
    unfold LedController.runSimpleBlinker.
    destruct (LedController.SCAN_SPEED <=? usub32 now (LedController.tSingle l)).
    + do 2 eexists. split; [reflexivity|].
      split; [exact (conj Hok (conj Hs Hb))|].
      split; [pins_tac|].
      split; [intros; discriminate|].
      intros _. split; [left; reflexivity|].
      intros [H | [H | []]]; [discriminate H | inversion H].
    + do 2 eexists. split; [reflexivity|].
      split; [exact (conj Hok (conj Hs Hb))|].
      split; [pins_tac|].
      split; [intros; discriminate|].
      intros _. split; [left; reflexivity|].
      intros [H | []]; discriminate H.
  - unfold LedController.runScannerLogic. cbn [negb andb].
    exists l, [(10, false); (11, false)]. split; [reflexivity|].
    split; [exact (conj Hok (conj Hs Hb))|].
    split; [pins_tac|].
    split; intros _.
    + split; [right; left; reflexivity|].
      intros [H | [H | []]]; discriminate H.
    + split; [left; reflexivity|].
      intros [H | [H | []]]; discriminate H.
Qed.

Lemma runBeaconLogic_valid (now : Z) (sa : bool) (l : LedController.t) :
  led_valid l ->
  led_valid (fst (LedController.runBeaconLogic now sa l))
  /\ pins_in [9] (snd (LedController.runBeaconLogic now sa l))
  /\ (sa = false -> snd (LedController.runBeaconLogic now sa l) = [(9, true)]).
Proof.
  intros (Hok & Hs & Hb). unfold LedController.runBeaconLogic.
  destruct sa; cbn [negb].
  - destruct (100 <=? usub32 now (LedController.lastBeaconTime l)); cbn [fst snd].
    + split; [|split; [pins_tac | intros; discriminate]].
      split; [exact Hok|]. split; [exact Hs|].
      cbn [LedController.set_beacon LedController.beaconStep].
      destruct (LedController.beaconStep l =? 0); auto.
    + split; [exact (conj Hok (conj Hs Hb))|].
      split; [constructor | intros; discriminate].
  - cbn [fst snd]. split; [|split; [pins_tac | reflexivity]].
    split; [exact Hok|]. split; [exact Hs|].
    cbn [LedController.set_beacon LedController.beaconStep]. auto.
Qed.

Lemma blinker_pins (pin speed now : Z) (s : bool) (ts : Z) :
  pins_in [pin] (snd (LedController.runSimpleBlinker pin speed now s ts)).
Proof.
  unfold LedController.runSimpleBlinker.
  destruct (speed <=? usub32 now ts); cbn [snd]; pins_tac.
Qed.

Lemma pins_in_app (ps : list Z) (w1 w2 : list LedController.write) :
  pins_in ps w1 -> pins_in ps w2 -> pins_in ps (w1 ++ w2).
Proof. unfold pins_in. intros. apply Forall_app. auto. Qed.

Lemma pins_in_incl (ps qs : list Z) (w : list LedController.write) :
  incl ps qs -> pins_in ps w -> pins_in qs w.
Proof.
  unfold pins_in. intros Hi H. eapply Forall_impl; [|exact H].
  intros x Hx. apply Hi, Hx.
Qed.

Lemma pins_in_not_In (ps : list Z) (w : list LedController.write) (p : Z) (b : bool) :
  pins_in ps w -> ~ In p ps -> ~ In (p, b) w.
Proof.
  unfold pins_in. intros H Hn Hin.
  rewrite Forall_forall in H. apply Hn. exact (H _ Hin).
Qed.

(** What one [update] call does from a state with its phases in range. *)
Lemma led_update_valid (now : Z) (la ra sa ca : bool) (l : LedController.t) :
  led_valid l ->
  exists l' w,
    LedController.update now la ra sa ca l = Some (l', w)
    /\ led_valid l'
    /\ pins_in [9; 10; 11; 13; 24] w
    /\ (ca = false -> In (24, false) w /\ ~ In (24, true) w)
    /\ (ra = false -> In (11, false) w /\ ~ In (11, true) w)
    /\ (la = false -> In (10, false) w /\ ~ In (10, true) w)
    /\ (sa = false -> In (9, true) w /\ ~ In (9, false) w).
Proof.
  intros Hv. unfold LedController.update.
  pose proof (blinker_pins LedController.PIN_HEARTBEAT LedController.HEARTBEAT_SPEED
                now (LedController.s13 l) (LedController.t13 l)) as P1.
  destruct (LedController.runSimpleBlinker LedController.PIN_HEARTBEAT
              LedController.HEARTBEAT_SPEED now (LedController.s13 l)
              (LedController.t13 l)) as [[s ts] w1].
  cbn [snd] in P1.
  set (l1 := LedController.set_13 s ts l).
  assert (Hv1 : led_valid l1) by exact Hv.
  assert (P2 : exists l2 w2,
             (if ca
              then let '(s0, ts0, w) :=
                     LedController.runSimpleBlinker LedController.PIN_FAST_BLINK
                       LedController.PIN24_SPEED now (LedController.s24 l1)
                       (LedController.t24 l1) in
                   (LedController.set_24 s0 ts0 l1, w)
              else (l1, [(LedController.PIN_FAST_BLINK, false)])) = (l2, w2)
             /\ led_valid l2 /\ pins_in [24] w2
             /\ (ca = false -> w2 = [(24, false)])).
  { destruct ca.
    - pose proof (blinker_pins LedController.PIN_FAST_BLINK LedController.PIN24_SPEED
                    now (LedController.s24 l1) (LedController.t24 l1)) as P.
      destruct (LedController.runSimpleBlinker LedController.PIN_FAST_BLINK
                  LedController.PIN24_SPEED now (LedController.s24 l1)
                  (LedController.t24 l1)) as [[s0 ts0] w].
      do 2 eexists. split; [reflexivity|].
      split; [exact Hv1|]. split; [exact P | intros; discriminate].
    - do 2 eexists. split; [reflexivity|].
      split; [exact Hv1|]. split; [pins_tac | reflexivity]. }
  destruct P2 as (l2 & w2 & E2 & Hv2 & P2 & C2). rewrite E2.
  destruct (runScannerLogic_valid now la ra l2 Hv2) as (l3 & w3 & E3 & Hv3 & P3 & R3 & L3).
  rewrite E3.
  destruct (runBeaconLogic_valid now sa l3 Hv3) as (Hv4 & P4 & S4).
  destruct (LedController.runBeaconLogic now sa l3) as [l4 w4]. cbn [fst snd] in *.
  exists l4, (w1 ++ w2 ++ w3 ++ w4). split; [reflexivity|].
  split; [exact Hv4|].
  assert (N1 : forall p b, p <> 13 -> ~ In (p, b) w1).
  { intros p b Hp. apply (pins_in_not_In [13]); [exact P1|].
    intros [H | []]; congruence. }
  assert (N2 : forall p b, p <> 24 -> ~ In (p, b) w2).
  { intros p b Hp. apply (pins_in_not_In [24]); [exact P2|].
    intros [H | []]; congruence. }
  assert (N3 : forall p b, p <> 10 -> p <> 11 -> ~ In (p, b) w3).
  { intros p b Hp Hq. apply (pins_in_not_In [10; 11]); [exact P3|].
    intros [H | [H | []]]; congruence. }
  assert (N4 : forall p b, p <> 9 -> ~ In (p, b) w4).
  { intros p b Hp. apply (pins_in_not_In [9]); [exact P4|].
    intros [H | []]; congruence. }
  split.
  { repeat apply pins_in_app.
    - apply (pins_in_incl [13]); [|exact P1]. intros x [<- | []]; cbn; auto.
    - apply (pins_in_incl [24]); [|exact P2]. intros x [<- | []]; cbn; auto 6.
    - apply (pins_in_incl [10; 11]); [|exact P3].
      intros x [<- | [<- | []]]; cbn; auto.
    - apply (pins_in_incl [9]); [|exact P4]. intros x [<- | []]; cbn; auto. }
  split.
  { intros Hc. split.
    - apply in_or_app. right. apply in_or_app. left.
      rewrite (C2 Hc). left. reflexivity.
    - intros H. apply in_app_or in H. destruct H as [H | H];
        [exact (N1 24 true ltac:(lia) H)|].
      apply in_app_or in H. destruct H as [H | H].
      { rewrite (C2 Hc) in H. destruct H as [H | []]. discriminate H. }
      apply in_app_or in H. destruct H as [H | H];
        [exact (N3 24 true ltac:(lia) ltac:(lia) H)
        | exact (N4 24 true ltac:(lia) H)]. }
  split.
  { intros Hr. destruct (R3 Hr) as (Hin & Hnot). split.
    - apply in_or_app. right. apply in_or_app. right. apply in_or_app. left. exact Hin.
    - intros H. apply in_app_or in H. destruct H as [H | H];
        [exact (N1 11 true ltac:(lia) H)|].
      apply in_app_or in H. destruct H as [H | H];
        [exact (N2 11 true ltac:(lia) H)|].
      apply in_app_or in H. destruct H as [H | H];
        [exact (Hnot H) | exact (N4 11 true ltac:(lia) H)]. }
  split.
  { intros Hl. destruct (L3 Hl) as (Hin & Hnot). split.
    - apply in_or_app. right. apply in_or_app. right. apply in_or_app. left. exact Hin.
    - intros H. apply in_app_or in H. destruct H as [H | H];
        [exact (N1 10 true ltac:(lia) H)|].
      apply in_app_or in H. destruct H as [H | H];
        [exact (N2 10 true ltac:(lia) H)|].
      apply in_app_or in H. destruct H as [H | H];
        [exact (Hnot H) | exact (N4 10 true ltac:(lia) H)]. }
  intros Hsa. split.
  - apply in_or_app. right. apply in_or_app. right. apply in_or_app. right.
    rewrite (S4 Hsa). left. reflexivity.
  - intros H. apply in_app_or in H. destruct H as [H | H];
      [exact (N1 9 false ltac:(lia) H)|].
    apply in_app_or in H. destruct H as [H | H];
      [exact (N2 9 false ltac:(lia) H)|].
    apply in_app_or in H. destruct H as [H | H];
      [exact (N3 9 false ltac:(lia) ltac:(lia) H)|].
    rewrite (S4 Hsa) in H. destruct H as [H | []]. discriminate H.
Qed.

Lemma led_run_valid (cs : list LedController.call) :
  forall l0, led_valid l0 ->
    exists l, LedController.run cs l0 = Some l /\ led_valid l.
Proof.
  induction cs as [|c r IH]; intros l0 H0; cbn [LedController.run].
  - eauto.
  - destruct (led_update_valid (LedController.c_now c) (LedController.c_left c)
                (LedController.c_right c) (LedController.c_servo c)
                (LedController.c_comms c) l0 H0) as (l1 & w & E & H1 & _).
    rewrite E. apply IH, H1.
Qed.

Lemma led_init_valid : led_valid LedController.init.
Proof. unfold led_valid, led_ok. cbn. lia. Qed.

(** X11. From the member initialisers, after any sequence of [update]
    calls, [scannerStep] is one of 0, 1, 2, 3 and [beaconStep] is 0 or 1:
    the scanner branch that only increments the step without a write is
    never taken. *)
Theorem X11_led_phases_in_range :
  forall cs : list LedController.call,
  exists l,
    LedController.run cs LedController.init = Some l
    /\ 0 <= LedController.scannerStep l <= 3
    /\ (LedController.beaconStep l = 0 \/ LedController.beaconStep l = 1).
Proof.
  intros cs.
  destruct (led_run_valid cs _ led_init_valid) as (l & E & _ & Hs & Hb).
  exists l. split; [exact E|]. split; [exact Hs | exact Hb].
Qed.

(** X12. The sweep of the scanner with both motors active: from step 0
    at index [i], four calls whose clock readings each lie at least
    [SCAN_SPEED] after the previous accepted one write HIGH, LOW, HIGH,
    LOW to pin [10 + i] and then HIGH to the other scanner pin, and leave
    the step at 0 and the index at [1 - i], whatever [scannerDir] was. *)
Theorem X12_scanner_sweep :
  forall (l : LedController.t) (n1 n2 n3 n4 : Z),
    led_ok l ->
    LedController.scannerStep l = 0 ->
    LedController.SCAN_SPEED <= usub32 n1 (LedController.lastScanTime l) ->
    LedController.SCAN_SPEED <= usub32 n2 n1 ->
    LedController.SCAN_SPEED <= usub32 n3 n2 ->
    LedController.SCAN_SPEED <= usub32 n4 n3 ->
    exists l',
      scanner_run [n1; n2; n3; n4] l
      = Some (l', [(10 + LedController.scannerIdx l, true);
                   (10 + LedController.scannerIdx l, false);
                   (10 + LedController.scannerIdx l, true);
                   (10 + LedController.scannerIdx l, false);
                   (11 - LedController.scannerIdx l, true)])
      /\ LedController.scannerIdx l' = 1 - LedController.scannerIdx l
      /\ LedController.scannerStep l' = 0
      /\ LedController.lastScanTime l' = n4.
Proof.
  intros l n1 n2 n3 n4 Hok Hs G1 G2 G3 G4.
  cbn [scanner_run].
  rewrite (scanner_tick n1 l Hok ltac:(lia) G1). rewrite Hs. cbn [Z.eqb Z.even Z.add].
  set (l1 := LedController.set_scan n1 _ _ 1 l).
  assert (Hok1 : led_ok l1) by exact Hok.
  rewrite (scanner_tick n2 l1 Hok1 ltac:(cbn; lia) G2).
  cbn [l1 LedController.set_scan LedController.scannerStep LedController.scannerIdx
       LedController.scannerDir Z.eqb Pos.eqb Z.even Z.add Pos.add].
  clear Hok1. clearbody l1.
  set (l2 := LedController.set_scan n2 _ _ 2 _).
  assert (Hok2 : led_ok l2) by exact Hok.
  rewrite (scanner_tick n3 l2 Hok2 ltac:(cbn; lia) G3).
  cbn [l2 LedController.set_scan LedController.scannerStep LedController.scannerIdx
       LedController.scannerDir Z.eqb Pos.eqb Z.even Z.add Pos.add Pos.succ].
  clear Hok2. clearbody l2.
  set (l3 := LedController.set_scan n3 _ _ 3 _).
  assert (Hok3 : led_ok l3) by exact Hok.
  rewrite (scanner_tick n4 l3 Hok3 ltac:(cbn; lia) G4).
  cbn [l3 LedController.set_scan LedController.scannerStep LedController.scannerIdx
       LedController.scannerDir Z.eqb Pos.eqb app].
  eexists. split; [reflexivity|].
  cbn [LedController.set_scan LedController.scannerStep LedController.scannerIdx
       LedController.lastScanTime].
  split; [reflexivity|]. split; reflexivity.
Qed.

Lemma X12_witness :
  led_ok LedController.init
  /\ LedController.scannerStep LedController.init = 0
  /\ exists l',
      scanner_run [100; 200; 300; 400] LedController.init
      = Some (l', [(10, true); (10, false); (10, true); (10, false); (11, true)])
      /\ LedController.scannerIdx l' = 1
      /\ LedController.scannerStep l' = 0
      /\ LedController.lastScanTime l' = 400.
Proof.
  assert (H0 : led_ok LedController.init) by (split; [left | right]; reflexivity).
  assert (H1 : LedController.scannerStep LedController.init = 0) by reflexivity.
  assert (G1 : LedController.SCAN_SPEED
               <= usub32 100 (LedController.lastScanTime LedController.init))
    by (vm_compute; discriminate).
  assert (G2 : LedController.SCAN_SPEED <= usub32 200 100) by (vm_compute; discriminate).
  assert (G3 : LedController.SCAN_SPEED <= usub32 300 200) by (vm_compute; discriminate).
  assert (G4 : LedController.SCAN_SPEED <= usub32 400 300) by (vm_compute; discriminate).
  split; [exact H0|]. split; [exact H1|].
  exact (X12_scanner_sweep LedController.init 100 200 300 400 H0 H1 G1 G2 G3 G4).
Defined.

(** X13. From the member initialisers, after any sequence of [update]
    calls, one more call succeeds and writes only to the pins 9, 10, 11,
    13 and 24. With comms inactive it writes pin 24 LOW and never HIGH;
    a scanner pin whose motor is inactive is written LOW and never HIGH;
    with the servos inactive pin 9 is written HIGH and never LOW. *)
Theorem X13_led_writes :
  forall (cs : list LedController.call) (c : LedController.call),
  exists l l' w,
    LedController.run cs LedController.init = Some l
    /\ LedController.update (LedController.c_now c) (LedController.c_left c)
         (LedController.c_right c) (LedController.c_servo c)
         (LedController.c_comms c) l = Some (l', w)
    /\ pins_in [9; 10; 11; 13; 24] w
    /\ (LedController.c_comms c = false -> In (24, false) w /\ ~ In (24, true) w)
    /\ (LedController.c_right c = false -> In (11, false) w /\ ~ In (11, true) w)
    /\ (LedController.c_left c = false -> In (10, false) w /\ ~ In (10, true) w)
    /\ (LedController.c_servo c = false -> In (9, true) w /\ ~ In (9, false) w).
Proof.
  intros cs c.
  destruct (led_run_valid cs _ led_init_valid) as (l & E & Hv).
  destruct (led_update_valid (LedController.c_now c) (LedController.c_left c)
              (LedController.c_right c) (LedController.c_servo c)
              (LedController.c_comms c) l Hv) as (l' & w & Eu & _ & H).
  exists l, l', w. split; [exact E|]. split; [exact Eu | exact H].
Qed.

(* ================================================================== *)
(** * The whole sketch: log, failsafe and indicators *)
(* ================================================================== *)

Lemma failsafe_log_app (a b : list SystemCode) :
  forall s,
    failsafe_log s (a ++ b)
    = match failsafe_log s a with
      | Some s' => failsafe_log s' b
      | None => None
      end.
Proof.
  induction a as [|x r IH]; intros s; [reflexivity|].
  cbn [app failsafe_log]. destruct x; try reflexivity; destruct s; auto.
Qed.

Lemma stage_fields_failsafeCheck (now : Z) (g : Globals) :
  ledSys (failsafeCheck now g) = ledSys g
  /\ serialCommunicationFlag (failsafeCheck now g) = serialCommunicationFlag g.
Proof.
  destruct (failsafeCheck_cases now g) as [-> | (_ & _ & ->)]; split; reflexivity.
Qed.

Lemma stage_fields_updateMotors (now : Z) (g : Globals) :
  ledSys (updateMotors now g) = ledSys g
  /\ serialCommunicationFlag (updateMotors now g) = serialCommunicationFlag g.
Proof. destruct (updateMotors_cases now g) as [-> | ->]; split; reflexivity. Qed.

Lemma stage_fields_updateServos (now : Z) (g : Globals) :
  ledSys (updateServos now g) = ledSys g
  /\ serialCommunicationFlag (updateServos now g) = serialCommunicationFlag g.
Proof. destruct (updateServos_cases now g) as [-> | ->]; split; reflexivity. Qed.

Lemma stopped_inactive (g : Globals) :
  flags_agree g -> stopped g ->
  isLeftMotorActive g = false /\ isRightMotorActive g = false
  /\ ServoController.isActive (controller g) = false.
Proof.
  intros (Fl & Fr) (H1 & _ & H3 & _ & H5 & _).
  rewrite Fl, Fr, H1, H3. split; [reflexivity|]. split; [reflexivity|].
  unfold ServoController.isActive. rewrite H5. reflexivity.
Qed.

(** The input stage of a pass. *)
Lemma readInputs_stage (usb radio : list byte_in) (g : Globals) :
  wf g -> flags_agree g -> failsafe_safe g ->
  exists g1 tail,
    readInputs usb radio g = Some g1
    /\ wf g1 /\ flags_agree g1 /\ failsafe_safe g1
    /\ ledSys g1 = ledSys g
    /\ serialCommunicationFlag g1 = serialCommunicationFlag g
    /\ events g1 = events g ++ tail
    /\ failsafe_log (failsafeTriggered g) tail = Some (failsafeTriggered g1).
Proof.
  intros Hwf Hf Hs.
  destruct (readInputs_keeps usb radio g Hwf) as (g1 & E1 & W1 & F1 & Q1).
  pose proof Hwf as (Hu & Hr & _).
  pose proof (readInputs_batch usb radio g Hu Hr) as Eb.
  fold (batch_of usb radio g) in Eb.
  rewrite E1 in Eb. apply Some_inj in Eb.
  set (batch := batch_of usb radio g) in *.
  destruct (processAll_failsafe batch g) as (P1 & P2 & _).
  destruct (processAll_fields batch g) as (L1 & _ & L3 & _).
  assert (Eft : failsafeTriggered g1 = failsafeTriggered (processAll batch g))
    by (rewrite Eb; reflexivity).
  assert (Eev : events g1 = events (processAll batch g))
    by (rewrite Eb; reflexivity).
  assert (Eled : ledSys g1 = ledSys g) by (rewrite Eb; exact L1).
  assert (Ecm : serialCommunicationFlag g1 = serialCommunicationFlag g)
    by (rewrite Eb; exact L3).
  exists g1.
  exists (match batch with
          | [] => []
          | _ => if failsafeTriggered g then [SAFE_FAILSAFE_CLEAR] else []
          end).
  split; [exact E1|]. split; [exact W1|]. split; [exact (F1 Hf)|].
  split.
  { intros Ht. destruct batch as [|f r] eqn:Ebatch.
    - destruct (Q1 eq_refl) as (A & T & _).
      apply (stopped_actuators g g1 A). apply Hs. congruence.
    - rewrite Eft, P1 in Ht. discriminate. }
  split; [exact Eled|]. split; [exact Ecm|].
  split; [rewrite Eev; exact P2|].
  rewrite Eft, P1.
  destruct batch as [|f r]; [reflexivity|].
  destruct (failsafeTriggered g); reflexivity.
Qed.

(** The failsafe block of a pass. *)
Lemma failsafeCheck_stage (now : Z) (g : Globals) :
  wf g -> failsafe_safe g ->
  failsafe_safe (failsafeCheck now g)
  /\ exists tail,
       events (failsafeCheck now g) = events g ++ tail
       /\ failsafe_log (failsafeTriggered g) tail
          = Some (failsafeTriggered (failsafeCheck now g)).
Proof.
  intros (_ & _ & Hc & Hsp & _) Hs.
  destruct (failsafeCheck_cases now g) as [E | (Hft & Ht & _)].
  - rewrite E. split; [exact Hs|]. exists []. rewrite app_nil_r. auto.
  - destruct (failsafeCheck_trip now g Hc Hsp Hft Ht) as (St & Ft & Ev & _).
    split; [intros _; exact St|].
    exists [SAFE_FAILSAFE_TRIGGER]. split; [exact Ev|].
    rewrite Hft, Ft. reflexivity.
Qed.

(** One pass of [loop], stage by stage, from a state the sketch can be in. *)
Lemma loop_stages (c : cycle) (g : Globals) :
  wf g -> flags_agree g -> failsafe_safe g -> led_valid (ledSys g) ->
  exists g4 l w tail,
    LedController.update (cy_led c) (isLeftMotorActive g4) (isRightMotorActive g4)
      (ServoController.isActive (controller g4)) (serialCommunicationFlag g4)
      (ledSys g) = Some (l, w)
    /\ loop c g = Some (set_led_comms l (serialCommunicationFlag g4) g4)
    /\ loop_led_writes c g = Some w
    /\ wf g4 /\ flags_agree g4 /\ failsafe_safe g4
    /\ led_valid l
    /\ serialCommunicationFlag g4 = serialCommunicationFlag g
    /\ events g4 = events g ++ tail
    /\ failsafe_log (failsafeTriggered g) tail = Some (failsafeTriggered g4).
Proof.
  intros Hwf Hf Hs Hl.
  destruct (readInputs_stage (cy_usb c) (cy_radio c) g Hwf Hf Hs)
    as (g1 & t1 & E1 & W1 & F1 & S1 & L1 & C1 & Ev1 & Lg1).
  destruct (failsafeCheck_stage (cy_now c) g1 W1 S1) as (S2 & t2 & Ev2 & Lg2).
  pose proof (failsafeCheck_wf (cy_now c) g1 W1) as W2.
  pose proof (failsafeCheck_flags (cy_now c) g1 F1) as F2.
  destruct (stage_fields_failsafeCheck (cy_now c) g1) as (L2 & C2).
  set (g2 := failsafeCheck (cy_now c) g1) in *.
  destruct (updateMotors_keeps (cy_now c) g2) as (W3 & F3 & S3 & T3 & Ev3).
  destruct (stage_fields_updateMotors (cy_now c) g2) as (L3 & C3).
  set (g3 := updateMotors (cy_now c) g2) in *.
  destruct (updateServos_keeps (cy_now c) g3) as (W4 & F4 & S4 & T4 & Ev4).
  destruct (stage_fields_updateServos (cy_now c) g3) as (L4 & C4).
  set (g4 := updateServos (cy_now c) g3) in *.
  assert (Eled : ledSys g4 = ledSys g) by congruence.
  destruct (led_update_valid (cy_led c) (isLeftMotorActive g4) (isRightMotorActive g4)
              (ServoController.isActive (controller g4))
              (serialCommunicationFlag g4) (ledSys g) Hl)
    as (l & w & El & Hl' & _).
  exists g4, l, w, (t1 ++ t2).
  split; [exact El|].
  split.
  { unfold loop. rewrite E1. fold g2. fold g3. fold g4. rewrite Eled, El. reflexivity. }
  split.
  { unfold loop_led_writes. rewrite E1. fold g2. fold g3. fold g4.
    rewrite Eled, El. reflexivity. }
  split; [exact (W4 (W3 W2))|]. split; [exact (F4 (F3 F2))|].
  split.
  { intros Ht. apply S4, S3, S2. congruence. }
  split; [exact Hl'|]. split; [congruence|].
  split.
  { rewrite Ev4, Ev3, Ev2, Ev1, app_assoc. reflexivity. }
  rewrite failsafe_log_app, Lg1, T4, T3. exact Lg2.
Qed.

(** What every run of passes keeps. *)
Lemma run_loop_stages (cs : list cycle) :
  forall g,
    wf g -> flags_agree g -> failsafe_safe g -> led_valid (ledSys g) ->
    exists g' tail,
      run_loop cs g = Some g'
      /\ wf g' /\ flags_agree g' /\ failsafe_safe g' /\ led_valid (ledSys g')
      /\ serialCommunicationFlag g' = serialCommunicationFlag g
      /\ events g' = events g ++ tail
      /\ failsafe_log (failsafeTriggered g) tail = Some (failsafeTriggered g').
Proof.
  induction cs as [|c r IH]; intros g Hwf Hf Hs Hl.
  - exists g, []. rewrite app_nil_r.
    split; [reflexivity|]. split; [exact Hwf|]. split; [exact Hf|].
    split; [exact Hs|]. split; [exact Hl|]. split; [reflexivity|].
    split; reflexivity.
  - rewrite run_loop_cons.
    destruct (loop_stages c g Hwf Hf Hs Hl)
      as (g4 & l & w & t & _ & E & _ & W4 & F4 & S4 & Hl' & C4 & Ev & Lg).
    rewrite E.
    set (g1 := set_led_comms l (serialCommunicationFlag g4) g4) in *.
    assert (W1 : wf g1).
    { destruct W4 as (Hu & Hr & Hc & Hsp & _). unfold wf.
      cbn [g1 usbBuffer usbIndex radioBuffer radioIndex servoCommands controller
           ledSys set_led_comms].
      split; [exact Hu|]. split; [exact Hr|]. split; [exact Hc|].
      split; [exact Hsp | apply Hl']. }
    destruct (IH g1 W1 F4 S4 Hl') as (g' & t' & E' & W' & F' & S' & L' & C' & Ev' & Lg').
    exists g', (t ++ t'). split; [exact E'|].
    split; [exact W'|]. split; [exact F'|]. split; [exact S'|]. split; [exact L'|].
    split; [rewrite C'; exact C4|].
    split.
    { rewrite Ev'. cbn [g1 events set_led_comms]. rewrite Ev, app_assoc. reflexivity. }
    rewrite failsafe_log_app, Lg. exact Lg'.
Qed.

Lemma setup_stages (srsr now : Z) :
  wf (setup srsr now) /\ flags_agree (setup srsr now)
  /\ failsafe_safe (setup srsr now) /\ led_valid (ledSys (setup srsr now))
  /\ serialCommunicationFlag (setup srsr now) = true
  /\ events (setup srsr now) = boot_log srsr
  /\ failsafeTriggered (setup srsr now) = false.
Proof.
  destruct (setup_wf srsr now) as (W & F).
  split; [exact W|]. split; [exact F|].
  unfold failsafe_safe, setup, boot_log.
  destruct (negb (Z.land srsr 32 =? 0)).
  - split; [intros H; discriminate H|]. split; [exact led_init_valid|].
    split; [reflexivity|]. split; reflexivity.
  - split; [intros H; discriminate H|]. split; [exact led_init_valid|].
    split; [reflexivity|]. split; reflexivity.
Qed.

(** X14. The log of any run: [setup] writes the boot code (the watchdog
    code when bit 5 of the reset status is set), then the three
    initialisation codes and boot-complete; after that the passes of
    [loop] add only failsafe triggers and clears, which alternate
    starting with a trigger, the last one telling whether
    [failsafeTriggered] is set. *)
Theorem X14_log_alternates :
  forall (srsr now : Z) (cs : list cycle),
  exists g tail,
    run_loop cs (setup srsr now) = Some g
    /\ events g = boot_log srsr ++ tail
    /\ failsafe_log false tail = Some (failsafeTriggered g).
Proof.
  intros srsr now cs.
  destruct (setup_stages srsr now) as (W & F & S & L & _ & Ev & Ft).
  destruct (run_loop_stages cs _ W F S L)
    as (g & tail & E & _ & _ & _ & _ & _ & Ev' & Lg).
  exists g, tail. split; [exact E|].
  split; [rewrite Ev', Ev; reflexivity|].
  rewrite <- Ft. exact Lg.
Qed.

(** X15. In every state the sketch reaches from [setup], through any
    passes with any input and clock readings, a set failsafe flag means
    that everything is at rest: both motors at target 0 and current 0,
    the six joint speeds 0 and commands Hold, both motor activity flags
    false and the servo controller inactive. *)
Theorem X15_failsafe_means_stopped :
  forall (srsr now : Z) (cs : list cycle),
  exists g,
    run_loop cs (setup srsr now) = Some g
    /\ (failsafeTriggered g = true ->
        stopped g
        /\ isLeftMotorActive g = false /\ isRightMotorActive g = false
        /\ ServoController.isActive (controller g) = false).
Proof.
  intros srsr now cs.
  destruct (setup_stages srsr now) as (W & F & S & L & _).
  destruct (run_loop_stages cs _ W F S L) as (g & tail & E & _ & F' & S' & _).
  exists g. split; [exact E|].
  intros Ht. split; [exact (S' Ht)|].
  exact (stopped_inactive g F' (S' Ht)).
Qed.

(** X16. The indicators of the running sketch. In every state reached
    from [setup] the communication flag is still set and the LED phases
    are in range; the LED update closing the next pass succeeds and
    writes only pins 9, 10, 11, 13 and 24; and when that pass ends with
    the failsafe set, it writes both scanner pins LOW and never HIGH, and
    the beacon pin HIGH and never LOW. *)
Theorem X16_indicators_follow_failsafe :
  forall (srsr now : Z) (cs : list cycle) (c : cycle),
  exists g g' w,
    run_loop cs (setup srsr now) = Some g
    /\ serialCommunicationFlag g = true
    /\ led_valid (ledSys g)
    /\ loop c g = Some g'
    /\ loop_led_writes c g = Some w
    /\ pins_in [9; 10; 11; 13; 24] w
    /\ (failsafeTriggered g' = true ->
        In (10, false) w /\ ~ In (10, true) w
        /\ In (11, false) w /\ ~ In (11, true) w
        /\ In (9, true) w /\ ~ In (9, false) w).
Proof.
  intros srsr now cs c.
  destruct (setup_stages srsr now) as (W & F & S & L & C & _).
  destruct (run_loop_stages cs _ W F S L)
    as (g & tail & E & W' & F' & S' & L' & C' & _).
  destruct (loop_stages c g W' F' S' L')
    as (g4 & l & w & t & El & Eg & Ew & W4 & F4 & S4 & _).
  exists g, (set_led_comms l (serialCommunicationFlag g4) g4), w.
  split; [exact E|]. split; [congruence|]. split; [exact L'|].
  split; [exact Eg|]. split; [exact Ew|].
  destruct (led_update_valid (cy_led c) (isLeftMotorActive g4) (isRightMotorActive g4)
              (ServoController.isActive (controller g4))
              (serialCommunicationFlag g4) (ledSys g) L')
    as (l0 & w0 & El0 & _ & P & _ & R & Lf & Sv).
  rewrite El in El0. apply Some_inj in El0.
  assert (Ew0 : w0 = w) by congruence. subst w0.
  split; [exact P|].
  intros Ht. cbn [failsafeTriggered set_led_comms] in Ht.
  destruct (stopped_inactive g4 F4 (S4 Ht)) as (A1 & A2 & A3).
  destruct (Lf A1) as (Y1 & Y2). destruct (R A2) as (Y3 & Y4).
  destruct (Sv A3) as (Y5 & Y6).
  split; [exact Y1|]. split; [exact Y2|]. split; [exact Y3|].
  split; [exact Y4|]. split; [exact Y5 | exact Y6].
Qed.

(* ================================================================== *)
(** * Framing: from bytes to the line handed to the interpreter *)
(* ================================================================== *)

Lemma firstn_upd_snoc {A : Type} (n : nat) (v : A) (l : list A) :
  (n < List.length l)%nat -> firstn (S n) (upd n v l) = firstn n l ++ [v].
Proof.
  revert n. induction l as [|x r IH]; intros [|n] H; cbn [List.length] in H;
    try lia.
  - reflexivity.
  - cbn [upd]. rewrite (firstn_cons (S n)), (firstn_cons n). cbn [app].
    f_equal. apply IH. lia.
Qed.

Lemma cstr_upd (n : nat) :
  forall b : list ascii,
    (n < List.length b)%nat ->
    forallb (fun c => negb (Ascii.eqb c NUL)) (firstn n b) = true ->
    cstr (upd n NUL b) = firstn n b.
Proof.
  induction n as [|n IH]; intros [|x r] H Hn; cbn [List.length] in H; try lia.
  - reflexivity.
  - cbn [firstn forallb] in Hn. apply andb_true_iff in Hn. destruct Hn as [Hx Hr].
    cbn [upd cstr firstn]. apply negb_true_iff in Hx. rewrite Hx.
    f_equal. apply IH; [lia | exact Hr].
Qed.

Lemma forallb_firstn {A : Type} (f : A -> bool) (n : nat) :
  forall l, forallb f l = true -> forallb f (firstn n l) = true.
Proof.
  induction n as [|n IH]; intros [|x r] H; try reflexivity.
  cbn [forallb] in H. apply andb_true_iff in H. destruct H as [Hx Hr].
  cbn [firstn forallb]. rewrite Hx. apply IH, Hr.
Qed.

(** The bytes of a line fill the buffer from [i] on and stop at its last
    but one cell. *)
Lemma frames_fill (now : Z) (line : list ascii) :
  forall (buffer : list ascii) (i : Z),
    List.length buffer = 32%nat -> 0 <= i <= 31 ->
    forallb (fun c => negb (is_terminator c)) line = true ->
    exists b',
      List.length b' = 32%nat
      /\ firstn (Z.to_nat (Z.min 31 (i + Z.of_nat (List.length line)))) b'
         = firstn (Z.to_nat i) buffer ++ firstn (Z.to_nat (31 - i)) line
      /\ forall rest,
           frames (bytes_at now line ++ rest) buffer i
           = frames rest b' (Z.min 31 (i + Z.of_nat (List.length line)))
           /\ channel_after (bytes_at now line ++ rest) buffer i
              = channel_after rest b' (Z.min 31 (i + Z.of_nat (List.length line))).
Proof.
  induction line as [|c r IH]; intros buffer i Hlen Hi Hl.
  - exists buffer. split; [exact Hlen|].
    cbn [List.length Z.of_nat]. rewrite Z.add_0_r, Z.min_r by lia.
    split; [rewrite firstn_nil, app_nil_r; reflexivity|].
    intros rest. split; reflexivity.
  - cbn [forallb] in Hl. apply andb_true_iff in Hl. destruct Hl as [Hc Hr].
    apply negb_true_iff in Hc.
    cbn [bytes_at map app frames channel_after]. rewrite Hc.
    fold (bytes_at now r).
    unfold MAX_CMD_LEN. change (32 - 1) with 31.
    destruct (Z.ltb_spec i 31) as [Lt | Ge].
    + destruct (IH (upd (Z.to_nat i) c buffer) (i + 1)) as (b' & Hb & Hf & Hrest);
        [rewrite upd_length; exact Hlen | lia | exact Hr |].
      exists b'. split; [exact Hb|].
      replace (Z.min 31 (i + Z.of_nat (List.length (c :: r))))
        with (Z.min 31 (i + 1 + Z.of_nat (List.length r)))
        by (cbn [List.length]; lia).
      split; [|exact Hrest].
      rewrite Hf.
      replace (Z.to_nat (i + 1)) with (S (Z.to_nat i)) by lia.
      rewrite firstn_upd_snoc by lia.
      replace (Z.to_nat (31 - i)) with (S (Z.to_nat (31 - (i + 1)))) by lia.
      rewrite firstn_cons, <- app_assoc. reflexivity.
    + assert (Ei : i = 31) by lia. subst i.
      destruct (IH buffer 31 Hlen Hi Hr) as (b' & Hb & Hf & Hrest).
      exists b'. split; [exact Hb|].
      replace (Z.min 31 (31 + Z.of_nat (List.length (c :: r)))) with 31 by lia.
      replace (Z.min 31 (31 + Z.of_nat (List.length r))) with 31 in * by lia.
      split; [|exact Hrest].
      rewrite Hf. reflexivity.
Qed.

Lemma line_byte_split (line : list ascii) :
  forallb line_byte line = true ->
  forallb (fun c => negb (is_terminator c)) line = true
  /\ forallb (fun c => negb (Ascii.eqb c NUL)) line = true.
Proof.
  induction line as [|c r IH]; [split; reflexivity|].
  cbn [forallb]. intros H. apply andb_true_iff in H. destruct H as [Hc Hr].
  unfold line_byte in Hc. apply andb_true_iff in Hc. destruct Hc as [H1 H2].
  destruct (IH Hr) as (I1 & I2). rewrite H1, H2, I1, I2. split; reflexivity.
Qed.

(** A line and its terminator, arriving on an idle channel. *)
Lemma frames_line (now : Z) (line : list ascii) (t : ascii)
    (buffer : list ascii) (rest : list byte_in) :
  List.length buffer = 32%nat ->
  line <> [] ->
  forallb line_byte line = true ->
  is_terminator t = true ->
  exists b',
    frames (bytes_at now (line ++ [t]) ++ rest) buffer 0
    = (now, b') :: frames rest (processCommand_buffer b') 0
    /\ channel_after (bytes_at now (line ++ [t]) ++ rest) buffer 0
       = channel_after rest (processCommand_buffer b') 0
    /\ cstr b' = firstn 31 line
    /\ List.length b' = 32%nat.
Proof.
  intros Hlen Hne Hl Ht.
  destruct (line_byte_split line Hl) as (Hterm & Hnul).
  destruct (frames_fill now line buffer 0 Hlen ltac:(lia) Hterm) as (b & Hb & Hf & Hrest).
  set (i := Z.min 31 (0 + Z.of_nat (List.length line))) in *.
  assert (Hi : 0 < i <= 31).
  { destruct line as [|c r]; [congruence|]. cbn [List.length] in i. lia. }
  cbn [firstn app] in Hf. change (31 - 0) with 31 in Hf.
  change (Z.to_nat 31) with 31%nat in Hf.
  exists (upd (Z.to_nat i) NUL b).
  replace (bytes_at now (line ++ [t]) ++ rest)
    with (bytes_at now line ++ (t, now) :: rest)
    by (unfold bytes_at; rewrite map_app, <- app_assoc; reflexivity).
  destruct (Hrest ((t, now) :: rest)) as (E1 & E2).
  rewrite E1, E2. cbn [frames channel_after]. rewrite Ht.
  assert (Hgt : (i >? 0) = true) by (apply Z.gtb_lt; lia). rewrite Hgt.
  split; [reflexivity|]. split; [reflexivity|].
  split; [|rewrite upd_length; exact Hb].
  rewrite cstr_upd; [exact Hf | lia |].
  rewrite Hf. apply forallb_firstn, Hnul.
Qed.

Lemma frames_terminators (now : Z) (ts : list ascii) :
  forall (buffer : list ascii) (rest : list byte_in),
    forallb is_terminator ts = true ->
    frames (bytes_at now ts ++ rest) buffer 0 = frames rest buffer 0
    /\ channel_after (bytes_at now ts ++ rest) buffer 0 = channel_after rest buffer 0.
Proof.
  induction ts as [|t r IH]; intros buffer rest H; [split; reflexivity|].
  cbn [forallb] in H. apply andb_true_iff in H. destruct H as [Ht Hr].
  cbn [bytes_at map app frames channel_after]. rewrite Ht.
  cbn [Z.gtb Z.compare]. apply IH, Hr.
Qed.

(** A line, its terminator and a run of further terminators. *)
Lemma frames_line_run :
  forall (now : Z) (line : list ascii) (t : ascii) (ts : list ascii)
         (buffer : list ascii) (rest : list byte_in),
    List.length buffer = 32%nat ->
    line <> [] ->
    forallb line_byte line = true ->
    is_terminator t = true ->
    forallb is_terminator ts = true ->
    exists b',
      frames (bytes_at now (line ++ t :: ts) ++ rest) buffer 0
      = (now, b') :: frames rest (processCommand_buffer b') 0
      /\ channel_after (bytes_at now (line ++ t :: ts) ++ rest) buffer 0
         = channel_after rest (processCommand_buffer b') 0
      /\ cstr b' = firstn 31 line
      /\ List.length b' = 32%nat.
Proof.
  intros now line t ts buffer rest Hlen Hne Hl Ht Hts.
  destruct (frames_line now line t buffer (bytes_at now ts ++ rest) Hlen Hne Hl Ht)
    as (b' & E1 & E2 & Hc & Hb).
  exists b'.
  replace (bytes_at now (line ++ t :: ts) ++ rest)
    with (bytes_at now (line ++ [t]) ++ bytes_at now ts ++ rest).
  - rewrite E1, E2.
    destruct (frames_terminators now ts (processCommand_buffer b') rest Hts)
      as (T1 & T2).
    rewrite T1, T2. split; [reflexivity|]. split; [reflexivity|].
    split; [exact Hc | exact Hb].
  - unfold bytes_at. rewrite app_assoc, <- map_app, <- app_assoc. reflexivity.
Qed.

(** X17. Framing on an idle channel. Given a non-empty line of bytes
    other than LF, CR and NUL, followed by a terminator and any run of
    further terminators (as in CR LF), [checkInput] hands the line to the
    interpreter exactly once, at the clock of the bytes, as a buffer
    whose C string is the first 31 bytes of the line - longer lines are
    cut, not rejected - and then goes on with the rest of the stream on
    an idle channel, the buffer being as the interpreter left it. *)
Theorem X17_line_framing :
  forall (now : Z) (line : list ascii) (t : ascii) (ts : list ascii)
         (g : Globals) (buffer : list ascii) (rest : list byte_in),
    List.length buffer = 32%nat ->
    line <> [] ->
    forallb line_byte line = true ->
    is_terminator t = true ->
    forallb is_terminator ts = true ->
    exists b',
      cstr b' = firstn 31 line
      /\ checkInput (bytes_at now (line ++ t :: ts) ++ rest) (g, buffer, 0)
         = checkInput rest (processCommand now b' g, processCommand_buffer b', 0).
Proof.
  intros now line t ts g buffer rest Hlen Hne Hl Ht Hts.
  destruct (frames_line_run now line t ts buffer rest Hlen Hne Hl Ht Hts)
    as (b' & E1 & E2 & Hc & Hb).
  exists b'. split; [exact Hc|].
  assert (Hok : channel_ok buffer 0)
    by (split; [exact Hlen | unfold MAX_CMD_LEN; lia]).
  assert (Hok' : channel_ok (processCommand_buffer b') 0).
  { split; [rewrite processCommand_buffer_length; exact Hb
           | unfold MAX_CMD_LEN; lia]. }
  destruct (checkInput_frames (bytes_at now (line ++ t :: ts) ++ rest) g buffer 0 Hok)
    as (EL & _).
  destruct (checkInput_frames rest (processCommand now b' g)
              (processCommand_buffer b') 0 Hok') as (ER & _).
  rewrite EL, ER, E1, E2, processAll_cons. reflexivity.
Qed.

Lemma X17_witness :
  List.length (repeat NUL 32) = 32%nat
  /\ list_ascii_of_string "S1L" <> []
  /\ forallb line_byte (list_ascii_of_string "S1L") = true
  /\ is_terminator CR = true
  /\ forallb is_terminator [LF] = true
  /\ exists b',
      cstr b' = firstn 31 (list_ascii_of_string "S1L")
      /\ checkInput (bytes_at 7 (list_ascii_of_string "S1L" ++ CR :: [LF]) ++ [])
           (setup 0 0, repeat NUL 32, 0)
         = checkInput [] (processCommand 7 b' (setup 0 0), processCommand_buffer b', 0).
Proof.
  assert (H1 : List.length (repeat NUL 32) = 32%nat) by reflexivity.
  assert (H2 : list_ascii_of_string "S1L" <> []) by discriminate.
  assert (H3 : forallb line_byte (list_ascii_of_string "S1L") = true) by reflexivity.
  assert (H4 : is_terminator CR = true) by reflexivity.
  assert (H5 : forallb is_terminator [LF] = true) by reflexivity.
  split; [exact H1|]. split; [exact H2|]. split; [exact H3|].
  split; [exact H4|]. split; [exact H5|].
  exact (X17_line_framing 7 (list_ascii_of_string "S1L") CR [LF] (setup 0 0)
           (repeat NUL 32) [] H1 H2 H3 H4 H5).
Defined.

(* ================================================================== *)
(** * Motor lines: decimal text through [strtok] and [atoi] *)
(* ================================================================== *)

Lemma code_digit_char (d : Z) : 0 <= d <= 9 -> code (digit_char d) = 48 + d.
Proof.
  intros H.
  assert (E : d = 0 \/ d = 1 \/ d = 2 \/ d = 3 \/ d = 4 \/ d = 5 \/ d = 6
              \/ d = 7 \/ d = 8 \/ d = 9) by lia.
  repeat (destruct E as [-> | E]; [reflexivity|]). subst d. reflexivity.
Qed.

Lemma is_digit_digit_char (d : Z) : 0 <= d <= 9 -> is_digit (digit_char d) = true.
Proof.
  intros H. unfold is_digit. rewrite (code_digit_char d H).
  apply andb_true_iff. split; apply Z.leb_le; lia.
Qed.

Lemma dec_digits_digits (fuel : nat) :
  forall n, 0 <= n -> forallb is_digit (dec_digits fuel n) = true.
Proof.
  induction fuel as [|f IH]; intros n Hn; [reflexivity|].
  cbn [dec_digits]. destruct (Z.ltb_spec n 10) as [Lt | Ge].
  - cbn [forallb]. rewrite is_digit_digit_char by lia. reflexivity.
  - rewrite forallb_app, IH by (apply Z.div_pos; lia).
    cbn [forallb]. rewrite is_digit_digit_char; [reflexivity|].
    pose proof (Z.mod_pos_bound n 10). lia.
Qed.

Lemma dec_digits_nonempty (fuel : nat) (n : Z) :
  dec_digits (S fuel) n <> [].
Proof.
  cbn [dec_digits]. destruct (n <? 10); [discriminate|].
  intros H. apply app_eq_nil in H. destruct H as [_ H]. discriminate H.
Qed.

Lemma dec_digits_length (fuel : nat) :
  forall n, (List.length (dec_digits fuel n) <= fuel)%nat.
Proof.
  induction fuel as [|f IH]; intros n; [apply le_n|].
  cbn [dec_digits]. destruct (n <? 10); [cbn; lia|].
  rewrite length_app. cbn [List.length]. specialize (IH (n / 10)). lia.
Qed.

Lemma digits_value_dec (fuel : nat) :
  forall n acc rest,
    0 <= n < 10 ^ Z.of_nat fuel ->
    digits_value acc (dec_digits fuel n ++ rest)
    = digits_value (10 ^ Z.of_nat (List.length (dec_digits fuel n)) * acc + n) rest.
Proof.
  induction fuel as [|f IH]; intros n acc rest Hn.
  - cbn [dec_digits app List.length Z.of_nat]. cbn in Hn.
    f_equal. lia.
  - cbn [dec_digits]. destruct (Z.ltb_spec n 10) as [Lt | Ge].
    + cbn [app digits_value List.length]. rewrite is_digit_digit_char by lia.
      rewrite code_digit_char by lia. f_equal.
      change (Z.of_nat 1) with 1. rewrite Z.pow_1_r. lia.
    + rewrite <- app_assoc. cbn [app].
      assert (Hq : 0 <= n / 10 < 10 ^ Z.of_nat f).
      { split; [apply Z.div_pos; lia|].
        apply Z.div_lt_upper_bound; [lia|].
        rewrite Nat2Z.inj_succ, Z.pow_succ_r in Hn by lia. lia. }
      rewrite (IH (n / 10) acc _ Hq).
      pose proof (Z.mod_pos_bound n 10 ltac:(lia)) as Hm.
      cbn [digits_value]. rewrite is_digit_digit_char by lia.
      rewrite code_digit_char by lia. f_equal.
      rewrite length_app. cbn [List.length].
      rewrite Nat2Z.inj_add. change (Z.of_nat 1) with 1.
      rewrite Z.pow_add_r by lia. rewrite Z.pow_1_r.
      pose proof (Z.div_mod n 10 ltac:(lia)) as Hd.
      set (p := 10 ^ Z.of_nat (List.length (dec_digits f (n / 10)))) in *.
      nia.
Qed.

Lemma digit_not_special (c : ascii) :
  is_digit c = true ->
  is_space c = false /\ Ascii.eqb c "-" = false /\ Ascii.eqb c "+" = false
  /\ Ascii.eqb c "," = false /\ Ascii.eqb c "S" = false
  /\ line_byte c = true.
Proof.
  unfold is_digit. intros H. apply andb_true_iff in H. destruct H as [H1 H2].
  apply Z.leb_le in H1. apply Z.leb_le in H2.
  assert (N : forall d : ascii, code d < 48 \/ 57 < code d -> Ascii.eqb c d = false).
  { intros d Hd. apply Ascii.eqb_neq. intros ->. lia. }
  split.
  { unfold is_space. apply orb_false_iff. split.
    - apply Z.eqb_neq. lia.
    - apply andb_false_iff. right. apply Z.leb_gt. lia. }
  split; [apply N; cbn; lia|]. split; [apply N; cbn; lia|].
  split; [apply N; cbn; lia|]. split; [apply N; cbn; lia|].
  unfold line_byte, is_terminator.
  rewrite (N LF), (N CR), (N NUL) by (cbn; lia). reflexivity.
Qed.

Lemma atoi_dec (n : Z) : INT_MIN <= n <= INT_MAX -> atoi (dec n) = n.
Proof.
  unfold INT_MIN, INT_MAX. intros H. unfold dec.
  destruct (Z.ltb_spec n 0) as [Neg | Pos].
  - unfold atoi. cbn [skip_spaces]. change (is_space "-") with false.
    cbn iota. change (Ascii.eqb "-" "-") with true. cbn iota.
    pose proof (digits_value_dec 10 (- n) 0 []) as E.
    rewrite app_nil_r in E. rewrite E.
    + cbn [digits_value]. unfold INT_MIN. lia.
    + change (10 ^ Z.of_nat 10) with 10000000000. lia.
  - pose proof (dec_digits_digits 10 n Pos) as Hd.
    pose proof (digits_value_dec 10 n 0 []) as E.
    rewrite app_nil_r in E.
    destruct (dec_digits 10 n) as [|c r] eqn:Ed;
      [exact (False_ind _ (dec_digits_nonempty 9 n Ed))|].
    cbn [forallb] in Hd. apply andb_true_iff in Hd. destruct Hd as [Hc _].
    destruct (digit_not_special c Hc) as (S1 & S2 & S3 & _).
    unfold atoi. cbn [skip_spaces]. rewrite S1, S2, S3. rewrite E.
    + cbn [digits_value]. unfold INT_MAX. lia.
    + change (10 ^ Z.of_nat 10) with 10000000000. lia.
Qed.

(** The characters of the text of a number. *)
Lemma dec_chars (n : Z) :
  exists c r,
    dec n = c :: r
    /\ Ascii.eqb c "," = false /\ Ascii.eqb c "S" = false
    /\ forallb (fun x => negb (Ascii.eqb x ",")) (dec n) = true
    /\ forallb line_byte (dec n) = true
    /\ (List.length (dec n) <= 11)%nat.
Proof.
  assert (D : forall m, 0 <= m ->
            forallb (fun x => negb (Ascii.eqb x ",")) (dec_digits 10 m) = true
            /\ forallb line_byte (dec_digits 10 m) = true).
  { intros m Hm. pose proof (dec_digits_digits 10 m Hm) as H.
    rewrite forallb_forall in H. split; apply forallb_forall; intros x Hx.
    - destruct (digit_not_special x (H x Hx)) as (_ & _ & _ & E & _).
      rewrite E. reflexivity.
    - apply (digit_not_special x (H x Hx)). }
  unfold dec. destruct (Z.ltb_spec n 0) as [Neg | Pos].
  - destruct (D (- n) ltac:(lia)) as (D1 & D2).
    exists "-"%char, (dec_digits 10 (- n)). split; [reflexivity|].
    split; [reflexivity|]. split; [reflexivity|].
    cbn [forallb]. rewrite D1, D2.
    split; [reflexivity|]. split; [reflexivity|].
    cbn [List.length]. pose proof (dec_digits_length 10 (- n)). lia.
  - destruct (D n Pos) as (D1 & D2).
    pose proof (dec_digits_digits 10 n Pos) as Hd.
    destruct (dec_digits 10 n) as [|c r] eqn:Ed;
      [exact (False_ind _ (dec_digits_nonempty 9 n Ed))|].
    exists c, r. split; [reflexivity|].
    cbn [forallb] in Hd. apply andb_true_iff in Hd. destruct Hd as [Hc _].
    destruct (digit_not_special c Hc) as (_ & _ & _ & S4 & S5 & _).
    split; [exact S4|]. split; [exact S5|].
    split; [exact D1|]. split; [exact D2|].
    rewrite <- Ed. pose proof (dec_digits_length 10 n). lia.
Qed.

Lemma token_end_app (tok rest : list ascii) :
  forallb (fun x => negb (Ascii.eqb x ",")) tok = true ->
  token_end (tok ++ ","%char :: rest) = (tok, rest).
Proof.
  induction tok as [|c r IH]; intros H; [reflexivity|].
  cbn [forallb] in H. apply andb_true_iff in H. destruct H as [Hc Hr].
  apply negb_true_iff in Hc. cbn [app token_end]. rewrite Hc, (IH Hr). reflexivity.
Qed.

Lemma token_end_whole (tok : list ascii) :
  forallb (fun x => negb (Ascii.eqb x ",")) tok = true ->
  token_end tok = (tok, []).
Proof.
  induction tok as [|c r IH]; intros H; [reflexivity|].
  cbn [forallb] in H. apply andb_true_iff in H. destruct H as [Hc Hr].
  apply negb_true_iff in Hc. cbn [token_end]. rewrite Hc, (IH Hr). reflexivity.
Qed.

Lemma strtok_motor_line (l r : Z) :
  strtok (motor_line l r) = Some (dec l, dec r)
  /\ strtok (dec r) = Some (dec r, []).
Proof.
  unfold motor_line, strtok.
  destruct (dec_chars l) as (c & t & El & Hc & _ & Hl & _).
  destruct (dec_chars r) as (c' & t' & Er & Hc' & _ & Hr & _).
  split.
  - rewrite El. cbn [app skip_delim]. rewrite Hc.
    change (c :: t ++ ","%char :: dec r) with ((c :: t) ++ ","%char :: dec r).
    rewrite <- El. rewrite token_end_app by exact Hl. reflexivity.
  - rewrite Er. cbn [skip_delim]. rewrite Hc'.
    rewrite <- Er. rewrite token_end_whole by exact Hr. reflexivity.
Qed.

Lemma cstr_head (cmd : list ascii) (c : ascii) (r : list ascii) :
  cstr cmd = c :: r -> rd cmd 0 = c.
Proof.
  destruct cmd as [|x t]; [discriminate|].
  cbn [cstr rd nth]. destruct (Ascii.eqb x NUL); [discriminate|].
  intros H. injection H. auto.
Qed.

(** The interpreter on the text of a motor line. *)
Lemma processCommand_motor_line (now : Z) (cmd : list ascii) (g : Globals) (l r : Z) :
  INT_MIN <= l <= INT_MAX -> INT_MIN <= r <= INT_MAX ->
  cstr cmd = motor_line l r ->
  processCommand now cmd g
  = set_motors (Motor.setTarget l (leftMotor (resetFailsafe now g)))
      (Motor.setTarget r (rightMotor (resetFailsafe now g)))
      (negb (l =? 0)) (negb (r =? 0)) (resetFailsafe now g).
Proof.
  intros Hl Hr Hc. unfold processCommand.
  destruct (dec_chars l) as (c & t & El & _ & HS & _).
  assert (Hh : rd cmd 0 = c).
  { apply (cstr_head cmd c (t ++ ","%char :: dec r)).
    rewrite Hc. unfold motor_line. rewrite El. reflexivity. }
  rewrite Hh, HS, Hc.
  destruct (strtok_motor_line l r) as (T1 & T2).
  rewrite T1, T2, (atoi_dec l Hl), (atoi_dec r Hr). reflexivity.
Qed.

Lemma motor_line_fields (now : Z) (cmd : list ascii) (g : Globals) (l r : Z) :
  INT_MIN <= l <= INT_MAX -> INT_MIN <= r <= INT_MAX ->
  cstr cmd = motor_line l r ->
  Motor.targetPWM (leftMotor (processCommand now cmd g)) = iconstrain l (-255) 255
  /\ Motor.targetPWM (rightMotor (processCommand now cmd g)) = iconstrain r (-255) 255
  /\ isLeftMotorActive (processCommand now cmd g) = negb (l =? 0)
  /\ isRightMotorActive (processCommand now cmd g) = negb (r =? 0)
  /\ Motor.currentPWM (leftMotor (processCommand now cmd g))
     = Motor.currentPWM (leftMotor g)
  /\ Motor.currentPWM (rightMotor (processCommand now cmd g))
     = Motor.currentPWM (rightMotor g)
  /\ failsafeTriggered (processCommand now cmd g) = false
  /\ lastCommandTime (processCommand now cmd g) = now.
Proof.
  intros Hl Hr Hc.
  destruct (processCommand_fields now cmd g) as (F1 & F2 & _).
  rewrite (processCommand_motor_line now cmd g l r Hl Hr Hc) in *.
  destruct (resetFailsafe_fields now g) as (_ & _ & _ & H4 & _).
  unfold actuators in H4.
  assert (EL : leftMotor (resetFailsafe now g) = leftMotor g) by congruence.
  assert (ER : rightMotor (resetFailsafe now g) = rightMotor g) by congruence.
  cbn [leftMotor rightMotor isLeftMotorActive isRightMotorActive set_motors
       Motor.setTarget Motor.targetPWM Motor.currentPWM].
  rewrite EL, ER.
  split; [reflexivity|]. split; [reflexivity|]. split; [reflexivity|].
  split; [reflexivity|]. split; [reflexivity|]. split; [reflexivity|].
  split; [exact F1 | exact F2].
Qed.

(** X18. Decimal text round trip. For any two [int] values, the
    interpreter given the line "l,r" in decimal reads back exactly those
    values: the targets become [l] and [r] clamped to [-255, 255], each
    activity flag tells whether its value is not 0, the currents are
    untouched, the failsafe flag is clear and the command clock is the
    dispatch clock. *)
Theorem X18_motor_line_round_trip :
  forall (now : Z) (cmd : list ascii) (g : Globals) (l r : Z),
    INT_MIN <= l <= INT_MAX -> INT_MIN <= r <= INT_MAX ->
    cstr cmd = motor_line l r ->
    atoi (dec l) = l /\ atoi (dec r) = r
    /\ Motor.targetPWM (leftMotor (processCommand now cmd g)) = iconstrain l (-255) 255
    /\ Motor.targetPWM (rightMotor (processCommand now cmd g)) = iconstrain r (-255) 255
    /\ isLeftMotorActive (processCommand now cmd g) = negb (l =? 0)
    /\ isRightMotorActive (processCommand now cmd g) = negb (r =? 0)
    /\ Motor.currentPWM (leftMotor (processCommand now cmd g))
       = Motor.currentPWM (leftMotor g)
    /\ Motor.currentPWM (rightMotor (processCommand now cmd g))
       = Motor.currentPWM (rightMotor g)
    /\ failsafeTriggered (processCommand now cmd g) = false
    /\ lastCommandTime (processCommand now cmd g) = now.
Proof.
  intros now cmd g l r Hl Hr Hc.
  split; [exact (atoi_dec l Hl)|]. split; [exact (atoi_dec r Hr)|].
  exact (motor_line_fields now cmd g l r Hl Hr Hc).
Qed.

Lemma X18_witness :
  cstr (list_ascii_of_string "-300,17") = motor_line (-300) 17
  /\ Motor.targetPWM
       (leftMotor (processCommand 5 (list_ascii_of_string "-300,17") initial_globals))
     = iconstrain (-300) (-255) 255.
Proof.
  assert (H1 : INT_MIN <= -300 <= INT_MAX) by (unfold INT_MIN, INT_MAX; lia).
  assert (H2 : INT_MIN <= 17 <= INT_MAX) by (unfold INT_MIN, INT_MAX; lia).
  assert (H3 : cstr (list_ascii_of_string "-300,17") = motor_line (-300) 17)
    by reflexivity.
  split; [exact H3|].
  exact (proj1 (proj2 (proj2
           (X18_motor_line_round_trip 5 (list_ascii_of_string "-300,17")
              initial_globals (-300) 17 H1 H2 H3)))).
Defined.

Lemma motor_line_chars (l r : Z) :
  motor_line l r <> []
  /\ forallb line_byte (motor_line l r) = true
  /\ firstn 31 (motor_line l r) = motor_line l r.
Proof.
  unfold motor_line.
  destruct (dec_chars l) as (c & t & El & _ & _ & _ & Ll & Nl).
  destruct (dec_chars r) as (c' & t' & Er & _ & _ & _ & Lr & Nr).
  split; [rewrite El; discriminate|].
  split.
  - rewrite forallb_app. cbn [forallb]. rewrite Ll, Lr. reflexivity.
  - apply firstn_all2. rewrite length_app. cbn [List.length]. lia.
Qed.

(** X19. A motor line from the wire to the targets. On a well-formed
    state with the USB channel idle, the bytes of "l,r" in decimal
    followed by a terminator (and any further terminators), with nothing
    on the radio, make the input stage set the motor targets to [l] and
    [r] clamped to [-255, 255] and the activity flags accordingly, leave
    the currents alone, clear the failsafe flag, stamp the command clock,
    and leave the USB channel idle. *)
Theorem X19_motor_line_end_to_end :
  forall (now l r : Z) (t : ascii) (ts : list ascii) (g : Globals),
    wf g -> usbIndex g = 0 ->
    INT_MIN <= l <= INT_MAX -> INT_MIN <= r <= INT_MAX ->
    is_terminator t = true -> forallb is_terminator ts = true ->
    exists g1,
      readInputs (bytes_at now (motor_line l r ++ t :: ts)) [] g = Some g1
      /\ Motor.targetPWM (leftMotor g1) = iconstrain l (-255) 255
      /\ Motor.targetPWM (rightMotor g1) = iconstrain r (-255) 255
      /\ isLeftMotorActive g1 = negb (l =? 0)
      /\ isRightMotorActive g1 = negb (r =? 0)
      /\ Motor.currentPWM (leftMotor g1) = Motor.currentPWM (leftMotor g)
      /\ Motor.currentPWM (rightMotor g1) = Motor.currentPWM (rightMotor g)
      /\ failsafeTriggered g1 = false
      /\ lastCommandTime g1 = now
      /\ usbIndex g1 = 0.
Proof.
  intros now l r t ts g Hwf Hi Hl Hr Ht Hts.
  pose proof Hwf as (Hu & Hrd & _).
  destruct (motor_line_chars l r) as (Hne & Hlb & Hfn).
  destruct (frames_line_run now (motor_line l r) t ts (usbBuffer g) []
              (proj1 Hu) Hne Hlb Ht Hts) as (b' & E1 & E2 & Hc & _).
  rewrite app_nil_r in E1, E2. rewrite Hfn in Hc.
  rewrite (readInputs_batch _ _ g Hu Hrd). rewrite Hi, E1, E2.
  cbn [frames channel_after app fst snd].
  eexists. split; [reflexivity|].
  unfold after_inputs.
  cbn [leftMotor rightMotor isLeftMotorActive isRightMotorActive failsafeTriggered
       lastCommandTime usbIndex set_radio set_usb processAll fold_left fst snd].
  destruct (motor_line_fields now b' g l r Hl Hr Hc)
    as (M1 & M2 & M3 & M4 & M5 & M6 & M7 & M8).
  split; [exact M1|]. split; [exact M2|]. split; [exact M3|]. split; [exact M4|].
  split; [exact M5|]. split; [exact M6|]. split; [exact M7|].
  split; [exact M8 | reflexivity].
Qed.

Lemma X19_witness :
  wf (setup 0 0)
  /\ usbIndex (setup 0 0) = 0
  /\ exists g1,
      readInputs (bytes_at 9 (motor_line 120 (-40) ++ CR :: [LF])) [] (setup 0 0)
      = Some g1
      /\ Motor.targetPWM (leftMotor g1) = iconstrain 120 (-255) 255
      /\ Motor.targetPWM (rightMotor g1) = iconstrain (-40) (-255) 255
      /\ isLeftMotorActive g1 = negb (120 =? 0)
      /\ isRightMotorActive g1 = negb (-40 =? 0)
      /\ Motor.currentPWM (leftMotor g1) = Motor.currentPWM (leftMotor (setup 0 0))
      /\ Motor.currentPWM (rightMotor g1) = Motor.currentPWM (rightMotor (setup 0 0))
      /\ failsafeTriggered g1 = false
      /\ lastCommandTime g1 = 9
      /\ usbIndex g1 = 0.
Proof.
  assert (H1 : wf (setup 0 0)).
  { repeat split; try reflexivity; cbn; try lia; auto. }
  assert (H2 : usbIndex (setup 0 0) = 0) by reflexivity.
  assert (H3 : INT_MIN <= 120 <= INT_MAX) by (unfold INT_MIN, INT_MAX; lia).
  assert (H4 : INT_MIN <= -40 <= INT_MAX) by (unfold INT_MIN, INT_MAX; lia).
  assert (H5 : is_terminator CR = true) by reflexivity.
  assert (H6 : forallb is_terminator [LF] = true) by reflexivity.
  split; [exact H1|]. split; [exact H2|].
  exact (X19_motor_line_end_to_end 9 120 (-40) CR [LF] (setup 0 0)
           H1 H2 H3 H4 H5 H6).
Defined.

(* ================================================================== *)
(** * transmitCode: the log line and its 16-byte buffer *)
(* ================================================================== *)

Lemma dec_digits_length_le (fuel : nat) :
  forall (k : nat) (n : Z),
    (1 <= k)%nat -> 0 <= n < 10 ^ Z.of_nat k ->
    (List.length (dec_digits fuel n) <= k)%nat.
Proof.
  induction fuel as [|f IH]; intros k n Hk Hn; [cbn; lia|].
  cbn [dec_digits]. destruct (Z.ltb_spec n 10) as [Lt | Ge]; [cbn; lia|].
  rewrite length_app. cbn [List.length].
  destruct k as [|k]; [lia|].
  rewrite Nat2Z.inj_succ, Z.pow_succ_r in Hn by lia.
  destruct k as [|k]; [cbn in Hn; lia|].
  assert (Hq : 0 <= n / 10 < 10 ^ Z.of_nat (S k)).
  { split; [apply Z.div_pos; lia|]. apply Z.div_lt_upper_bound; lia. }
  specialize (IH (S k) (n / 10) ltac:(lia) Hq). lia.
Qed.

Lemma dec_digits_length_ge (k : nat) :
  forall (fuel : nat) (n : Z),
    (k < fuel)%nat -> 10 ^ Z.of_nat k <= n ->
    (k + 1 <= List.length (dec_digits fuel n))%nat.
Proof.
  induction k as [|k IH]; intros fuel n Hf Hn; (destruct fuel as [|f]; [lia|]);
    cbn [dec_digits].
  - destruct (n <? 10); [cbn; lia|]. rewrite length_app. cbn [List.length]. lia.
  - rewrite Nat2Z.inj_succ, Z.pow_succ_r in Hn by lia.
    assert (Hp : 1 <= 10 ^ Z.of_nat k) by (apply Z.pow_le_mono_r with (b := 0); lia).
    destruct (Z.ltb_spec n 10) as [Lt | Ge]; [lia|].
    rewrite length_app. cbn [List.length].
    assert (Hq : 10 ^ Z.of_nat k <= n / 10) by (apply Z.div_le_lower_bound; lia).
    specialize (IH f (n / 10) ltac:(lia) Hq). lia.
Qed.

Lemma fmt_06d_code_length (c : SystemCode) :
  List.length (fmt_06d (SystemCode_value c)) = 6%nat.
Proof. destruct c; reflexivity. Qed.

Lemma fmt_06d_code_inj (c1 c2 : SystemCode) :
  fmt_06d (SystemCode_value c1) = fmt_06d (SystemCode_value c2) -> c1 = c2.
Proof.
  destruct c1, c2; intros H; try reflexivity; vm_compute in H; discriminate H.
Qed.

Lemma codeBuffer_short (now : Z) (c : SystemCode) :
  0 <= now < 100000000 ->
  codeBuffer now c = dec_digits 10 now ++ ","%char :: fmt_06d (SystemCode_value c).
Proof.
  intros H. unfold codeBuffer. apply firstn_all2.
  rewrite length_app. cbn [List.length]. rewrite fmt_06d_code_length.
  pose proof (dec_digits_length_le 10 8 now ltac:(lia)) as L.
  change (10 ^ Z.of_nat 8) with 100000000 in L. specialize (L H). lia.
Qed.

(** X20. The log line of [transmitCode]. While [millis()] is below 10^8
    (about 27.8 hours of uptime) the 16-byte buffer holds the whole text
    "millis,00code", and different codes give different lines. From 10^8
    ms on the text no longer fits, [snprintf] cuts it, and the lines for
    SAFE_FAILSAFE_TRIGGER (4005) and SAFE_FAILSAFE_CLEAR (4006) are the
    same: the log can no longer tell a trip from a recovery. *)
Theorem X20_log_line_truncation :
  forall now : Z,
    0 <= now < 4294967296 ->
    (now < 100000000 ->
       (forall c, codeBuffer now c
                  = dec_digits 10 now ++ ","%char :: fmt_06d (SystemCode_value c))
       /\ (forall c1 c2, codeBuffer now c1 = codeBuffer now c2 -> c1 = c2))
    /\ (100000000 <= now ->
          codeBuffer now SAFE_FAILSAFE_TRIGGER = codeBuffer now SAFE_FAILSAFE_CLEAR).
Proof.
  intros now Hn. split.
  - intros Hs. split.
    + intros c. apply codeBuffer_short. lia.
    + intros c1 c2 H.
      rewrite !codeBuffer_short in H by lia.
      apply app_inv_head in H. injection H as H.
      exact (fmt_06d_code_inj c1 c2 H).
  - intros Hl. unfold codeBuffer.
    pose proof (dec_digits_length 10 now) as Lu.
    pose proof (dec_digits_length_ge 8 10 now ltac:(lia)) as Ll.
    change (10 ^ Z.of_nat 8) with 100000000 in Ll. specialize (Ll Hl).
    rewrite !firstn_app. f_equal.
    assert (E : List.length (dec_digits 10 now) = 9%nat
                \/ List.length (dec_digits 10 now) = 10%nat) by lia.
    destruct E as [-> | ->]; reflexivity.
Qed.

Lemma X20_witness :
  0 <= 100000000 < 4294967296
  /\ codeBuffer 100000000 SAFE_FAILSAFE_TRIGGER
     = codeBuffer 100000000 SAFE_FAILSAFE_CLEAR.
Proof.
  assert (H : 0 <= 100000000 < 4294967296) by lia.
  assert (H' : 100000000 <= 100000000) by lia.
  split; [exact H|].
  exact (proj2 (X20_log_line_truncation 100000000 H) H').
Defined.

(* ================================================================== *)
(** * ServoController: holding position *)
(* ================================================================== *)

Lemma same_value_refl (a : F32.t) : same_value a a.
Proof. left. reflexivity. Qed.

Lemma same_value_trans (a b c : F32.t) :
  same_value a b -> same_value b c -> same_value a c.
Proof.
  intros [-> | (s & s' & -> & ->)] [E | (u & u' & Eu & ->)].
  - left. exact E.
  - right. eauto.
  - subst c. right. eauto.
  - right. eauto.
Qed.

Lemma leb_not_ltb (x y : F32.t) : F32.leb x y = true -> F32.ltb y x = false.
Proof.
  unfold F32.leb, F32.ltb, SFleb, SFltb. rewrite (SFcompare_antisym x y).
  destruct (SFcompare x y) as [[| |]|]; cbn; intros; try discriminate; reflexivity.
Qed.

(** An angle in range with speed +0 added and clamped keeps its value. *)
Lemma hold_angle (a : F32.t) :
  angle_in_range a ->
  same_value (F32.fconstrain (F32.add a (S754_zero false)) 0 180) a.
Proof.
  intros (H0 & H180).
  pose proof (angle_ok_finite a H0 H180) as Hf.
  destruct a as [s|s| |s m e]; try contradiction.
  - right. destruct s; vm_compute; eauto.
  - left.
    assert (E : F32.add (S754_finite s m e) (S754_zero false) = S754_finite s m e)
      by reflexivity.
    rewrite E. unfold F32.fconstrain.
    rewrite (leb_not_ltb _ _ H0).
    unfold F32.gtb. fold (F32.ltb (F32.of_Z 180) (S754_finite s m e)).
    rewrite (leb_not_ltb _ _ H180). reflexivity.
Qed.

Lemma hold_joint (sc : ServoController.t) (j : nat) :
  servo_ok sc ->
  ServoController.speeds sc = repeat (S754_zero false) 6 ->
  ServoController.speeds (ServoController.update_joint (repeat NUL 6) sc j)
  = repeat (S754_zero false) 6
  /\ forall k,
       same_value
         (nth k (ServoController.angles
                   (ServoController.update_joint (repeat NUL 6) sc j)) F32.zero)
         (nth k (ServoController.angles sc) F32.zero).
Proof.
  intros (Hlen & Han & _) Hs.
  unfold ServoController.update_joint.
  cbn [ServoController.speeds ServoController.angles].
  assert (E : ServoController.ramp (nth j (ServoController.speeds sc) F32.zero)
                (ServoController.targetSpeed sc j (nth j (repeat NUL 6) NUL))
                (ServoController.accel sc) (ServoController.decel sc)
              = S754_zero false).
  { rewrite Hs, (nth_repeat NUL 6 j).
    do 6 (destruct j as [|j]; [reflexivity|]). destruct j; reflexivity. }
  rewrite E, Hs. split; [apply upd_repeat|].
  intros k. destruct (Nat.eq_dec j k) as [<- | Hjk].
  - destruct (Nat.lt_ge_cases j 6) as [Lt | Ge].
    + rewrite nth_upd_same by lia.
      apply hold_angle.
      apply (Forall_nth_default angle_in_range); [exact Han|].
      split; reflexivity.
    + rewrite !nth_overflow by (rewrite ?upd_length; lia). apply same_value_refl.
  - rewrite nth_upd_other by exact Hjk. apply same_value_refl.
Qed.

Lemma hold_update (sc : ServoController.t) :
  servo_ok sc ->
  ServoController.speeds sc = repeat (S754_zero false) 6 ->
  ServoController.speeds (ServoController.update (repeat NUL 6) sc)
  = repeat (S754_zero false) 6
  /\ forall k,
       same_value
         (nth k (ServoController.angles (ServoController.update (repeat NUL 6) sc))
              F32.zero)
         (nth k (ServoController.angles sc) F32.zero).
Proof.
  unfold ServoController.update.
  generalize (seq 0 (Z.to_nat ServoController.numServos)). intros js.
  revert sc. induction js as [|j r IH]; intros sc Hok Hs.
  - split; [exact Hs | intros k; apply same_value_refl].
  - cbn [fold_left].
    destruct (hold_joint sc j Hok Hs) as (Hs1 & Ha1).
    destruct (IH _ (update_joint_ok (repeat NUL 6) sc j Hok) Hs1) as (Hs2 & Ha2).
    split; [exact Hs2|].
    intros k. exact (same_value_trans _ _ _ (Ha2 k) (Ha1 k)).
Qed.

Lemma hold_iter (n : nat) :
  forall sc,
    servo_ok sc ->
    ServoController.speeds sc = repeat (S754_zero false) 6 ->
    ServoController.speeds (iter n (ServoController.update (repeat NUL 6)) sc)
    = repeat (S754_zero false) 6
    /\ forall k,
         same_value
           (nth k (ServoController.angles
                     (iter n (ServoController.update (repeat NUL 6)) sc)) F32.zero)
           (nth k (ServoController.angles sc) F32.zero).
Proof.
  induction n as [|n IH]; intros sc Hok Hs.
  - split; [exact Hs | intros k; apply same_value_refl].
  - rewrite iter_S.
    destruct (hold_update sc Hok Hs) as (Hs1 & Ha1).
    destruct (IH _ (servo_update_ok (repeat NUL 6) sc Hok) Hs1) as (Hs2 & Ha2).
    split; [exact Hs2|].
    intros k. exact (same_value_trans _ _ _ (Ha2 k) (Ha1 k)).
Qed.

(** X21. A stopped controller holds its position. After [emergencyStop],
    on a controller with its angles in range, any number of update ticks
    with all six commands at Hold leave every speed at +0 and every joint
    angle at the value it had (a zero angle stays a zero). *)
Theorem X21_stopped_servos_hold :
  forall (sc : ServoController.t) (n : nat) (k : nat),
    servo_ok sc ->
    List.length (ServoController.speeds sc) = 6%nat ->
    let sc' := iter n (ServoController.update (repeat NUL 6))
                 (ServoController.emergencyStop sc) in
    ServoController.speeds sc' = repeat (S754_zero false) 6
    /\ ServoController.isActive sc' = false
    /\ same_value (nth k (ServoController.angles sc') F32.zero)
                  (nth k (ServoController.angles sc) F32.zero).
Proof.
  intros sc n k (Hlen & Han & Hsp) Hl sc'.
  assert (Hs : ServoController.speeds (ServoController.emergencyStop sc)
               = repeat (S754_zero false) 6).
  { cbn [ServoController.emergencyStop ServoController.speeds].
    rewrite map_const_repeat, Hl. reflexivity. }
  assert (Hok : servo_ok (ServoController.emergencyStop sc)).
  { split; [exact Hlen|]. split; [exact Han|].
    rewrite Hs. apply Forall_repeat_intro. reflexivity. }
  destruct (hold_iter n _ Hok Hs) as (H1 & H2).
  fold sc' in H1, H2.
  split; [exact H1|]. split.
  - unfold ServoController.isActive. rewrite H1. reflexivity.
  - exact (H2 k).
Qed.

Lemma X21_witness :
  servo_ok ServoController.ctor
  /\ List.length (ServoController.speeds ServoController.ctor) = 6%nat
  /\ ServoController.speeds
       (iter 3 (ServoController.update (repeat NUL 6))
          (ServoController.emergencyStop ServoController.ctor))
     = repeat (S754_zero false) 6.
Proof.
  assert (H : servo_ok ServoController.ctor).
  { unfold servo_ok, ServoController.ctor.
    cbn [ServoController.angles ServoController.speeds repeat].
    split; [reflexivity|]. split.
    - repeat (apply Forall_cons; [split; vm_compute; reflexivity|]). apply Forall_nil.
    - repeat (apply Forall_cons; [reflexivity|]). apply Forall_nil. }
  assert (L : List.length (ServoController.speeds ServoController.ctor) = 6%nat)
    by reflexivity.
  split; [exact H|]. split; [exact L|].
  exact (proj1 (X21_stopped_servos_hold ServoController.ctor 3 0 H L)).
Defined.

(* ================================================================== *)
(** * Motors: slew rate in time *)
(* ================================================================== *)

Lemma usub32_small (a b : Z) : 0 <= b <= a -> a < 4294967296 -> usub32 a b = a - b.
Proof. intros H1 H2. unfold usub32. apply Z.mod_small. lia. Qed.

Lemma updateMotors_timed (now : Z) (g : Globals) :
  0 <= lastMotorTime g <= now -> now < 4294967296 ->
  (updateMotors now g = g)
  \/ (lastMotorTime g + MOTOR_INTERVAL <= now
      /\ lastMotorTime (updateMotors now g) = now
      /\ leftMotor (updateMotors now g) = Motor.update (leftMotor g)
      /\ rightMotor (updateMotors now g) = Motor.update (rightMotor g)).
Proof.
  intros H1 H2. unfold updateMotors. rewrite (usub32_small _ _ H1 H2).
  rewrite Z.geb_leb.
  destruct (Z.leb_spec MOTOR_INTERVAL (now - lastMotorTime g)) as [Le | Gt].
  - right. split; [lia|]. repeat split; reflexivity.
  - left. reflexivity.
Qed.

Lemma abs_update (m : Motor.t) :
  motor_ok Motor.default_step m ->
  Z.abs (Motor.currentPWM (Motor.update m)) <= Z.abs (Motor.currentPWM m) + 5.
Proof.
  intros H.
  assert (Hstep : 0 <= Motor.default_step <= INT_MAX - 255)
    by (unfold Motor.default_step, INT_MAX; lia).
  destruct (update_step _ Hstep m H) as (Hs & _).
  unfold Motor.default_step in Hs. lia.
Qed.

(** One pass of [loop] under a clock that has not run backwards. *)
Lemma loop_slew (c : cycle) (g : Globals) :
  wf g -> motors_ok g ->
  0 <= lastMotorTime g <= cy_now c -> cy_now c < 4294967296 ->
  exists g',
    loop c g = Some g' /\ wf g' /\ motors_ok g'
    /\ lastMotorTime g <= lastMotorTime g' <= cy_now c
    /\ 2 * (Z.abs (Motor.currentPWM (leftMotor g'))
            - Z.abs (Motor.currentPWM (leftMotor g)))
       <= lastMotorTime g' - lastMotorTime g
    /\ 2 * (Z.abs (Motor.currentPWM (rightMotor g'))
            - Z.abs (Motor.currentPWM (rightMotor g)))
       <= lastMotorTime g' - lastMotorTime g.
Proof.
  intros Hwf Hm Ht Hn.
  destruct (loop_keeps c g Hwf) as (g' & E & W' & _).
  exists g'. split; [exact E|]. split; [exact W'|].
  destruct (loop_after_inputs c g g' Hwf E) as (bu & iu & br & ir & l & Eg).
  cbv zeta in Eg.
  set (batch := batch_of (cy_usb c) (cy_radio c) g) in *.
  set (g1 := after_inputs batch bu iu br ir g) in *.
  set (g2 := failsafeCheck (cy_now c) g1) in *.
  set (g3 := updateMotors (cy_now c) g2) in *.
  set (g4 := updateServos (cy_now c) g3) in *.
  (* input stage *)
  destruct (processAll_motors batch g Hm) as (M1 & CL1 & CR1).
  destruct (processAll_fields batch g) as (_ & _ & _ & T1 & _).
  assert (Hm1 : motors_ok g1) by exact M1.
  assert (L1 : Motor.currentPWM (leftMotor g1) = Motor.currentPWM (leftMotor g))
    by exact CL1.
  assert (R1 : Motor.currentPWM (rightMotor g1) = Motor.currentPWM (rightMotor g))
    by exact CR1.
  assert (Tm1 : lastMotorTime g1 = lastMotorTime g).
  { change (lastMotorTime g1) with (lastMotorTime (processAll batch g)). congruence. }
  (* failsafe block *)
  assert (S2 : motors_ok g2 /\ lastMotorTime g2 = lastMotorTime g1
               /\ Z.abs (Motor.currentPWM (leftMotor g2))
                  <= Z.abs (Motor.currentPWM (leftMotor g1))
               /\ Z.abs (Motor.currentPWM (rightMotor g2))
                  <= Z.abs (Motor.currentPWM (rightMotor g1))).
  { destruct (failsafeCheck_cases (cy_now c) g1) as [Ec | (_ & _ & Ec)].
    - fold g2 in Ec. rewrite Ec. split; [exact Hm1|]. split; [reflexivity|]. lia.
    - fold g2 in Ec. rewrite Ec.
      split; [split; apply emergencyStop_ok; apply Hm1|].
      split; [reflexivity|].
      cbn [leftMotor rightMotor transmitCode set_failsafe set_servoCommands set_motors
           Motor.emergencyStop Motor.currentPWM].
      split; apply Z.abs_nonneg. }
  destruct S2 as (Hm2 & Tm2 & L2 & R2).
  (* motor update *)
  assert (S3 : motors_ok g3
               /\ lastMotorTime g2 <= lastMotorTime g3 <= cy_now c
               /\ 2 * (Z.abs (Motor.currentPWM (leftMotor g3))
                       - Z.abs (Motor.currentPWM (leftMotor g2)))
                  <= lastMotorTime g3 - lastMotorTime g2
               /\ 2 * (Z.abs (Motor.currentPWM (rightMotor g3))
                       - Z.abs (Motor.currentPWM (rightMotor g2)))
                  <= lastMotorTime g3 - lastMotorTime g2).
  { assert (Hstep : 0 <= Motor.default_step <= INT_MAX - 255)
      by (unfold Motor.default_step, INT_MAX; lia).
    assert (Hb : 0 <= lastMotorTime g2 <= cy_now c) by lia.
    destruct (updateMotors_timed (cy_now c) g2 Hb Hn) as [Eu | (Hi & Tu & Lu & Ru)].
    - fold g3 in Eu. rewrite Eu. split; [exact Hm2|]. lia.
    - fold g3 in Tu, Lu, Ru. unfold motors_ok. rewrite Tu, Lu, Ru.
      destruct Hm2 as (Ml & Mr).
      split; [split; apply update_ok; assumption|].
      pose proof (abs_update _ Ml). pose proof (abs_update _ Mr).
      unfold MOTOR_INTERVAL in Hi. lia. }
  destruct S3 as (Hm3 & Tm3 & L3 & R3).
  (* servo update and indicators *)
  destruct (updateServos_motors (cy_now c) g3) as (L4 & R4).
  fold g4 in L4, R4.
  assert (Tm4 : lastMotorTime g4 = lastMotorTime g3).
  { destruct (updateServos_cases (cy_now c) g3) as [Es | Es]; fold g4 in Es;
      rewrite Es; reflexivity. }
  subst g'. unfold motors_ok.
  cbn [leftMotor rightMotor lastMotorTime set_led_comms].
  rewrite L4, R4, Tm4.
  split; [exact Hm3|]. split; [lia|]. split; lia.
Qed.

Lemma last_cons_head {A : Type} (x : A) (l : list A) (d : A) :
  last (x :: l) d = last l x.
Proof.
  destruct l as [|y r]; [reflexivity|].
  change (last (y :: r) d = last (y :: r) x). apply last_cons_default.
Qed.

Lemma run_loop_slew (cs : list cycle) :
  forall (t : Z) (g : Globals),
    wf g -> motors_ok g ->
    0 <= lastMotorTime g <= t -> clocks_ok t cs ->
    exists g',
      run_loop cs g = Some g'
      /\ lastMotorTime g <= lastMotorTime g' <= last (map cy_now cs) t
      /\ 2 * (Z.abs (Motor.currentPWM (leftMotor g'))
              - Z.abs (Motor.currentPWM (leftMotor g)))
         <= lastMotorTime g' - lastMotorTime g
      /\ 2 * (Z.abs (Motor.currentPWM (rightMotor g'))
              - Z.abs (Motor.currentPWM (rightMotor g)))
         <= lastMotorTime g' - lastMotorTime g.
Proof.
  induction cs as [|c r IH]; intros t g Hwf Hm Ht Hc.
  - exists g. cbn [map last]. split; [reflexivity|]. lia.
  - destruct Hc as (Hc1 & Hc2). rewrite run_loop_cons.
    destruct (loop_slew c g Hwf Hm ltac:(lia) ltac:(lia))
      as (g1 & E & W1 & M1 & T1 & L1 & R1).
    rewrite E.
    destruct (IH (cy_now c) g1 W1 M1 ltac:(lia) Hc2) as (g' & E' & T' & L' & R').
    exists g'. split; [exact E'|].
    cbn [map]. rewrite last_cons_head.
    split; [lia|]. split; lia.
Qed.

(** X22. Slew rate in time. Over any run of passes whose clock readings
    never run backwards and stay below 2^32, from a well-formed state
    with the motors in range and [lastMotorTime] not in the future, the
    magnitude of each motor's [currentPWM] grows by at most one unit per
    2 ms elapsed since [lastMotorTime], however many lines arrive and
    however the passes are spaced; the failsafe can only lower it. *)
Theorem X22_slew_rate_in_time :
  forall (cs : list cycle) (t : Z) (g : Globals),
    wf g -> motors_ok g ->
    0 <= lastMotorTime g <= t -> clocks_ok t cs ->
    exists g',
      run_loop cs g = Some g'
      /\ 2 * (Z.abs (Motor.currentPWM (leftMotor g'))
              - Z.abs (Motor.currentPWM (leftMotor g)))
         <= last (map cy_now cs) t - lastMotorTime g
      /\ 2 * (Z.abs (Motor.currentPWM (rightMotor g'))
              - Z.abs (Motor.currentPWM (rightMotor g)))
         <= last (map cy_now cs) t - lastMotorTime g.
Proof.
  intros cs t g Hwf Hm Ht Hc.
  destruct (run_loop_slew cs t g Hwf Hm Ht Hc) as (g' & E & T & L & R).
  exists g'. split; [exact E|]. split; lia.
Qed.

Lemma X22_witness :
  wf (setup 0 0) /\ motors_ok (setup 0 0)
  /\ 0 <= lastMotorTime (setup 0 0) <= 0
  /\ clocks_ok 0 [mkCycle 10 (stream_of_lines 10 ["255,255"%string]) [] 10;
                  mkCycle 14 [] [] 14]
  /\ exists g',
      run_loop [mkCycle 10 (stream_of_lines 10 ["255,255"%string]) [] 10;
                mkCycle 14 [] [] 14] (setup 0 0) = Some g'
      /\ 2 * (Z.abs (Motor.currentPWM (leftMotor g'))
              - Z.abs (Motor.currentPWM (leftMotor (setup 0 0))))
         <= last (map cy_now
                    [mkCycle 10 (stream_of_lines 10 ["255,255"%string]) [] 10;
                     mkCycle 14 [] [] 14]) 0
            - lastMotorTime (setup 0 0)
      /\ 2 * (Z.abs (Motor.currentPWM (rightMotor g'))
              - Z.abs (Motor.currentPWM (rightMotor (setup 0 0))))
         <= last (map cy_now
                    [mkCycle 10 (stream_of_lines 10 ["255,255"%string]) [] 10;
                     mkCycle 14 [] [] 14]) 0
            - lastMotorTime (setup 0 0).
Proof.
  assert (H1 : wf (setup 0 0)).
  { repeat split; try reflexivity; cbn; try lia; auto. }
  assert (H2 : motors_ok (setup 0 0)).
  { split; (split; [reflexivity|]); cbn; lia. }
  assert (H3 : 0 <= lastMotorTime (setup 0 0) <= 0) by (cbn; lia).
  assert (H4 : clocks_ok 0 [mkCycle 10 (stream_of_lines 10 ["255,255"%string]) [] 10;
                            mkCycle 14 [] [] 14]) by (cbn; lia).
  split; [exact H1|]. split; [exact H2|]. split; [exact H3|]. split; [exact H4|].
  exact (X22_slew_rate_in_time _ 0 (setup 0 0) H1 H2 H3 H4).
Defined.

(* ================================================================== *)
(** * Joint lines: from the wire to the command array *)
(* ================================================================== *)

Lemma cstr_nth (b : list ascii) :
  forall i, (i <= List.length (cstr b))%nat -> nth i b NUL = nth i (cstr b) NUL.
Proof.
  induction b as [|x t IH]; intros i Hi; [destruct i; reflexivity|].
  cbn [cstr] in *. destruct (Ascii.eqb x NUL) eqn:Ex.
  - apply Ascii.eqb_eq in Ex. subst x. cbn [List.length] in Hi.
    assert (i = 0%nat) by lia. subst i. reflexivity.
  - destruct i as [|i]; [reflexivity|].
    cbn [List.length] in Hi. cbn [nth]. apply IH. lia.
Qed.

Lemma nth_firstn_lt {A : Type} (d : A) (n : nat) :
  forall (l : list A) (i : nat), (i < n)%nat -> nth i (firstn n l) d = nth i l d.
Proof.
  induction n as [|n IH]; intros l i Hi; [lia|].
  destruct l as [|x r]; [reflexivity|].
  destruct i as [|i]; [reflexivity|].
  cbn [firstn nth]. apply IH. lia.
Qed.

Lemma nth_not_default_length {A : Type} (d : A) (l : list A) (i : nat) :
  nth i l d <> d -> (i < List.length l)%nat.
Proof.
  intros H. destruct (Nat.lt_ge_cases i (List.length l)) as [Lt | Ge]; [exact Lt|].
  exfalso. apply H. apply nth_overflow. exact Ge.
Qed.

(** The interpreter on a joint line with a joint digit ['1'..'6']. *)
Lemma processCommand_joint_line (now : Z) (cmd : list ascii) (g : Globals) :
  rd cmd 0 = "S"%char ->
  49 <= code (rd cmd 1) <= 54 ->
  processCommand now cmd g
  = set_servoCommands
      (upd (Z.to_nat (code (rd cmd 1) - 49))
           (if Ascii.eqb (rd cmd 2) "L" || Ascii.eqb (rd cmd 2) "R"
            then rd cmd 2 else NUL)
           (servoCommands (resetFailsafe now g)))
      (resetFailsafe now g).
Proof.
  intros HS Hd. unfold processCommand. rewrite HS, Ascii.eqb_refl.
  change (code "1") with 49. unfold ServoController.numServos.
  replace ((code (rd cmd 1) - 49 >=? 0) && (code (rd cmd 1) - 49 <? 6)) with true;
    [reflexivity|].
  symmetry. apply andb_true_iff. split.
  - rewrite Z.geb_leb. apply Z.leb_le. lia.
  - apply Z.ltb_lt. lia.
Qed.

(** X23. A joint line from the wire to the command array. On a
    well-formed state with the USB channel idle, a line of bytes other
    than LF, CR and NUL that starts with 'S' and a digit '1'..'6',
    followed by a terminator (and any further terminators), with nothing
    on the radio, sets the command of that joint to the third byte if it
    is 'L' or 'R' and to Hold otherwise - also when the line has only two
    bytes or more than three - and leaves the other joints, the motors
    and the controller alone; the failsafe flag is cleared and the
    command clock stamped. *)
Theorem X23_joint_line_end_to_end :
  forall (now : Z) (line : list ascii) (t : ascii) (ts : list ascii) (g : Globals),
    wf g -> usbIndex g = 0 ->
    forallb line_byte line = true ->
    is_terminator t = true -> forallb is_terminator ts = true ->
    nth 0 line NUL = "S"%char ->
    49 <= code (nth 1 line NUL) <= 54 ->
    exists g1,
      readInputs (bytes_at now (line ++ t :: ts)) [] g = Some g1
      /\ servoCommands g1
         = upd (Z.to_nat (code (nth 1 line NUL) - 49))
               (if Ascii.eqb (nth 2 line NUL) "L" || Ascii.eqb (nth 2 line NUL) "R"
                then nth 2 line NUL else NUL)
               (servoCommands g)
      /\ leftMotor g1 = leftMotor g /\ rightMotor g1 = rightMotor g
      /\ controller g1 = controller g
      /\ failsafeTriggered g1 = false
      /\ lastCommandTime g1 = now
      /\ usbIndex g1 = 0.
Proof.
  intros now line t ts g Hwf Hi Hlb Ht Hts HS Hd.
  pose proof Hwf as (Hu & Hrd & _).
  assert (Hne : line <> []) by (intros ->; discriminate HS).
  assert (Hlen : (1 < List.length line)%nat).
  { apply (nth_not_default_length NUL). intros E. rewrite E in Hd.
    change (code NUL) with 0 in Hd. lia. }
  destruct (frames_line_run now line t ts (usbBuffer g) []
              (proj1 Hu) Hne Hlb Ht Hts) as (b' & E1 & E2 & Hc & _).
  rewrite app_nil_r in E1, E2.
  assert (Hrd' : forall i, (i <= 2)%nat -> rd b' i = nth i line NUL).
  { intros i Hi2. unfold rd. rewrite cstr_nth.
    - rewrite Hc. apply nth_firstn_lt. lia.
    - rewrite Hc, length_firstn. lia. }
  rewrite (readInputs_batch _ _ g Hu Hrd). rewrite Hi, E1, E2.
  cbn [frames channel_after app fst snd].
  eexists. split; [reflexivity|].
  unfold after_inputs.
  cbn [servoCommands leftMotor rightMotor controller failsafeTriggered
       lastCommandTime usbIndex set_radio set_usb processAll fold_left fst snd].
  destruct (processCommand_fields now b' g) as (F1 & F2 & _ & _ & F5 & _).
  rewrite (processCommand_joint_line now b' g) in *
    by (rewrite ?Hrd' by lia; assumption).
  rewrite !Hrd' by lia.
  destruct (resetFailsafe_fields now g) as (_ & _ & _ & H4 & _).
  unfold actuators in H4.
  cbn [servoCommands leftMotor rightMotor controller set_servoCommands] in *.
  split; [f_equal; congruence|].
  split; [congruence|]. split; [congruence|]. split; [exact F5|].
  split; [exact F1|]. split; [exact F2 | reflexivity].
Qed.

Lemma X23_witness :
  wf (setup 0 0) /\ usbIndex (setup 0 0) = 0
  /\ exists g1,
      readInputs (bytes_at 4 (list_ascii_of_string "S3" ++ LF :: [])) [] (setup 0 0)
      = Some g1
      /\ servoCommands g1
         = upd (Z.to_nat (code (nth 1 (list_ascii_of_string "S3") NUL) - 49))
               (if Ascii.eqb (nth 2 (list_ascii_of_string "S3") NUL) "L"
                   || Ascii.eqb (nth 2 (list_ascii_of_string "S3") NUL) "R"
                then nth 2 (list_ascii_of_string "S3") NUL else NUL)
               (servoCommands (setup 0 0))
      /\ leftMotor g1 = leftMotor (setup 0 0)
      /\ rightMotor g1 = rightMotor (setup 0 0)
      /\ controller g1 = controller (setup 0 0)
      /\ failsafeTriggered g1 = false
      /\ lastCommandTime g1 = 4
      /\ usbIndex g1 = 0.
Proof.
  assert (H1 : wf (setup 0 0)).
  { repeat split; try reflexivity; cbn; try lia; auto. }
  assert (H2 : usbIndex (setup 0 0) = 0) by reflexivity.
  assert (H3 : forallb line_byte (list_ascii_of_string "S3") = true) by reflexivity.
  assert (H4 : is_terminator LF = true) by reflexivity.
  assert (H5 : forallb is_terminator [] = true) by reflexivity.
  assert (H6 : nth 0 (list_ascii_of_string "S3") NUL = "S"%char) by reflexivity.
  assert (H7 : 49 <= code (nth 1 (list_ascii_of_string "S3") NUL) <= 54)
    by (vm_compute; split; discriminate).
  split; [exact H1|]. split; [exact H2|].
  exact (X23_joint_line_end_to_end 4 (list_ascii_of_string "S3") LF [] (setup 0 0)
           H1 H2 H3 H4 H5 H6 H7).
Defined.

(* ================================================================== *)
(** * [strtok]: the tokens read and the bytes written *)
(* ================================================================== *)

Lemma skip_delim_cstr (s : list ascii) :
  skip_delim (cstr s) = cstr (skipn (delim_run s) s).
Proof.
  induction s as [|c r IH]; [reflexivity|].
  cbn [delim_run]. destruct (Ascii.eqb c ",") eqn:E.
  - apply Ascii.eqb_eq in E. subst c. cbn [cstr skipn].
    change (Ascii.eqb "," NUL) with false. cbn iota. cbn [skip_delim].
    change (Ascii.eqb "," ",") with true. cbn iota. exact IH.
  - cbn [skipn cstr]. destruct (Ascii.eqb c NUL); [reflexivity|].
    cbn [skip_delim]. rewrite E. reflexivity.
Qed.

Lemma token_end_cstr (s : list ascii) :
  token_end (cstr s)
  = (firstn (token_run s) s,
     if Ascii.eqb (nth (token_run s) s NUL) ","
     then cstr (skipn (S (token_run s)) s) else []).
Proof.
  induction s as [|c r IH]; [reflexivity|].
  cbn [token_run cstr].
  destruct (Ascii.eqb c ",") eqn:Ec.
  - apply Ascii.eqb_eq in Ec. subst c.
    change (Ascii.eqb "," NUL) with false. cbn [orb]. cbn iota.
    cbn [token_end firstn nth skipn].
    change (Ascii.eqb "," ",") with true. cbn iota. reflexivity.
  - cbn [orb]. destruct (Ascii.eqb c NUL) eqn:En.
    + apply Ascii.eqb_eq in En. subst c. cbn [token_end firstn nth].
      change (Ascii.eqb NUL ",") with false. reflexivity.
    + cbn [token_end]. rewrite Ec, IH. cbn [firstn nth skipn]. reflexivity.
Qed.

Lemma token_run_stop (s : list ascii) :
  Ascii.eqb (nth (token_run s) s NUL) "," = false ->
  nth (token_run s) s NUL = NUL.
Proof.
  induction s as [|c r IH]; intros H; [reflexivity|].
  cbn [token_run] in *.
  destruct (Ascii.eqb c ",") eqn:Ec; cbn [orb] in *.
  - cbn [nth] in H. congruence.
  - destruct (Ascii.eqb c NUL) eqn:En.
    + apply Ascii.eqb_eq in En. exact En.
    + cbn [nth] in *. apply IH, H.
Qed.

(** The C string of [s] when it is cut, or ends, at its token run. *)
Lemma cstr_token_run (s : list ascii) :
  nth (token_run s) s NUL = NUL -> cstr s = firstn (token_run s) s.
Proof.
  induction s as [|c r IH]; intros H; [reflexivity|].
  cbn [token_run] in *.
  destruct (Ascii.eqb c ",") eqn:Ec; cbn [orb] in *.
  - cbn [nth] in H. subst c. discriminate Ec.
  - cbn [cstr]. destruct (Ascii.eqb c NUL) eqn:En; [reflexivity|].
    cbn [nth firstn] in *. f_equal. apply IH, H.
Qed.

Lemma token_run_upd (s : list ascii) :
  token_run (upd (token_run s) NUL s) = token_run s.
Proof.
  induction s as [|c r IH]; [reflexivity|].
  cbn [token_run].
  destruct (Ascii.eqb c "," || Ascii.eqb c NUL) eqn:E.
  - cbn [upd token_run]. change (Ascii.eqb NUL "," || Ascii.eqb NUL NUL) with true.
    reflexivity.
  - cbn [upd token_run]. rewrite E, IH. reflexivity.
Qed.

Lemma firstn_upd_at {A : Type} (n : nat) (v : A) :
  forall l : list A, firstn n (upd n v l) = firstn n l.
Proof.
  induction n as [|n IH]; intros [|x r]; try reflexivity.
  cbn [upd firstn]. f_equal. apply IH.
Qed.

Lemma cstr_cut (s : list ascii) :
  (token_run s < List.length s)%nat ->
  cstr (upd (token_run s) NUL s) = firstn (token_run s) s.
Proof.
  intros H. rewrite cstr_token_run.
  - rewrite token_run_upd. apply firstn_upd_at.
  - rewrite token_run_upd. apply nth_upd_same, H.
Qed.

Lemma upd_nil {A : Type} (i : nat) (v : A) : upd i v [] = [].
Proof. destruct i; reflexivity. Qed.

Lemma skipn_upd_le {A : Type} (n : nat) (v : A) :
  forall (i : nat) (l : list A),
    (n <= i)%nat -> skipn n (upd i v l) = upd (i - n) v (skipn n l).
Proof.
  induction n as [|n IH]; intros i l H.
  - rewrite Nat.sub_0_r. reflexivity.
  - destruct l as [|x r]; [rewrite upd_nil, skipn_nil, upd_nil; reflexivity|].
    destruct i as [|i]; [lia|].
    cbn [upd skipn Nat.sub]. apply IH. lia.
Qed.

Lemma skipn_upd_gt {A : Type} (n : nat) (v : A) :
  forall (i : nat) (l : list A),
    (i < n)%nat -> skipn n (upd i v l) = skipn n l.
Proof.
  induction n as [|n IH]; intros i l H; [lia|].
  destruct l as [|x r]; [rewrite upd_nil; reflexivity|].
  destruct i as [|i]; [reflexivity|].
  cbn [upd skipn]. apply IH. lia.
Qed.

Lemma skipn_add {A : Type} (n : nat) :
  forall (m : nat) (l : list A), skipn m (skipn n l) = skipn (n + m) l.
Proof.
  induction n as [|n IH]; intros m l; [reflexivity|].
  destruct l as [|x r]; [destruct m; reflexivity|].
  cbn [skipn Nat.add]. apply IH.
Qed.

Lemma cstr_at_nul (s : list ascii) : nth 0 s NUL = NUL -> cstr s = [].
Proof.
  destruct s as [|c r]; [reflexivity|]. cbn [nth cstr]. intros ->. reflexivity.
Qed.

(** The token and the remainder that [strtok] as a function of the C
    string returns are the C strings found in the buffer that
    [strtok_buf] leaves, at the start of the token and at the saved
    position. *)
Lemma strtok_buf_agrees (buf : list ascii) (p : nat) :
  strtok (cstr (skipn p buf))
  = match strtok_buf buf p with
    | None => None
    | Some (start, buf', saved) =>
        Some (cstr (skipn start buf'), cstr (skipn saved buf'))
    end.
Proof.
  unfold strtok, strtok_buf.
  rewrite skip_delim_cstr, skipn_add.
  set (start := (p + delim_run (skipn p buf))%nat).
  set (s := skipn start buf).
  assert (Hh : nth start buf NUL = nth 0 s NUL).
  { unfold s. rewrite nth_skipn_add, Nat.add_0_r. reflexivity. }
  rewrite Hh.
  destruct (Ascii.eqb (nth 0 s NUL) NUL) eqn:E0.
  - apply Ascii.eqb_eq in E0. rewrite (cstr_at_nul s E0). reflexivity.
  - assert (Hc : exists c r, cstr s = c :: r).
    { destruct s as [|c r]; [discriminate E0|].
      cbn [nth] in E0. cbn [cstr]. rewrite E0. eauto. }
    destruct Hc as (c & r & Hc). rewrite Hc, <- Hc, token_end_cstr.
    set (t := token_run s).
    assert (Hstop : nth (start + t) buf NUL = nth t s NUL).
    { unfold s. rewrite nth_skipn_add. reflexivity. }
    rewrite Hstop.
    destruct (Ascii.eqb (nth t s NUL) ",") eqn:E1.
    + assert (Ht : (t < List.length s)%nat).
      { apply (nth_not_default_length NUL). intros E. rewrite E in E1.
        discriminate E1. }
      f_equal. f_equal.
      * rewrite skipn_upd_le by lia. fold s.
        replace (start + t - start)%nat with t by lia.
        symmetry. apply cstr_cut, Ht.
      * rewrite skipn_upd_gt by lia.
        unfold s. rewrite skipn_add. f_equal. f_equal. lia.
    + pose proof (token_run_stop s E1) as Hn. fold t in Hn.
      f_equal. f_equal.
      * fold s. symmetry. apply cstr_token_run, Hn.
      * symmetry. apply cstr_at_nul.
        rewrite nth_skipn_add, Nat.add_0_r, Hstop. exact Hn.
Qed.

(** [processCommand] reads its two tokens from the buffer that the two
    [strtok] calls leave in [processCommand_buffer]. *)
Lemma processCommand_tokens (cmd : list ascii) :
  Ascii.eqb (rd cmd 0) "S" = false ->
  match strtok (cstr cmd) with
  | None => processCommand_buffer cmd = cmd
  | Some (token, rest) =>
      exists start cmd1 saved,
        strtok_buf cmd 0 = Some (start, cmd1, saved)
        /\ token = cstr (skipn start cmd1)
        /\ rest = cstr (skipn saved cmd1)
        /\ match strtok rest with
           | None => processCommand_buffer cmd = cmd1
           | Some (token', _) =>
               exists start' cmd2 saved',
                 strtok_buf cmd1 saved = Some (start', cmd2, saved')
                 /\ token' = cstr (skipn start' cmd2)
                 /\ processCommand_buffer cmd = cmd2
           end
  end.
Proof.
  intros HS. unfold processCommand_buffer. rewrite HS.
  pose proof (strtok_buf_agrees cmd 0) as A1. cbn [skipn] in A1. rewrite A1.
  destruct (strtok_buf cmd 0) as [[[start cmd1] saved]|]; [|reflexivity].
  exists start, cmd1, saved. split; [reflexivity|].
  split; [reflexivity|]. split; [reflexivity|].
  rewrite (strtok_buf_agrees cmd1 saved).
  destruct (strtok_buf cmd1 saved) as [[[start' cmd2] saved']|]; [|reflexivity].
  exists start', cmd2, saved'. split; [reflexivity|]. split; reflexivity.
Qed.

(** The bytes a motor line leaves behind: the delimiter between the two
    fields is overwritten with NUL. *)
Example motor_line_residue :
  processCommand_buffer (list_ascii_of_string "50,-50" ++ repeat NUL 26)
  = list_ascii_of_string "50" ++ NUL :: list_ascii_of_string "-50" ++ repeat NUL 26.
Proof. vm_compute. reflexivity. Qed.
